(** * Tesseroid gravity kernels: a shallow embedding of
      [fatiando/gravmag/_tesseroid.pyx]

    The Cython module computes the gravitational effect of a tesseroid
    (a cell bounded by two meridians, two parallels and two radii) on a batch
    of observation points.  This development embeds the parts of the module
    that carry its control structure,

    - [scale_nodes]: the 2-point Gauss-Legendre nodes put in a cell,
    - [too_close]: the in-place two-pointer partition of the point indices,
    - [potential]: one of the direct batch kernels,
    - [distance_n_size], [kernelzz], [with_rediscretization], [gzz]: the
      adaptive engine with its fixed-capacity work list,

    and proves properties of them.

    A C [double] is read in two ways.

    - In exact arithmetic (the top level of the file) a [double] is a real
      number ([R]): rounding, infinities and NaN are left out.  The libm
      functions are the real [sin], [cos] and [sqrt]; [atan2] is defined
      from [atan].  This reading carries the statements in which the values
      of the numbers play no part, and the statements about the formulas
      themselves.
    - In binary64 (module [B64]) a [double] is an IEEE 754 binary64 number,
      Rocq's primitive [float]: the arithmetic operations, [sqrt] and the
      comparisons are the correctly rounded ones of the standard, in the
      order the source writes them and without fused operations; the
      functions of libm are a parameter of every definition.  This reading
      carries the statements about what a call computes.

    The C [int] counters of the work list are integers ([Z]); they stay far
    below 2^31.  A numpy array is a list; the module switches bounds checks
    off, so what an out-of-range access does is not defined by the source:
    reads are modelled with a total lookup, and a write past the end of the
    work list is a distinguished outcome ([OutOfBounds]). *)

From Stdlib Require Import Floats.
From Stdlib Require Uint63.
From Stdlib Require Import Reals Lra Lia ZArith String.
From Stdlib Require Import Permutation.
From stdpp Require Import base list.

Set Warnings "-inexact-float".

Open Scope R_scope.

#[global] Instance R_inhabited : Inhabited R := populate 0.

(** ** Python loops *)

(** [for i in range(n): s = body i s]. *)
Definition for_range {S : Type} (n : nat) (body : nat -> S -> S) (s : S) : S :=
  foldl (fun acc i => body i acc) s (seq 0 n).

(** ** Outcomes of a call *)

(** The two [raise] statements of the module both raise [ValueError]. *)
Inductive exn : Type :=
| ValueError (msg : string).

(** What running a piece of the engine can lead to: a value, a Python
    exception, a write outside the work-list buffer, or (in the model only) an
    exhausted loop budget. *)
Inductive outcome (A : Type) : Type :=
| Done (a : A)
| Raised (e : exn)
| OutOfBounds (row : Z)
| OutOfFuel.

Arguments Done {A} a.
Arguments Raised {A} e.
Arguments OutOfBounds {A} row.
Arguments OutOfFuel {A}.

Definition bind {A B : Type} (m : outcome A) (k : A -> outcome B) : outcome B :=
  match m with
  | Done a => k a
  | Raised e => Raised e
  | OutOfBounds row => OutOfBounds row
  | OutOfFuel => OutOfFuel
  end.

Notation "x <- m ;; k" := (bind m (fun x => k))
  (at level 100, m at next level, right associativity).

(** [for i in xrange(n)] around a body that may stop the call. *)
Fixpoint for_each {S : Type} (l : list nat) (body : nat -> S -> outcome S)
    (s : S) : outcome S :=
  match l with
  | [] => Done s
  | i :: l' => s' <- body i s ;; for_each l' body s'
  end.

Definition for_xrange {S : Type} (n : Z) (body : nat -> S -> outcome S)
    (s : S) : outcome S :=
  for_each (seq 0 (Z.to_nat n)) body s.

(** ** Data *)

(** The six bounds of a tesseroid, in the order the module unpacks them
    ([w, e, s, n, top, bottom]); a row of the work list has the same shape. *)
Record cell : Type := Cell {
  c_w : R; c_e : R; c_s : R; c_n : R; c_top : R; c_bottom : R
}.

#[global] Instance cell_inhabited : Inhabited cell := populate (Cell 0 0 0 0 0 0).

(** The ordering invariant of the data model. *)
Definition valid_bounds (c : cell) : Prop :=
  c_w c < c_e c /\ c_s c < c_n c /\ c_bottom c < c_top c.

(** The four node buffers [lonc], [sinlatc], [coslatc], [rc]. *)
Record glq : Type := Glq {
  lonc : list R; sinlatc : list R; coslatc : list R; rc : list R
}.

(** [numpy.empty(2, numpy.float)], four times: the contents are unspecified
    and every entry is written by [scale_nodes] before it is read. *)
Definition empty_glq : glq := Glq [0; 0] [0; 0] [0; 0] [0; 0].

Definition two_nodes (g : glq) : Prop :=
  (2 <= length (lonc g))%nat /\ (2 <= length (sinlatc g))%nat /\
  (2 <= length (coslatc g))%nat /\ (2 <= length (rc g))%nat.

(** ** Module constants *)

Definition d2r : R := PI / 180.

Definition nodes : list R :=
  [-0.577350269189625731058868041146; 0.577350269189625731058868041146].

Definition queue_max : Z := 10000.

(** libc's [atan2 y x]: the angle of the point [(x, y)]. *)
Definition atan2 (y x : R) : R :=
  if Rlt_dec 0 x then atan (y / x)
  else if Rlt_dec x 0 then
    (if Rle_dec 0 y then atan (y / x) + PI else atan (y / x) - PI)
  else if Rlt_dec 0 y then PI / 2
  else if Rlt_dec y 0 then - (PI / 2)
  else 0.

(** [x ** 2.5]: libc's [pow] with a real exponent, for a positive [x]
    ([Rpower] is 1 at 0 and below, where libc's [pow] returns 0 or NaN). *)
Definition pow_real (x y : R) : R := Rpower x y.

Section Kernels.

(** [constants.MEAN_EARTH_RADIUS]: the constants module is not part of the
    sources at hand, so the radius is a parameter of every definition. *)
Variable MEAN_EARTH_RADIUS : R.

(** ** [scale_nodes] *)

Definition scale_nodes (w e s n top bottom : R) (g : glq) : glq * R :=
  let dlon := e - w in
  let dlat := n - s in
  let dr := top - bottom in
  let mlon := 0.5 * (e + w) in
  let mlat := 0.5 * (n + s) in
  let mr := 0.5 * (top + bottom + 2 * MEAN_EARTH_RADIUS) in
  let g := for_range 2 (fun i g =>
    let latc := d2r * (0.5 * dlat * (nodes !!! i) + mlat) in
    Glq (<[i := d2r * (0.5 * dlon * (nodes !!! i) + mlon)]> (lonc g))
        (<[i := sin latc]> (sinlatc g))
        (<[i := cos latc]> (coslatc g))
        (<[i := 0.5 * dr * (nodes !!! i) + mr]> (rc g))) g in
  let scale := d2r * dlon * d2r * dlat * dr * 0.125 in
  (g, scale).

(** ** [potential] *)

(** The division [kappa/sqrt(l_sqr)] is read for a positive [l_sqr]: at an
    observation point that coincides with a node the source raises
    [ZeroDivisionError], which this reading leaves out. *)

Definition potential (tesseroid : cell) (density : R)
    (lons sinlats coslats radii : list R) (g : glq)
    (result : list R) (points : list nat) : list R :=
  let '(Cell w e s n top bottom) := tesseroid in
  let '(g, scale) := scale_nodes w e s n top bottom g in
  for_range (length points) (fun p result =>
    let l := points !!! p in
    let sinlat := sinlats !!! l in
    let coslat := coslats !!! l in
    let r_sqr := (radii !!! l) ^ 2 in
    for_range 2 (fun i result =>
      let coslon := cos (lons !!! l - lonc g !!! i) in
      for_range 2 (fun j result =>
        let cospsi := sinlat * (sinlatc g !!! j)
                      + coslat * (coslatc g !!! j) * coslon in
        for_range 2 (fun k result =>
          let rc_sqr := (rc g !!! k) ^ 2 in
          let l_sqr := r_sqr + rc_sqr - 2 * (radii !!! l) * (rc g !!! k) * cospsi in
          let kappa := rc_sqr * (coslatc g !!! j) in
          <[l := result !!! l + density * scale * (kappa / sqrt l_sqr)]> result)
        result) result) result) result.

(** ** [too_close] *)

Section TooCloseLoop.

Variables lon sinlat coslat radius : list R.
Variables rt rt_sqr sinlatt coslatt lont value : R.

(** The squared distance the loop computes for the point of index [p]. *)
Definition too_close_distance (p : nat) : R :=
  let cospsi := (sinlat !!! p) * sinlatt
                + (coslat !!! p) * coslatt * cos (lon !!! p - lont) in
  (radius !!! p) ^ 2 + rt_sqr - 2 * (radius !!! p) * rt * cospsi.

(** [while i <= j]: each round either advances [i] or retreats [j], so
    [remaining] = [j - i + 1] rounds are all the loop can make. *)
Fixpoint too_close_loop (remaining : nat) (points : list nat) (i j : Z)
    : exn + Z * list nat :=
  if decide (i <= j)%Z then
    match remaining with
    | O => inr (i, points)
    | S remaining =>
      let p := points !!! Z.to_nat i in
      let distance := too_close_distance p in
      if Rlt_dec distance 1e-20 then
        inl (ValueError "Can't calculate directly on the tesseroid")
      else if Rlt_dec value distance then
        too_close_loop remaining points (i + 1) j
      else
        let points := <[Z.to_nat i := points !!! Z.to_nat j]> points in
        let points := <[Z.to_nat j := p]> points in
        too_close_loop remaining points i (j - 1)
    end
  else inr (i, points).

End TooCloseLoop.

(** The call returns [i]; the index array is updated in place, so the model
    returns it next to [i]. *)
Definition too_close (tesseroid : cell) (lon sinlat coslat radius : list R)
    (ratio : R) (points : list nat) : exn + Z * list nat :=
  let '(Cell w e s n top bottom) := tesseroid in
  let rt := top + MEAN_EARTH_RADIUS in
  let rt_sqr := rt ^ 2 in
  let latt := d2r * 0.5 * (s + n) in
  let sinlatt := sin latt in
  let coslatt := cos latt in
  let lont := d2r * 0.5 * (w + e) in
  let size := Rmax (Rmax (MEAN_EARTH_RADIUS * d2r * (e - w))
                         (MEAN_EARTH_RADIUS * d2r * (n - s)))
                   (top - bottom) in
  let value := (size * ratio) ^ 2 in
  let i := 0%Z in
  let j := (Z.of_nat (length points) - 1)%Z in
  too_close_loop lon sinlat coslat radius rt rt_sqr sinlatt coslatt lont value
    (length points) points i j.

(** ** [kernelzz] *)

Definition kernel_func : Type := R -> R -> R -> R -> R -> glq -> R.

Definition kernelzz : kernel_func := fun lon sinlat coslat radius scale g =>
  let r_sqr := radius ^ 2 in
  for_range 2 (fun i result =>
    let coslon := cos (lon - lonc g !!! i) in
    for_range 2 (fun j result =>
      let cospsi := sinlat * (sinlatc g !!! j)
                    + coslat * (coslatc g !!! j) * coslon in
      for_range 2 (fun k result =>
        let rc_sqr := (rc g !!! k) ^ 2 in
        let l_sqr := r_sqr + rc_sqr - 2 * radius * (rc g !!! k) * cospsi in
        let l_5 := pow_real l_sqr 2.5 in
        let kappa := rc_sqr * (coslatc g !!! j) in
        let deltaz := (rc g !!! k) * cospsi - radius in
        result + scale * kappa * (3 * deltaz ^ 2 - l_sqr) / l_5)
      result) result) 0.

(** ** [distance_n_size] *)

(** Returns the distance and, through its three pointers, the extents
    [dlon], [dlat], [dr]. *)
Definition distance_n_size (w e s n top bottom lon sinlat coslat radius : R)
    : R * R * R * R :=
  let rt := top + MEAN_EARTH_RADIUS in
  let lont := d2r * 0.5 * (w + e) in
  let latt := d2r * 0.5 * (s + n) in
  let sinlatt := sin latt in
  let coslatt := cos latt in
  let cospsi := sinlat * sinlatt + coslat * coslatt * cos (lon - lont) in
  let distance := sqrt (radius ^ 2 + rt ^ 2 - 2 * radius * rt * cospsi) in
  let sinn := sin (d2r * n) in
  let cosn := cos (d2r * n) in
  let sins := sin (d2r * s) in
  let coss := cos (d2r * s) in
  let sindlon := sin (d2r * (e - w)) in
  let cosdlon := cos (d2r * (e - w)) in
  let dlon := MEAN_EARTH_RADIUS * atan2
    (sqrt ((coslatt * sindlon) ^ 2
           + (coslatt * sinlatt - sinlatt * coslatt * cosdlon) ^ 2))
    (sinlatt ^ 2 + cosdlon * coslatt ^ 2) in
  let dlat := MEAN_EARTH_RADIUS * atan2
    (coss * sinn - sins * cosn) (sins * sinn + coss * cosn) in
  let dr := top - bottom in
  (distance, dlon, dlat, dr).

(** ** [with_rediscretization] *)

(** The work list: the buffer [queue] of [queue_max] rows, the number
    [queue_size] of rows in use, and the accumulator [res]. *)
Record engine : Type := Engine {
  queue : list cell; queue_size : Z; res : R
}.

(** The six assignments [queue[queue_size, 0..5] = ...] and
    [queue_size = queue_size + 1]. *)
Definition push (c : cell) (st : engine) : outcome engine :=
  if decide (0 <= queue_size st < Z.of_nat (length (queue st)))%Z then
    Done (Engine (<[Z.to_nat (queue_size st) := c]> (queue st))
                 (queue_size st + 1) (res st))
  else OutOfBounds (queue_size st).

Section Refinement.

Variable kernel : kernel_func.
Variables ratio lon sinlat coslat radius : R.

(** One round of [while queue_size].  The four node buffers are allocated
    once per call and both entries of each are overwritten by every call of
    [scale_nodes], so each evaluation is given them afresh. *)
Definition refine_step (st : engine) : outcome engine :=
  let queue_size := (queue_size st - 1)%Z in
  let '(Cell w e s n top bottom) := queue st !!! Z.to_nat queue_size in
  let '(distance, dlon, dlat, dr) :=
    distance_n_size w e s n top bottom lon sinlat coslat radius in
  let nlon := if Rlt_dec distance (ratio * dlon) then 2%Z else 1%Z in
  let nlat := if Rlt_dec distance (ratio * dlat) then 2%Z else 1%Z in
  let nr := if Rlt_dec distance (ratio * dr) then 2%Z else 1%Z in
  if ((nlon =? 1) && (nlat =? 1) && (nr =? 1))%Z then
    let '(g, scale) := scale_nodes w e s n top bottom empty_glq in
    Done (Engine (queue st) queue_size
                 (res st + kernel lon sinlat coslat radius scale g))
  else if (queue_max <? queue_size + nlon + nlat + nr)%Z then
    Raised (ValueError "Tesseroid queue overflow")
  else
    let dlon := (e - w) / IZR nlon in
    let dlat := (n - s) / IZR nlat in
    let dr := (top - bottom) / IZR nr in
    for_xrange nlon (fun i =>
      for_xrange nlat (fun j =>
        for_xrange nr (fun k =>
          push (Cell (w + INR i * dlon) (w + (INR i + 1) * dlon)
                     (s + INR j * dlat) (s + (INR j + 1) * dlat)
                     (bottom + (INR k + 1) * dr) (bottom + INR k * dr)))))
      (Engine (queue st) queue_size (res st)).

(** [while queue_size: ...], with a budget of rounds. *)
Fixpoint refine_loop (fuel : nat) (st : engine) : outcome engine :=
  if (queue_size st =? 0)%Z then Done st
  else match fuel with
       | O => OutOfFuel
       | S fuel => st' <- refine_step st ;; refine_loop fuel st'
       end.

End Refinement.

(** The body of [for l in range(size)] up to the commit: the work list is set
    to the tesseroid alone and refined until it is empty.  Returns the buffer
    (reused by the next point) and [res]. *)
Definition refine_point (kernel : kernel_func) (fuel : nat) (bounds : cell)
    (ratio : R) (lons sinlats coslats radii : list R)
    (buffer : list cell) (l : nat) : outcome (list cell * R) :=
  let lon := lons !!! l in
  let sinlat := sinlats !!! l in
  let coslat := coslats !!! l in
  let radius := radii !!! l in
  let st := Engine (<[0%nat := bounds]> buffer) 1 0 in
  st' <- refine_loop kernel ratio lon sinlat coslat radius fuel st ;;
  Done (queue st', res st').

(** [for l in range(size)]: a point that completes commits
    [result[l] += density*res]; a point that does not stops the call, and the
    caller keeps the result array as it is at that moment. *)
Fixpoint points_loop (kernel : kernel_func) (fuel : nat) (bounds : cell)
    (density ratio : R) (lons sinlats coslats radii : list R)
    (ls : list nat) (buffer : list cell) (result : list R)
    : list R * outcome Z :=
  match ls with
  | [] => (result, Done 0%Z)
  | l :: ls' =>
    match refine_point kernel fuel bounds ratio lons sinlats coslats radii
                       buffer l with
    | Done (buffer', res) =>
      points_loop kernel fuel bounds density ratio lons sinlats coslats radii
        ls' buffer' (<[l := result !!! l + density * res]> result)
    | Raised e => (result, Raised e)
    | OutOfBounds row => (result, OutOfBounds row)
    | OutOfFuel => (result, OutOfFuel)
    end
  end.

(** [numpy.empty((queue_max, 6), numpy.float)]: unspecified contents. *)
Definition empty_queue : list cell :=
  replicate (Z.to_nat queue_max) (Cell 0 0 0 0 0 0).

Definition with_rediscretization (fuel : nat) (tesseroid : cell)
    (density ratio : R) (lons sinlats coslats radii result : list R)
    (kernel : kernel_func) : list R * outcome Z :=
  let bounds := tesseroid in
  let size := length result in
  points_loop kernel fuel bounds density ratio lons sinlats coslats radii
    (seq 0 size) empty_queue result.

(** ** [gzz] *)

Definition gzz (fuel : nat) (tesseroid : cell) (density ratio : R)
    (lons sinlats coslats radii result : list R) : list R * outcome Z :=
  with_rediscretization fuel tesseroid density ratio lons sinlats coslats
    radii result kernelzz.

End Kernels.

(** * Vocabulary of the statements *)

(** The tesseroid mirrored east-west about the meridian [lon] (degrees). *)
Definition mirror_lon (lon : R) (t : cell) : cell :=
  Cell (2 * lon - c_e t) (2 * lon - c_w t) (c_s t) (c_n t) (c_top t) (c_bottom t).

(** The value of [constants.MEAN_EARTH_RADIUS] used where a statement needs a
    number; the general lemmas hold for every radius. *)
Definition earth_radius : R := 6378137.

(** A one-degree cell at the equator, 1000 m thick, and a point above its
    centre. *)
Definition equator_cell : cell := Cell (-0.5) 0.5 (-0.5) 0.5 0 (-1000).

(** The squared distance [too_close] computes between the point of index [p]
    and the top centre of the tesseroid, and the squared threshold it compares
    it with. *)
Definition too_close_dist2 (Re : R) (t : cell)
    (lon sinlat coslat radius : list R) (p : nat) : R :=
  let rt := c_top t + Re in
  too_close_distance lon sinlat coslat radius rt (rt ^ 2)
    (sin (d2r * 0.5 * (c_s t + c_n t))) (cos (d2r * 0.5 * (c_s t + c_n t)))
    (d2r * 0.5 * (c_w t + c_e t)) p.

Definition too_close_value (Re : R) (t : cell) (ratio : R) : R :=
  let size := Rmax (Rmax (Re * d2r * (c_e t - c_w t))
                         (Re * d2r * (c_n t - c_s t)))
                   (c_top t - c_bottom t) in
  (size * ratio) ^ 2.

(** A cell 0.002 degrees wide and 1000 m thick, for the boundary case of
    [too_close]. *)
Definition small_cell : cell := Cell (-0.001) 0.001 (-0.001) 0.001 0 (-1000).

(** A cell of two degrees by two degrees centred on latitude and longitude 0,
    1000 m thick under the reference sphere. *)
Definition unit_cell : cell := Cell (-1) 1 (-1) 1 0 (-1000).

(** The squared straight-line distance between the point of index [p] and
    the centre of the tesseroid (middle meridian, middle parallel, middle
    radius), by the law of cosines: the distance the specification words
    name, next to [too_close_dist2], the one the code takes. *)
Definition centre_dist2 (Re : R) (t : cell)
    (lon sinlat coslat radius : list R) (p : nat) : R :=
  let rm := (c_top t + c_bottom t) / 2 + Re in
  too_close_distance lon sinlat coslat radius rm (rm ^ 2)
    (sin (d2r * 0.5 * (c_s t + c_n t))) (cos (d2r * 0.5 * (c_s t + c_n t)))
    (d2r * 0.5 * (c_w t + c_e t)) p.

(** ** Vocabulary of the adaptive engine *)

#[global] Instance Rlt_decision (x y : R) : Decision (x < y) := Rlt_dec x y.

(** The axes (longitude, latitude, radius) along which the point
    [(lon, sinlat, coslat, radius)] is too close to the cell: those whose
    extent, times [ratio], exceeds the distance. *)
Definition split_flags (Re ratio lon sinlat coslat radius : R) (c : cell)
    : bool * bool * bool :=
  let '(distance, dlon, dlat, dr) :=
    distance_n_size Re (c_w c) (c_e c) (c_s c) (c_n c) (c_top c) (c_bottom c)
      lon sinlat coslat radius in
  (bool_decide (distance < ratio * dlon),
   bool_decide (distance < ratio * dlat),
   bool_decide (distance < ratio * dr)).

Definition no_split (fl : bool * bool * bool) : Prop := fl = (false, false, false).

(** Number of parts an axis is cut in, and number of flagged axes. *)
Definition parts (flag : bool) : Z := if flag then 2 else 1.

Definition flagged (fl : bool * bool * bool) : nat :=
  let '(flon, flat, fr) := fl in
  (if flon then 1 else 0) + (if flat then 1 else 0) + (if fr then 1 else 0).

(** The sub-cells of [c] for the flags [fl], in the order the three nested
    loops write them. *)
Definition children (c : cell) (fl : bool * bool * bool) : list cell :=
  let '(flon, flat, fr) := fl in
  let dlon := (c_e c - c_w c) / IZR (parts flon) in
  let dlat := (c_n c - c_s c) / IZR (parts flat) in
  let dr := (c_top c - c_bottom c) / IZR (parts fr) in
  i ← seq 0 (Z.to_nat (parts flon));
  j ← seq 0 (Z.to_nat (parts flat));
  k ← seq 0 (Z.to_nat (parts fr));
  [Cell (c_w c + INR i * dlon) (c_w c + (INR i + 1) * dlon)
        (c_s c + INR j * dlat) (c_s c + (INR j + 1) * dlat)
        (c_bottom c + (INR k + 1) * dr) (c_bottom c + INR k * dr)].

(** Pushing a list of rows one after the other. *)
Fixpoint push_all (cs : list cell) (st : engine) : outcome engine :=
  match cs with
  | [] => Done st
  | c :: cs' => st' <- push c st ;; push_all cs' st'
  end.

(** The buffer with [rows] written from row [base] on. *)
Definition write_rows (q : list cell) (base : nat) (rows : list cell)
    : list cell :=
  take base q ++ rows ++ drop (base + length rows) q.

(** The rows in use: the work items held. *)
Definition live (st : engine) : list cell :=
  take (Z.to_nat (queue_size st)) (queue st).

(** The state a point starts from: [queue[0, :] = bounds], [queue_size = 1],
    [res = 0]. *)
Definition start (bounds : cell) (buffer : list cell) : engine :=
  Engine (<[0%nat := bounds]> buffer) 1 0.

(** The states the loop of one point goes through. *)
Inductive reachable (Re : R) (kernel : kernel_func)
    (ratio lon sinlat coslat radius : R) (st0 : engine) : engine -> Prop :=
| reach_start : reachable Re kernel ratio lon sinlat coslat radius st0 st0
| reach_step st st' :
    reachable Re kernel ratio lon sinlat coslat radius st0 st ->
    queue_size st <> 0%Z ->
    refine_step Re kernel ratio lon sinlat coslat radius st = Done st' ->
    reachable Re kernel ratio lon sinlat coslat radius st0 st'.

(** A point of longitude [x], latitude [y] and height [z] (in the units of
    the bounds) lies in the cell, or strictly inside it. *)
Definition inside (x y z : R) (c : cell) : Prop :=
  c_w c <= x <= c_e c /\ c_s c <= y <= c_n c /\ c_bottom c <= z <= c_top c.

Definition strictly_inside (x y z : R) (c : cell) : Prop :=
  c_w c < x < c_e c /\ c_s c < y < c_n c /\ c_bottom c < z < c_top c.

(** The row a round pops. *)
Definition top_row (st : engine) : cell :=
  queue st !!! Z.to_nat (queue_size st - 1).

(** The test the engine makes before it pushes the children of the popped
    row. *)
Definition guard_passes (Re ratio lon sinlat coslat radius : R) (st : engine)
    : Prop :=
  let fl := split_flags Re ratio lon sinlat coslat radius (top_row st) in
  (queue_size st - 1 + parts fl.1.1 + parts fl.1.2 + parts fl.2
   <= queue_max)%Z.

(** Cells used to exercise the work list.  They lie over the square of
    longitudes and latitudes [0, 1] degrees and are observed from the centre
    of the Earth (radius 0), where the distance to a cell is the absolute
    value of its top radius.

    - [chain_cell Re c]: the top of [c] is at the centre of the Earth, so the
      distance is 0 and every axis of positive extent is flagged;
    - [overflow_cell Re]: such a cell, one unit thick;
    - [bad_cell Re]: a cell with every pair of bounds in the wrong order. *)
Definition chain_cell (Re : R) (c : cell) : Prop :=
  0 <= c_w c /\ c_w c < c_e c /\ c_e c <= 1 /\
  0 <= c_s c /\ c_s c < c_n c /\ c_n c <= 1 /\
  c_top c = - Re /\ c_bottom c < c_top c.

Definition overflow_cell (Re : R) : cell := Cell 0 1 0 1 (- Re) (- Re - 1).

Definition bad_cell (Re : R) : cell := Cell 1 0 1 0 (3 * Re) (3 * Re + 1).

(** The work list after [m] rounds that each cut a [chain_cell] in eight,
    above [p] rows left pending: the top row is again such a cell. *)
Definition chain_state (Re : R) (p m : Z) (st : engine) : Prop :=
  queue_size st = (p + 7 * m + 1)%Z /\
  Z.of_nat (length (queue st)) = queue_max /\
  chain_cell Re (top_row st).

(** Two states of the work list that agree on everything a run can read: the
    number of rows in use, these rows, the accumulator and the capacity. *)
Definition same_live (a b : engine) : Prop :=
  queue_size a = queue_size b /\ res a = res b /\
  length (queue a) = length (queue b) /\ live a = live b.

Definition same_outcome (x y : outcome engine) : Prop :=
  match x, y with
  | Done a, Done b => same_live a b
  | Raised e, Raised e' => e = e'
  | OutOfBounds i, OutOfBounds j => i = j
  | OutOfFuel, OutOfFuel => True
  | _, _ => False
  end.

(** What the refinement of point [l] yields, the buffer left aside: its
    accumulated [res], or what stopped it. *)
Definition point_result (Re : R) (kernel : kernel_func) (fuel : nat)
    (bounds : cell) (ratio : R) (lons sinlats coslats radii : list R)
    (l : nat) : outcome R :=
  p <- refine_point Re kernel fuel bounds ratio lons sinlats coslats radii
         empty_queue l ;;
  Done p.2.

(** How a point that does not complete ends the call. *)
Definition as_status (o : outcome R) : outcome Z :=
  match o with
  | Done _ => Done 0%Z
  | Raised e => Raised e
  | OutOfBounds row => OutOfBounds row
  | OutOfFuel => OutOfFuel
  end.

(** The flags of the whole tesseroid for the point of index [l]. *)
Definition point_flags (Re : R) (bounds : cell) (ratio : R)
    (lons sinlats coslats radii : list R) (l : nat) : bool * bool * bool :=
  split_flags Re ratio (lons !!! l) (sinlats !!! l) (coslats !!! l)
    (radii !!! l) bounds.

(** The direct evaluation of [kernel] for the point of index [l]: the kernel
    on the nodes of the unsplit tesseroid. *)
Definition direct_kernel (Re : R) (kernel : kernel_func) (bounds : cell)
    (lons sinlats coslats radii : list R) (l : nat) : R :=
  let out := scale_nodes Re (c_w bounds) (c_e bounds) (c_s bounds)
               (c_n bounds) (c_top bounds) (c_bottom bounds) empty_glq in
  kernel (lons !!! l) (sinlats !!! l) (coslats !!! l) (radii !!! l) out.2 out.1.

(** * The binary64 reading *)

(** The same functions with a C [double] read as an IEEE 754 binary64 number:
    [+], [-], [*], [/] and [sqrt] are the correctly rounded operations, a
    comparison with a NaN is false.  The functions of libm that the module
    calls ([sin], [cos] and [sincos], [atan2], and [pow] for [**]) are
    parameters: their values are not fixed by IEEE 754. *)
Module B64.

Local Open Scope float_scope.

#[global] Instance float_inhabited : Inhabited float := populate 0.

(** The functions the module takes from libm. *)
Record libm : Type := Libm {
  sin : float -> float;
  cos : float -> float;
  atan2 : float -> float -> float;
  pow : float -> float -> float
}.

(** C's conversion of an [int] to a [double]. *)
Definition of_int (z : Z) : float := PrimFloat.of_uint63 (Uint63.of_Z z).

Record cell : Type := Cell {
  c_w : float; c_e : float; c_s : float; c_n : float;
  c_top : float; c_bottom : float
}.

#[global] Instance cell_inhabited : Inhabited cell := populate (Cell 0 0 0 0 0 0).

Record glq : Type := Glq {
  lonc : list float; sinlatc : list float; coslatc : list float;
  rc : list float
}.

Definition empty_glq : glq := Glq [0; 0] [0; 0] [0; 0] [0; 0].

Definition two_nodes (g : glq) : Prop :=
  (2 <= length (lonc g))%nat /\ (2 <= length (sinlatc g))%nat /\
  (2 <= length (coslatc g))%nat /\ (2 <= length (rc g))%nat.

(** [numpy.pi], and the module constants. *)
Definition pi : float := 0x1.921fb54442d18p+1.

Definition d2r : float := pi / 180.

Definition nodes : list float :=
  [-0.577350269189625731058868041146; 0.577350269189625731058868041146].

Section Kernels.

Variable m : libm.
Variable MEAN_EARTH_RADIUS : float.

Definition scale_nodes (w e s n top bottom : float) (g : glq) : glq * float :=
  let dlon := e - w in
  let dlat := n - s in
  let dr := top - bottom in
  let mlon := 0.5 * (e + w) in
  let mlat := 0.5 * (n + s) in
  let mr := 0.5 * (top + bottom + 2 * MEAN_EARTH_RADIUS) in
  let g := for_range 2 (fun i g =>
    let latc := d2r * (0.5 * dlat * (nodes !!! i) + mlat) in
    Glq (<[i := d2r * (0.5 * dlon * (nodes !!! i) + mlon)]> (lonc g))
        (<[i := sin m latc]> (sinlatc g))
        (<[i := cos m latc]> (coslatc g))
        (<[i := 0.5 * dr * (nodes !!! i) + mr]> (rc g))) g in
  let scale := d2r * dlon * d2r * dlat * dr * 0.125 in
  (g, scale).

(** Python's [max] of a three-element list: the first element, replaced by a
    later one that compares greater. *)
Definition max3 (a b c : float) : float :=
  let x := if a <? b then b else a in
  if x <? c then c else x.

Section TooCloseLoop.

Variables lon sinlat coslat radius : list float.
Variables rt rt_sqr sinlatt coslatt lont value : float.

Definition too_close_distance (p : nat) : float :=
  let cospsi := (sinlat !!! p) * sinlatt
                + (coslat !!! p) * coslatt * cos m (lon !!! p - lont) in
  pow m (radius !!! p) 2 + rt_sqr - 2 * (radius !!! p) * rt * cospsi.

Fixpoint too_close_loop (remaining : nat) (points : list nat) (i j : Z)
    : exn + Z * list nat :=
  if decide (i <= j)%Z then
    match remaining with
    | O => inr (i, points)
    | S remaining =>
      let p := points !!! Z.to_nat i in
      let distance := too_close_distance p in
      if distance <? 1e-20 then
        inl (ValueError "Can't calculate directly on the tesseroid")
      else if value <? distance then
        too_close_loop remaining points (i + 1) j
      else
        let points := <[Z.to_nat i := points !!! Z.to_nat j]> points in
        let points := <[Z.to_nat j := p]> points in
        too_close_loop remaining points i (j - 1)
    end
  else inr (i, points).

End TooCloseLoop.

Definition too_close (tesseroid : cell) (lon sinlat coslat radius : list float)
    (ratio : float) (points : list nat) : exn + Z * list nat :=
  let '(Cell w e s n top bottom) := tesseroid in
  let rt := top + MEAN_EARTH_RADIUS in
  let rt_sqr := pow m rt 2 in
  let latt := d2r * 0.5 * (s + n) in
  let sinlatt := sin m latt in
  let coslatt := cos m latt in
  let lont := d2r * 0.5 * (w + e) in
  let size := max3 (MEAN_EARTH_RADIUS * d2r * (e - w))
                   (MEAN_EARTH_RADIUS * d2r * (n - s))
                   (top - bottom) in
  let value := pow m (size * ratio) 2 in
  let i := 0%Z in
  let j := (Z.of_nat (length points) - 1)%Z in
  too_close_loop lon sinlat coslat radius rt rt_sqr sinlatt coslatt lont value
    (length points) points i j.

Definition kernel_func : Type :=
  float -> float -> float -> float -> float -> glq -> float.

Definition kernelzz : kernel_func := fun lon sinlat coslat radius scale g =>
  let r_sqr := pow m radius 2 in
  for_range 2 (fun i result =>
    let coslon := cos m (lon - lonc g !!! i) in
    for_range 2 (fun j result =>
      let cospsi := sinlat * (sinlatc g !!! j)
                    + coslat * (coslatc g !!! j) * coslon in
      for_range 2 (fun k result =>
        let rc_sqr := pow m (rc g !!! k) 2 in
        let l_sqr := r_sqr + rc_sqr - 2 * radius * (rc g !!! k) * cospsi in
        let l_5 := pow m l_sqr 2.5 in
        let kappa := rc_sqr * (coslatc g !!! j) in
        let deltaz := (rc g !!! k) * cospsi - radius in
        result + scale * kappa * (3 * pow m deltaz 2 - l_sqr) / l_5)
      result) result) 0.

Definition distance_n_size
    (w e s n top bottom lon sinlat coslat radius : float)
    : float * float * float * float :=
  let rt := top + MEAN_EARTH_RADIUS in
  let lont := d2r * 0.5 * (w + e) in
  let latt := d2r * 0.5 * (s + n) in
  let sinlatt := sin m latt in
  let coslatt := cos m latt in
  let cospsi := sinlat * sinlatt + coslat * coslatt * cos m (lon - lont) in
  let distance :=
    PrimFloat.sqrt (pow m radius 2 + pow m rt 2 - 2 * radius * rt * cospsi) in
  let sinn := sin m (d2r * n) in
  let cosn := cos m (d2r * n) in
  let sins := sin m (d2r * s) in
  let coss := cos m (d2r * s) in
  let sindlon := sin m (d2r * (e - w)) in
  let cosdlon := cos m (d2r * (e - w)) in
  let dlon := MEAN_EARTH_RADIUS * atan2 m
    (PrimFloat.sqrt (pow m (coslatt * sindlon) 2
           + pow m (coslatt * sinlatt - sinlatt * coslatt * cosdlon) 2))
    (pow m sinlatt 2 + cosdlon * pow m coslatt 2) in
  let dlat := MEAN_EARTH_RADIUS * atan2 m
    (coss * sinn - sins * cosn) (sins * sinn + coss * cosn) in
  let dr := top - bottom in
  (distance, dlon, dlat, dr).

Record engine : Type := Engine {
  queue : list cell; queue_size : Z; res : float
}.

Definition push (c : cell) (st : engine) : outcome engine :=
  if decide (0 <= queue_size st < Z.of_nat (length (queue st)))%Z then
    Done (Engine (<[Z.to_nat (queue_size st) := c]> (queue st))
                 (queue_size st + 1) (res st))
  else OutOfBounds (queue_size st).

Section Refinement.

Variable kernel : kernel_func.
Variables ratio lon sinlat coslat radius : float.

Definition refine_step (st : engine) : outcome engine :=
  let queue_size := (queue_size st - 1)%Z in
  let '(Cell w e s n top bottom) := queue st !!! Z.to_nat queue_size in
  let '(distance, dlon, dlat, dr) :=
    distance_n_size w e s n top bottom lon sinlat coslat radius in
  let nlon := if distance <? ratio * dlon then 2%Z else 1%Z in
  let nlat := if distance <? ratio * dlat then 2%Z else 1%Z in
  let nr := if distance <? ratio * dr then 2%Z else 1%Z in
  if ((nlon =? 1) && (nlat =? 1) && (nr =? 1))%Z then
    let '(g, scale) := scale_nodes w e s n top bottom empty_glq in
    Done (Engine (queue st) queue_size
                 (res st + kernel lon sinlat coslat radius scale g))
  else if (queue_max <? queue_size + nlon + nlat + nr)%Z then
    Raised (ValueError "Tesseroid queue overflow")
  else
    let dlon := (e - w) / of_int nlon in
    let dlat := (n - s) / of_int nlat in
    let dr := (top - bottom) / of_int nr in
    for_xrange nlon (fun i =>
      for_xrange nlat (fun j =>
        for_xrange nr (fun k =>
          push (Cell (w + of_int (Z.of_nat i) * dlon)
                     (w + of_int (Z.of_nat i + 1) * dlon)
                     (s + of_int (Z.of_nat j) * dlat)
                     (s + of_int (Z.of_nat j + 1) * dlat)
                     (bottom + of_int (Z.of_nat k + 1) * dr)
                     (bottom + of_int (Z.of_nat k) * dr)))))
      (Engine (queue st) queue_size (res st)).

Fixpoint refine_loop (fuel : nat) (st : engine) : outcome engine :=
  if (queue_size st =? 0)%Z then Done st
  else match fuel with
       | O => OutOfFuel
       | S fuel => st' <- refine_step st ;; refine_loop fuel st'
       end.

End Refinement.

Definition refine_point (kernel : kernel_func) (fuel : nat) (bounds : cell)
    (ratio : float) (lons sinlats coslats radii : list float)
    (buffer : list cell) (l : nat) : outcome (list cell * float) :=
  let lon := lons !!! l in
  let sinlat := sinlats !!! l in
  let coslat := coslats !!! l in
  let radius := radii !!! l in
  let st := Engine (<[0%nat := bounds]> buffer) 1 0 in
  st' <- refine_loop kernel ratio lon sinlat coslat radius fuel st ;;
  Done (queue st', res st').

Fixpoint points_loop (kernel : kernel_func) (fuel : nat) (bounds : cell)
    (density ratio : float) (lons sinlats coslats radii : list float)
    (ls : list nat) (buffer : list cell) (result : list float)
    : list float * outcome Z :=
  match ls with
  | [] => (result, Done 0%Z)
  | l :: ls' =>
    match refine_point kernel fuel bounds ratio lons sinlats coslats radii
                       buffer l with
    | Done (buffer', res) =>
      points_loop kernel fuel bounds density ratio lons sinlats coslats radii
        ls' buffer' (<[l := result !!! l + density * res]> result)
    | Raised e => (result, Raised e)
    | OutOfBounds row => (result, OutOfBounds row)
    | OutOfFuel => (result, OutOfFuel)
    end
  end.

Definition empty_queue : list cell :=
  replicate (Z.to_nat queue_max) (Cell 0 0 0 0 0 0).

Definition with_rediscretization (fuel : nat) (tesseroid : cell)
    (density ratio : float) (lons sinlats coslats radii result : list float)
    (kernel : kernel_func) : list float * outcome Z :=
  let bounds := tesseroid in
  let size := length result in
  points_loop kernel fuel bounds density ratio lons sinlats coslats radii
    (seq 0 size) empty_queue result.

Definition gzz (fuel : nat) (tesseroid : cell) (density ratio : float)
    (lons sinlats coslats radii result : list float)
    : list float * outcome Z :=
  with_rediscretization fuel tesseroid density ratio lons sinlats coslats
    radii result kernelzz.

End Kernels.

(** ** Vocabulary of the binary64 statements *)

(** What a correctly rounding libm returns for small arguments and for
    squares: [sin x] is [x] and [cos x] is 1 up to [2^-27], [atan2 y 1] is
    [y] up to [2^-27], and [pow x 2] is the rounded product. *)
Definition correct_near_zero (m : libm) : Prop :=
  (forall x, (abs x <=? 0x1p-27) = true -> sin m x = x /\ cos m x = 1) /\
  (forall y, (0 <=? y) = true -> (y <=? 0x1p-27) = true -> atan2 m y 1 = y) /\
  (forall x, pow m x 2 = x * x).

(** A libm with these values everywhere, for the closed statements. *)
Definition first_order : libm :=
  Libm (fun x => x) (fun _ => 1) (fun y x => if x =? 1 then y else y / x)
       (fun x y => if y =? 2 then x * x else x * x * PrimFloat.sqrt x).

Definition earth_radius : float := 6378137.

(** The axes along which the point is too close to the cell. *)
Definition split_flags (m : libm) (Re ratio lon sinlat coslat radius : float)
    (c : cell) : bool * bool * bool :=
  let '(distance, dlon, dlat, dr) :=
    distance_n_size m Re (c_w c) (c_e c) (c_s c) (c_n c) (c_top c)
      (c_bottom c) lon sinlat coslat radius in
  (distance <? ratio * dlon, distance <? ratio * dlat, distance <? ratio * dr).

(** The sub-cells of [c] for the flags [fl], in the order the three nested
    loops write them. *)
Definition children (c : cell) (fl : bool * bool * bool) : list cell :=
  let '(flon, flat, fr) := fl in
  let dlon := (c_e c - c_w c) / of_int (parts flon) in
  let dlat := (c_n c - c_s c) / of_int (parts flat) in
  let dr := (c_top c - c_bottom c) / of_int (parts fr) in
  i ← seq 0 (Z.to_nat (parts flon));
  j ← seq 0 (Z.to_nat (parts flat));
  k ← seq 0 (Z.to_nat (parts fr));
  [Cell (c_w c + of_int (Z.of_nat i) * dlon)
        (c_w c + of_int (Z.of_nat i + 1) * dlon)
        (c_s c + of_int (Z.of_nat j) * dlat)
        (c_s c + of_int (Z.of_nat j + 1) * dlat)
        (c_bottom c + of_int (Z.of_nat k + 1) * dr)
        (c_bottom c + of_int (Z.of_nat k) * dr)].

Fixpoint push_all (cs : list cell) (st : engine) : outcome engine :=
  match cs with
  | [] => Done st
  | c :: cs' => st' <- push c st ;; push_all cs' st'
  end.

Definition write_rows (q : list cell) (base : nat) (rows : list cell)
    : list cell :=
  take base q ++ rows ++ drop (base + length rows) q.

Definition live (st : engine) : list cell :=
  take (Z.to_nat (queue_size st)) (queue st).

Definition start (bounds : cell) (buffer : list cell) : engine :=
  Engine (<[0%nat := bounds]> buffer) 1 0.

Definition top_row (st : engine) : cell :=
  queue st !!! Z.to_nat (queue_size st - 1).

Definition guard_passes (m : libm)
    (Re ratio lon sinlat coslat radius : float) (st : engine) : Prop :=
  let fl := split_flags m Re ratio lon sinlat coslat radius (top_row st) in
  (queue_size st - 1 + parts fl.1.1 + parts fl.1.2 + parts fl.2
   <= queue_max)%Z.

(** The ordering invariant, and a point (in the units of the bounds) lying
    in a cell, with the comparisons of binary64. *)
Definition valid_bounds (c : cell) : Prop :=
  (c_w c <? c_e c) = true /\ (c_s c <? c_n c) = true /\
  (c_bottom c <? c_top c) = true.

Definition inside (x y z : float) (c : cell) : Prop :=
  (c_w c <=? x) = true /\ (x <=? c_e c) = true /\
  (c_s c <=? y) = true /\ (y <=? c_n c) = true /\
  (c_bottom c <=? z) = true /\ (z <=? c_top c) = true.

(** The quantity [too_close] computes for the point of index [p] and compares
    with the epsilon and the threshold: the squared distance to the centre of
    the top face of the tesseroid, as rounded. *)
Definition too_close_dist2 (m : libm) (Re : float) (t : cell)
    (lon sinlat coslat radius : list float) (p : nat) : float :=
  let rt := c_top t + Re in
  too_close_distance m lon sinlat coslat radius rt (pow m rt 2)
    (sin m (d2r * 0.5 * (c_s t + c_n t))) (cos m (d2r * 0.5 * (c_s t + c_n t)))
    (d2r * 0.5 * (c_w t + c_e t)) p.

Definition too_close_value (m : libm) (Re : float) (t : cell) (ratio : float)
    : float :=
  let size := max3 (Re * d2r * (c_e t - c_w t)) (Re * d2r * (c_n t - c_s t))
                   (c_top t - c_bottom t) in
  pow m (size * ratio) 2.

(** ** Inputs of the binary64 statements *)

(** Two neighbouring doubles, [2^-40] and the next one: a bound pair one unit
    in the last place apart. *)
Definition thin_lo : float := 0x1p-40.
Definition thin_hi : float := 0x1.0000000000001p-40.

(** The longitude, in radians, of the meridian through the middle of
    [thin_lo, thin_hi], as the module computes it. *)
Definition thin_lon : float := d2r * 0.5 * (thin_lo + thin_hi).

(** Cells over the square [thin_lo, thin_hi] of longitudes and latitudes,
    near the centre of the Earth ([2^-30] is the spacing of the doubles next
    to the radius 6378137):

    - [tower_cell b]: top at [-6378137 + 2^-29], bottom [b];
    - [deep_cell]: such a cell 32 spacings thick;
    - [replica_cell]: the cell between [-6378137] and the next double, which
      is its own last child. *)
Definition tower_cell (b : float) : cell :=
  Cell thin_lo thin_hi thin_lo thin_hi (-0x1.854a63ffffffep+22) b.

Definition deep_cell : cell := tower_cell (-0x1.854a64000001ep+22).

Definition replica_cell : cell :=
  Cell thin_lo thin_hi thin_lo thin_hi (-0x1.854a63fffffffp+22) (-6378137).

(** A cell whose east bound [2^-100] is lost when the extent
    [2^-100 + 2^-40] is rounded, with the meridian through its middle as the
    module computes it; and the cell between the double before 1 and 1. *)
Definition skew_cell : cell := Cell (-0x1p-40) 0x1p-100 0x1p-40 0x1p-39 0 (-1).

Definition skew_lon : float := d2r * 0.5 * (-0x1p-40 + 0x1p-100).


(** A cell of two degrees by two degrees centred on latitude and longitude 0,
    1000 m thick under the reference sphere. *)
Definition unit_cell : cell := Cell (-1) 1 (-1) 1 0 (-1000).

(** The direct evaluation of [kernel] for the point of index [l]. *)
Definition direct_kernel (m : libm) (Re : float) (kernel : kernel_func)
    (bounds : cell) (lons sinlats coslats radii : list float) (l : nat)
    : float :=
  let out := scale_nodes m Re (c_w bounds) (c_e bounds) (c_s bounds)
               (c_n bounds) (c_top bounds) (c_bottom bounds) empty_glq in
  kernel (lons !!! l) (sinlats !!! l) (coslats !!! l) (radii !!! l) out.2 out.1.

(** The work list with [replica_cell] on top of [p] pending rows and [7 * k]
    rows of earlier cuts. *)
Definition chain_state (p k : Z) (st : engine) : Prop :=
  queue_size st = (p + 7 * k + 1)%Z /\
  Z.of_nat (length (queue st)) = queue_max /\
  top_row st = replica_cell.

(** Two states of the work list that agree on everything a run can read. *)
Definition same_live (a b : engine) : Prop :=
  queue_size a = queue_size b /\ res a = res b /\
  length (queue a) = length (queue b) /\ live a = live b.

Definition same_outcome (x y : outcome engine) : Prop :=
  match x, y with
  | Done a, Done b => same_live a b
  | Raised e, Raised e' => e = e'
  | OutOfBounds i, OutOfBounds j => i = j
  | OutOfFuel, OutOfFuel => True
  | _, _ => False
  end.

(** What the refinement of point [l] yields, the buffer left aside: its
    accumulated [res], or what stopped it. *)
Definition point_result (m : libm) (Re : float) (kernel : kernel_func)
    (fuel : nat) (bounds : cell) (ratio : float)
    (lons sinlats coslats radii : list float) (l : nat) : outcome float :=
  p <- refine_point m Re kernel fuel bounds ratio lons sinlats coslats radii
         empty_queue l ;;
  Done p.2.

(** How a point that does not complete ends the call. *)
Definition as_status (o : outcome float) : outcome Z :=
  match o with
  | Done _ => Done 0%Z
  | Raised e => Raised e
  | OutOfBounds row => OutOfBounds row
  | OutOfFuel => OutOfFuel
  end.

(** The flags of the whole tesseroid for the point of index [l]. *)
Definition point_flags (m : libm) (Re : float) (bounds : cell) (ratio : float)
    (lons sinlats coslats radii : list float) (l : nat) : bool * bool * bool :=
  split_flags m Re ratio (lons !!! l) (sinlats !!! l) (coslats !!! l)
    (radii !!! l) bounds.

End B64.


(** * Properties *)

Lemma d2r_pos : 0 < d2r.
Proof. unfold d2r. pose proof PI_RGT_0. lra. Qed.

(** ** Node scaling *)

Section ScaleNodes.

Variable Re : R.

(** What [scale_nodes] leaves in the two entries of each buffer, whatever the
    buffers held before. *)
Lemma scale_nodes_entries (w e s n top bottom : R) (g : glq) (i : nat) :
  two_nodes g -> (i < 2)%nat ->
  let g' := (scale_nodes Re w e s n top bottom g).1 in
  let latc := d2r * (0.5 * (n - s) * (nodes !!! i) + 0.5 * (n + s)) in
  lonc g' !!! i = d2r * (0.5 * (e - w) * (nodes !!! i) + 0.5 * (e + w)) /\
  sinlatc g' !!! i = sin latc /\
  coslatc g' !!! i = cos latc /\
  rc g' !!! i
  = 0.5 * (top - bottom) * (nodes !!! i) + 0.5 * (top + bottom + 2 * Re).
Proof.
  intros (Hl & Hs & Hc & Hr) Hi.
  destruct g as [[|l0 [|l1 lt]] [|s0 [|s1 st]] [|c0 [|c1 ct]] [|r0 [|r1 rt]]];
    simpl in *; try lia.
  destruct i as [|[|i]]; try lia; cbn; auto.
Qed.

Lemma scale_nodes_scale (w e s n top bottom : R) (g : glq) :
  (scale_nodes Re w e s n top bottom g).2
  = d2r * (e - w) * d2r * (n - s) * (top - bottom) * 0.125.
Proof. reflexivity. Qed.


End ScaleNodes.



(** ** Mirror symmetry of [potential] *)

(** Two successive accumulations into the same entry. *)
Lemma insert_acc (l : nat) (x y : R) (r : list R) :
  <[l := <[l := r !!! l + x]> r !!! l + y]> (<[l := r !!! l + x]> r)
  = <[l := r !!! l + (x + y)]> r.
Proof.
  destruct (decide (l < length r)%nat) as [Hl|Hl].
  - rewrite list_lookup_total_insert_eq by assumption.
    rewrite list_insert_insert_eq. f_equal. lra.
  - rewrite !list_insert_ge by (rewrite ?length_insert; lia). reflexivity.
Qed.

Lemma foldl_ext_in {A B : Type} (f g : A -> B -> A) (l : list B) (a : A) :
  (forall x acc, x ∈ l -> f acc x = g acc x) -> foldl f a l = foldl g a l.
Proof.
  revert a. induction l as [|x l IH]; intros a H; simpl; [reflexivity|].
  rewrite H by left. apply IH. intros; apply H; right; assumption.
Qed.

(** Mirroring swaps the two node longitudes about the point's meridian. *)
Lemma cos_mirror (lon w e a b : R) :
  b = - a ->
  cos (d2r * lon - d2r * (0.5 * (2 * lon - w - (2 * lon - e)) * b
                          + 0.5 * (2 * lon - w + (2 * lon - e))))
  = cos (d2r * lon - d2r * (0.5 * (e - w) * a + 0.5 * (e + w))).
Proof. intros ->. rewrite <- cos_neg. f_equal. lra. Qed.

(** The symmetry holds about any meridian [lon] the points lie on: the two
    node longitudes trade places and the eight terms are summed in another
    order. *)
Lemma potential_mirror (Re : R) (t : cell) (lon density : R)
    (lons sinlats coslats radii : list R) (g : glq) (result : list R)
    (points : list nat) :
  two_nodes g ->
  Forall (fun l => lons !!! l = d2r * lon) points ->
  potential Re (mirror_lon lon t) density lons sinlats coslats radii g result
    points
  = potential Re t density lons sinlats coslats radii g result points.
Proof.
  intros Hg Hpts.
  destruct t as [w e s n top bottom].
  unfold potential, mirror_lon; cbn [c_w c_e c_s c_n c_top c_bottom].
  pose proof (scale_nodes_entries Re w e s n top bottom g 0 Hg ltac:(lia)) as A0.
  pose proof (scale_nodes_entries Re w e s n top bottom g 1 Hg ltac:(lia)) as A1.
  pose proof (scale_nodes_entries Re (2 * lon - e) (2 * lon - w) s n top bottom
                g 0 Hg ltac:(lia)) as B0.
  pose proof (scale_nodes_entries Re (2 * lon - e) (2 * lon - w) s n top bottom
                g 1 Hg ltac:(lia)) as B1.
  pose proof (scale_nodes_scale Re w e s n top bottom g) as SA.
  pose proof (scale_nodes_scale Re (2 * lon - e) (2 * lon - w) s n top bottom g)
    as SB.
  destruct (scale_nodes Re w e s n top bottom g) as [ga sa].
  destruct (scale_nodes Re (2 * lon - e) (2 * lon - w) s n top bottom g)
    as [gb sb].
  cbn in A0, A1, B0, B1, SA, SB.
  destruct A0 as (A0l & A0s & A0c & A0r), A1 as (A1l & A1s & A1c & A1r).
  destruct B0 as (B0l & B0s & B0c & B0r), B1 as (B1l & B1s & B1c & B1r).
  unfold for_range. apply foldl_ext_in. intros p acc Hp.
  assert (Hlon : lons !!! (points !!! p) = d2r * lon).
  { rewrite Forall_forall in Hpts. apply Hpts.
    apply elem_of_seq in Hp. apply list_elem_of_lookup_total_2. lia. }
  cbn [foldl seq]. rewrite !insert_acc. f_equal. f_equal.
  rewrite Hlon, B0l, B1l, B0s, B1s, B0c, B1c, B0r, B1r.
  rewrite A0l, A1l, A0s, A1s, A0c, A1c, A0r, A1r, SA, SB.
  rewrite (cos_mirror lon w e 0.577350269189625731058868041146
             (-0.577350269189625731058868041146)) by lra.
  rewrite (cos_mirror lon w e (-0.577350269189625731058868041146)
             0.577350269189625731058868041146) by lra.
  replace (2 * lon - w - (2 * lon - e)) with (e - w) by lra.
  ring.
Qed.

(** C8.  For observation points directly above the centre of the tesseroid
    (their longitude, in radians, is that of the mean [lon] of the west and
    east bounds), [potential] adds the same contributions for the tesseroid
    and for the tesseroid with its bounds (w, e) replaced by
    (2*lon - e, 2*lon - w), the latitude and radial bounds, the density and
    the points being kept. *)
Theorem potential_mirror_center (Re : R) (t : cell) (lon density : R)
    (lons sinlats coslats radii : list R) (g : glq) (result : list R)
    (points : list nat) :
  two_nodes g ->
  lon = 0.5 * (c_w t + c_e t) ->
  Forall (fun l => lons !!! l = d2r * lon) points ->
  potential Re (mirror_lon lon t) density lons sinlats coslats radii g result
    points
  = potential Re t density lons sinlats coslats radii g result points.
Proof. intros Hg _ Hpts. apply potential_mirror; assumption. Qed.

(** A point 100 km above the centre of the equatorial cell. *)
Lemma potential_mirror_center_witness :
  two_nodes empty_glq /\
  0 = 0.5 * (c_w equator_cell + c_e equator_cell) /\
  Forall (fun l => [0] !!! l = d2r * 0) [0%nat] /\
  potential earth_radius (mirror_lon 0 equator_cell) 1 [0] [0] [1]
    [earth_radius + 100000] empty_glq [0] [0%nat]
  = potential earth_radius equator_cell 1 [0] [0] [1]
      [earth_radius + 100000] empty_glq [0] [0%nat].
Proof.
  assert (Hg : two_nodes empty_glq) by (unfold two_nodes; simpl; lia).
  assert (Hm : 0 = 0.5 * (c_w equator_cell + c_e equator_cell))
    by (simpl; lra).
  assert (Hp : Forall (fun l => [0] !!! l = d2r * 0) [0%nat])
    by (constructor; [simpl; lra | constructor]).
  split; [exact Hg|]. split; [exact Hm|]. split; [exact Hp|].
  exact (potential_mirror_center earth_radius equator_cell 0 1 [0] [0] [1]
           [earth_radius + 100000] empty_glq [0] [0%nat] Hg Hm Hp).
Defined.

(** ** The partition made by [too_close] *)

(** Reading and writing the middle of an array. *)
Lemma lookup_total_middle {A} `{Inhabited A} (l1 l2 : list A) (x : A) :
  (l1 ++ x :: l2) !!! length l1 = x.
Proof. apply list_lookup_total_correct. apply list_lookup_middle. reflexivity. Qed.

Lemma exists_last_or_nil {A} (l : list A) :
  l = [] \/ exists l' x, l = l' ++ [x].
Proof.
  destruct l as [|a l] using rev_ind; [left; reflexivity|].
  right. eauto.
Qed.

Lemma insert_middle {A} (l1 l2 : list A) (x y : A) :
  <[length l1 := y]> (l1 ++ x :: l2) = l1 ++ y :: l2.
Proof.
  replace (length l1) with (length l1 + 0)%nat by lia.
  rewrite insert_app_r. reflexivity.
Qed.

Section TooCloseSpec.

Variables lon sinlat coslat radius : list R.
Variables rt rt_sqr sinlatt coslatt lont value : R.

(** The squared distance and the loop, with the loop's constants fixed. *)
Let d := too_close_distance lon sinlat coslat radius rt rt_sqr sinlatt coslatt lont.
Let loop := too_close_loop lon sinlat coslat radius rt rt_sqr sinlatt coslatt lont value.

(** The loop on the array [pre ++ mid ++ suf] with [i] at the start of [mid]
    and [j] at its end: it raises when a point of [mid] is closer than the
    epsilon, and otherwise rearranges [mid] into the far points followed by
    the close ones and returns the index where the close ones start. *)
Lemma too_close_loop_spec (n : nat) :
  forall (mid pre suf : list nat), length mid = n ->
  match loop n (pre ++ mid ++ suf) (Z.of_nat (length pre))
             (Z.of_nat (length pre) + Z.of_nat (length mid) - 1) with
  | inl e =>
    e = ValueError "Can't calculate directly on the tesseroid" /\
    Exists (fun p => d p < 1e-20) mid
  | inr (b, points') =>
    exists far close,
      points' = pre ++ far ++ close ++ suf /\
      Permutation (far ++ close) mid /\
      b = (Z.of_nat (length pre) + Z.of_nat (length far))%Z /\
      Forall (fun p => value < d p) far /\
      Forall (fun p => ~ value < d p) close /\
      Forall (fun p => ~ d p < 1e-20) mid
  end.
Proof.
  induction n as [|n IH]; intros mid pre suf Hn.
  - destruct mid; [|discriminate]. unfold loop; cbn [too_close_loop length].
    destruct (decide (_ <= _)%Z) as [Hle|_]; [lia|].
    exists [], []. simpl. repeat split; auto. lia.
  - destruct mid as [|p mid]; [discriminate|]. injection Hn as Hn.
    unfold loop. cbn [too_close_loop].
    destruct (decide (_ <= _)%Z) as [_|Hgt]; [|simpl in Hgt; lia].
    rewrite Nat2Z.id. cbn [app]. rewrite lookup_total_middle.
    fold d. destruct (Rlt_dec (d p) 1e-20) as [Heps|Heps].
    { split; [reflexivity|]. left. assumption. }
    destruct (Rlt_dec value (d p)) as [Hfar|Hclose].
    + specialize (IH mid (pre ++ [p]) suf Hn).
      rewrite <- !app_assoc in IH. cbn [app] in IH.
      rewrite length_app in IH. cbn [length] in IH.
      replace (Z.of_nat (length pre + 1)) with (Z.of_nat (length pre) + 1)%Z
        in IH by lia.
      replace (Z.of_nat (length pre) + Z.of_nat (length (p :: mid)) - 1)%Z
        with (Z.of_nat (length pre) + 1 + Z.of_nat (length mid) - 1)%Z
        by (cbn [length]; lia).
      fold loop. destruct (loop n _ _ _) as [e|[b pts]].
      * destruct IH as [Hex IH]. split; [assumption|]. right. assumption.
      * destruct IH as (far & close & -> & Hperm & -> & Hf & Hc & He).
        exists (p :: far), close. repeat split; auto.
        -- rewrite <- app_assoc. reflexivity.
        -- simpl. constructor. assumption.
        -- simpl. lia.
    + destruct (exists_last_or_nil mid) as [->|(m & q & ->)].
      * (* i = j: the point is swapped with itself *)
        cbn [app length]. 
        replace (Z.to_nat (Z.of_nat (length pre) + Z.of_nat 1 - 1)) with (length pre)
          by lia.
        rewrite lookup_total_middle, !insert_middle.
        specialize (IH [] pre (p :: suf) Hn). cbn [app length] in IH.
        replace (Z.of_nat (length pre) + Z.of_nat 1 - 1 - 1)%Z
          with (Z.of_nat (length pre) + Z.of_nat 0 - 1)%Z by lia.
        fold loop. destruct (loop n _ _ _) as [e|[b pts]].
        { destruct IH as [_ IH]. inversion IH. }
        destruct IH as (far & close & -> & Hperm & -> & Hf & Hc & He).
        apply Permutation_nil_r in Hperm. apply app_eq_nil in Hperm as [-> ->].
        exists [], [p]. repeat split; auto.
      * (* i < j: the point trades places with the last unclassified one *)
        rewrite length_app in Hn. cbn [length] in Hn.
        assert (Hj : Z.to_nat (Z.of_nat (length pre)
                       + Z.of_nat (length (p :: m ++ [q])) - 1)
                     = length (pre ++ p :: m)).
        { cbn [length]. rewrite !length_app. cbn [length]. lia. }
        rewrite Hj.
        replace (pre ++ p :: (m ++ [q]) ++ suf) with ((pre ++ p :: m) ++ q :: suf)
          by (rewrite <- !app_assoc; reflexivity).
        rewrite lookup_total_middle.
        replace ((pre ++ p :: m) ++ q :: suf) with (pre ++ p :: m ++ q :: suf)
          by (rewrite <- !app_assoc; reflexivity).
        rewrite insert_middle.
        replace (pre ++ q :: m ++ q :: suf) with ((pre ++ q :: m) ++ q :: suf)
          by (rewrite <- !app_assoc; reflexivity).
        replace (length (pre ++ p :: m)) with (length (pre ++ q :: m))
          by (rewrite !length_app; reflexivity).
        rewrite insert_middle.
        specialize (IH (q :: m) pre (p :: suf)).
        cbn [length] in IH. specialize (IH ltac:(lia)).
        replace ((pre ++ q :: m) ++ p :: suf) with (pre ++ (q :: m) ++ p :: suf)
          by (rewrite <- !app_assoc; reflexivity).
        replace (Z.of_nat (length pre) + Z.of_nat (length (p :: m ++ [q])) - 1 - 1)%Z
          with (Z.of_nat (length pre) + Z.of_nat (S (length m)) - 1)%Z
          by (cbn [length]; rewrite length_app; cbn [length]; lia).
        fold loop. destruct (loop n _ _ _) as [e|[b pts]].
        { destruct IH as [Hex IH]. split; [assumption|].
          right. apply Exists_app. apply Exists_cons in IH as [Hq|Hm];
            [right; left; assumption | left; assumption]. }
        destruct IH as (far & close & -> & Hperm & -> & Hf & Hc & He).
        exists far, (close ++ [p]). repeat split; auto.
        -- rewrite <- !app_assoc. reflexivity.
        -- rewrite app_assoc, Hperm, Permutation_app_comm. cbn [app].
           constructor. apply Permutation_cons_append.
        -- apply Forall_app. split; [assumption|]. constructor; auto.
        -- constructor; [assumption|]. apply Forall_app.
           apply Forall_cons in He as [Hq Hm]. split; [assumption|].
           constructor; auto.
Qed.
End TooCloseSpec.

(** The call, read off the loop started on the whole array. *)
Lemma too_close_spec (Re : R) (t : cell) (lon sinlat coslat radius : list R)
    (ratio : R) (points : list nat) :
  let d := too_close_dist2 Re t lon sinlat coslat radius in
  let value := too_close_value Re t ratio in
  match too_close Re t lon sinlat coslat radius ratio points with
  | inl e =>
    e = ValueError "Can't calculate directly on the tesseroid" /\
    Exists (fun p => d p < 1e-20) points
  | inr (i, points') =>
    Permutation points' points /\
    (0 <= i <= Z.of_nat (length points))%Z /\
    Forall (fun p => value < d p) (take (Z.to_nat i) points') /\
    Forall (fun p => ~ value < d p) (drop (Z.to_nat i) points') /\
    Forall (fun p => ~ d p < 1e-20) points
  end.
Proof.
  intros d value. destruct t as [w e s n top bottom].
  unfold too_close.
  pose proof (too_close_loop_spec lon sinlat coslat radius (top + Re)
    ((top + Re) ^ 2) (sin (d2r * 0.5 * (s + n))) (cos (d2r * 0.5 * (s + n)))
    (d2r * 0.5 * (w + e)) value (length points) points [] [] eq_refl) as H.
  cbn [app length] in H. rewrite app_nil_r in H.
  change (Z.of_nat 0) with 0%Z in H. rewrite Z.add_0_l in H.
  fold (too_close_value Re (Cell w e s n top bottom) ratio). fold value.
  destruct (too_close_loop _ _ _ _ _ _ _ _ _ _ _ _ _ _) as [ex|[i pts]].
  - exact H.
  - destruct H as (far & close & -> & Hperm & -> & Hf & Hc & He).
    rewrite app_nil_r. rewrite Z.add_0_l, Nat2Z.id.
    rewrite take_app_length, drop_app_length.
    repeat split; auto; try lia.
    apply Permutation_length in Hperm. rewrite length_app in Hperm. lia.
Qed.

Lemma small_cell_dist2 :
  too_close_dist2 earth_radius small_cell [0] [0] [1] [earth_radius + 1000] 0
  = 1000000.
Proof.
  unfold too_close_dist2, too_close_distance, small_cell; cbn -[pow].
  replace (d2r * 0.5 * (-0.001 + 0.001)) with 0 by lra.
  rewrite Rminus_0_r, cos_0, sin_0. unfold earth_radius. lra.
Qed.

Lemma small_cell_value : too_close_value earth_radius small_cell 1 = 1000000.
Proof.
  unfold too_close_value, small_cell; cbn -[pow].
  assert (H : earth_radius * d2r * (0.001 - -0.001) <= 0 - -1000).
  { unfold earth_radius, d2r. pose proof PI_4. pose proof PI_RGT_0. lra. }
  rewrite (Rmax_left _ _ (Rle_refl _)), (Rmax_right _ _ H). lra.
Qed.

(** C2, at the boundary.  A point whose squared distance equals the squared
    threshold is put in the suffix of points to divide: on the cell
    [small_cell] (size 1000 m) with ratio 1 and the single point 1000 m above
    the top centre, [too_close] returns the boundary index 0, and the point of
    the suffix has a squared distance that is not below the threshold. *)
Theorem too_close_boundary_point :
  too_close earth_radius small_cell [0] [0] [1] [earth_radius + 1000] 1 [0%nat]
  = inr (0%Z, [0%nat]) /\
  too_close_dist2 earth_radius small_cell [0] [0] [1] [earth_radius + 1000] 0
  = too_close_value earth_radius small_cell 1 /\
  1e-20 <= too_close_dist2 earth_radius small_cell [0] [0] [1]
             [earth_radius + 1000] 0.
Proof.
  pose proof small_cell_dist2 as Hd. pose proof small_cell_value as Hv.
  split; [|split; [congruence | rewrite Hd; lra]].
  pose proof (too_close_spec earth_radius small_cell [0] [0] [1]
                [earth_radius + 1000] 1 [0%nat]) as H.
  cbv zeta in H.
  destruct (too_close _ _ _ _ _ _ _ _) as [e|[i pts]].
  - destruct H as [_ Hex]. apply Exists_cons in Hex as [Hlt|Hnil].
    + rewrite Hd in Hlt. lra.
    + inversion Hnil.
  - destruct H as (Hperm & Hi & Hfar & Hclose & _).
    apply Permutation_sym, Permutation_length_1_inv in Hperm as ->.
    cbn [length] in Hi.
    assert (i = 0 \/ i = 1)%Z as [->| ->] by lia; [reflexivity|].
    exfalso. change (take (Z.to_nat 1) [0%nat]) with [0%nat] in Hfar.
    apply Forall_cons in Hfar as [Hlt _].
    rewrite Hd, Hv in Hlt. lra.
Qed.

(** ** The work list *)

Lemma bind_done {A : Type} (m : outcome A) : (x <- m ;; Done x) = m.
Proof. destruct m; reflexivity. Qed.

Lemma bind_assoc {A B C : Type} (m : outcome A) (f : A -> outcome B)
    (g : B -> outcome C) :
  (y <- (x <- m ;; f x) ;; g y) = (x <- m ;; y <- f x ;; g y).
Proof. destruct m; reflexivity. Qed.

Lemma bind_ext {A B : Type} (m : outcome A) (f g : A -> outcome B) :
  (forall a, f a = g a) -> (x <- m ;; f x) = (x <- m ;; g x).
Proof. intros H. destruct m; simpl; auto. Qed.

Lemma push_all_app (a b : list cell) (st : engine) :
  push_all (a ++ b) st = (st' <- push_all a st ;; push_all b st').
Proof.
  revert st. induction a as [|c a IH]; intros st; simpl; [reflexivity|].
  rewrite bind_assoc. apply bind_ext. intros st'. apply IH.
Qed.

Lemma for_each_push_all (l : list nat) (f : nat -> list cell)
    (body : nat -> engine -> outcome engine) (st : engine) :
  (forall i st, body i st = push_all (f i) st) ->
  for_each l body st = push_all (l ≫= f) st.
Proof.
  intros Hbody. revert st. induction l as [|i l IH]; intros st; simpl;
    [reflexivity|].
  rewrite push_all_app, Hbody. apply bind_ext. intros st'. apply IH.
Qed.

(** The three nested loops push the rows in the order of the list. *)
Lemma nested_loops_push (a b c : Z) (F : nat -> nat -> nat -> cell)
    (st : engine) :
  for_xrange a (fun i => for_xrange b (fun j => for_xrange c (fun k =>
    push (F i j k)))) st
  = push_all (i ← seq 0 (Z.to_nat a); j ← seq 0 (Z.to_nat b);
              k ← seq 0 (Z.to_nat c); [F i j k]) st.
Proof.
  unfold for_xrange. apply for_each_push_all. intros i st1.
  apply for_each_push_all. intros j st2.
  apply for_each_push_all. intros k st3.
  simpl. symmetry. apply bind_done.
Qed.

Lemma write_rows_length (q : list cell) (base : nat) (rows : list cell) :
  (base + length rows <= length q)%nat ->
  length (write_rows q base rows) = length q.
Proof.
  intros H. unfold write_rows.
  rewrite !length_app, length_take, length_drop. lia.
Qed.

Lemma write_rows_cons (q : list cell) (base : nat) (c : cell)
    (rows : list cell) :
  (base < length q)%nat ->
  write_rows (<[base := c]> q) (S base) rows = write_rows q base (c :: rows).
Proof.
  intros H. unfold write_rows.
  rewrite (take_S_r _ _ c) by (apply list_lookup_insert_eq; assumption).
  rewrite take_insert_ge by lia.
  rewrite drop_insert_lt by lia.
  rewrite <- app_assoc. cbn [app length].
  replace (S base + length rows)%nat with (base + S (length rows))%nat by lia.
  reflexivity.
Qed.

Lemma write_rows_nil (q : list cell) (base : nat) : write_rows q base [] = q.
Proof.
  unfold write_rows. cbn [app length]. rewrite Nat.add_0_r. apply take_drop.
Qed.

(** Rows that fit are written one after the other. *)
Lemma push_all_fits (cs : list cell) (q : list cell) (qs : Z) (r : R) :
  (0 <= qs)%Z -> (qs + Z.of_nat (length cs) <= Z.of_nat (length q))%Z ->
  push_all cs (Engine q qs r)
  = Done (Engine (write_rows q (Z.to_nat qs) cs)
                 (qs + Z.of_nat (length cs)) r).
Proof.
  revert q qs. induction cs as [|c cs IH]; intros q qs H0 Hfit.
  - simpl. rewrite write_rows_nil, Z.add_0_r. reflexivity.
  - cbn [length] in Hfit. cbn [push_all]. unfold push at 1.
    cbn [queue_size queue res].
    destruct (decide _) as [_|Hn]; [|lia].
    cbn [bind]. rewrite IH by (rewrite ?length_insert; lia).
    replace (Z.to_nat (qs + 1)) with (S (Z.to_nat qs)) by lia.
    rewrite write_rows_cons by lia.
    cbn [length]. do 2 f_equal. lia.
Qed.

(** Rows that do not fit: the first write past the last row of the buffer
    stops the run. *)
Lemma push_all_past_end (cs : list cell) (q : list cell) (qs : Z) (r : R) :
  (0 <= qs <= Z.of_nat (length q))%Z ->
  (Z.of_nat (length q) < qs + Z.of_nat (length cs))%Z ->
  push_all cs (Engine q qs r) = OutOfBounds (Z.of_nat (length q)).
Proof.
  revert q qs. induction cs as [|c cs IH]; intros q qs H0 Hfit.
  - simpl in Hfit. lia.
  - cbn [length] in Hfit. cbn [push_all]. unfold push at 1.
    cbn [queue_size queue res].
    destruct (decide _) as [Hin|Hn].
    + cbn [bind]. rewrite IH by (rewrite ?length_insert; lia).
      rewrite length_insert. reflexivity.
    + cbn [bind]. f_equal. lia.
Qed.

(** ** One round of the loop *)

Section Step.

Variable Re : R.
Variable kernel : kernel_func.
Variables ratio lon sinlat coslat radius : R.

Let flags := split_flags Re ratio lon sinlat coslat radius.
Let step := refine_step Re kernel ratio lon sinlat coslat radius.

(** The round in terms of the flags of the popped row: evaluate, raise, or
    push the children. *)
Lemma refine_step_unfold (st : engine) :
  let qs := (queue_size st - 1)%Z in
  let c := queue st !!! Z.to_nat qs in
  let '(flon, flat, fr) := flags c in
  step st =
    if decide (no_split (flags c)) then
      let out := scale_nodes Re (c_w c) (c_e c) (c_s c) (c_n c) (c_top c)
                   (c_bottom c) empty_glq in
      Done (Engine (queue st) qs
              (res st + kernel lon sinlat coslat radius out.2 out.1))
    else if (queue_max <? qs + parts flon + parts flat + parts fr)%Z then
      Raised (ValueError "Tesseroid queue overflow")
    else push_all (children c (flags c)) (Engine (queue st) qs (res st)).
Proof.
  intros qs c. unfold step, refine_step, flags, split_flags. fold qs. fold c.
  destruct c as [w e s n top bottom]. cbn [c_w c_e c_s c_n c_top c_bottom].
  destruct (distance_n_size Re w e s n top bottom lon sinlat coslat radius)
    as [[[distance dlon] dlat] dr].
  unfold bool_decide, decide, Rlt_decision, no_split.
  destruct (Rlt_dec distance (ratio * dlon));
    destruct (Rlt_dec distance (ratio * dlat));
    destruct (Rlt_dec distance (ratio * dr));
    cbn [Z.eqb Pos.eqb andb parts];
    (destruct (decide_rel _ _ _) as [Heq|Hne]; [try discriminate Heq|]);
    try reflexivity;
    try (destruct (queue_max <? _)%Z; [reflexivity|];
         rewrite nested_loops_push; reflexivity);
    exfalso; apply Hne; reflexivity.
Qed.

End Step.

(** ** The children of a cell *)

Lemma children_length (c : cell) (fl : bool * bool * bool) :
  length (children c fl) = (2 ^ flagged fl)%nat.
Proof. destruct fl as [[[] []] []]; reflexivity. Qed.

(** A child is the box of one index triple. *)
Lemma elem_of_children (c : cell) (fl : bool * bool * bool) (ch : cell) :
  ch ∈ children c fl <->
  exists i j k : nat,
    (i < Z.to_nat (parts fl.1.1))%nat /\ (j < Z.to_nat (parts fl.1.2))%nat /\
    (k < Z.to_nat (parts fl.2))%nat /\
    let dlon := (c_e c - c_w c) / IZR (parts fl.1.1) in
    let dlat := (c_n c - c_s c) / IZR (parts fl.1.2) in
    let dr := (c_top c - c_bottom c) / IZR (parts fl.2) in
    ch = Cell (c_w c + INR i * dlon) (c_w c + (INR i + 1) * dlon)
              (c_s c + INR j * dlat) (c_s c + (INR j + 1) * dlat)
              (c_bottom c + (INR k + 1) * dr) (c_bottom c + INR k * dr).
Proof.
  destruct fl as [[flon flat] fr]. unfold children. cbn [fst snd]. split.
  - intros H.
    apply list_elem_of_bind in H as (i & H & Hi).
    apply list_elem_of_bind in H as (j & H & Hj).
    apply list_elem_of_bind in H as (k & H & Hk).
    apply list_elem_of_singleton in H.
    apply elem_of_seq in Hi, Hj, Hk.
    exists i, j, k. repeat split; try lia. exact H.
  - intros (i & j & k & Hi & Hj & Hk & ->).
    apply list_elem_of_bind. exists i. split; [|apply elem_of_seq; lia].
    apply list_elem_of_bind. exists j. split; [|apply elem_of_seq; lia].
    apply list_elem_of_bind. exists k. split; [|apply elem_of_seq; lia].
    apply list_elem_of_singleton. reflexivity.
Qed.

(** Along one axis: the index of a part is 0, or 1 on a flagged axis. *)
Lemma part_index (flag : bool) (i : nat) :
  (i < Z.to_nat (parts flag))%nat ->
  (INR i = 0 /\ IZR (parts flag) = if flag then 2 else 1) \/
  (INR i = 1 /\ flag = true /\ IZR (parts flag) = 2).
Proof.
  destruct flag; cbn [parts]; intros H.
  - assert (i = 0 \/ i = 1)%nat as [-> | ->] by lia; simpl; auto.
  - assert (i = 0)%nat as -> by lia. simpl; auto.
Qed.

(** The parts of an interval cover it. *)
Lemma part_cover (flag : bool) (lo hi x : R) :
  lo <= x <= hi ->
  exists i : nat, (i < Z.to_nat (parts flag))%nat /\
    lo + INR i * ((hi - lo) / IZR (parts flag)) <= x
    <= lo + (INR i + 1) * ((hi - lo) / IZR (parts flag)).
Proof.
  intros Hx. destruct flag; cbn [parts].
  - destruct (Rle_dec x (lo + (hi - lo) / 2)).
    + exists 0%nat. split; [lia|]. simpl. lra.
    + exists 1%nat. split; [lia|]. simpl. lra.
  - exists 0%nat. split; [lia|]. simpl. lra.
Qed.

Ltac part_cases Hi :=
  apply part_index in Hi as [(-> & ->) | (-> & ? & ->)].


(** An axis that is not flagged keeps its bounds; a flagged one is cut at its
    middle, each child taking one half. *)
Lemma children_axes (c : cell) (fl : bool * bool * bool) :
  Forall (fun ch =>
    (if fl.1.1
     then (c_w ch = c_w c /\ c_e ch = (c_w c + c_e c) / 2) \/
          (c_w ch = (c_w c + c_e c) / 2 /\ c_e ch = c_e c)
     else c_w ch = c_w c /\ c_e ch = c_e c) /\
    (if fl.1.2
     then (c_s ch = c_s c /\ c_n ch = (c_s c + c_n c) / 2) \/
          (c_s ch = (c_s c + c_n c) / 2 /\ c_n ch = c_n c)
     else c_s ch = c_s c /\ c_n ch = c_n c) /\
    (if fl.2
     then (c_bottom ch = c_bottom c /\ c_top ch = (c_bottom c + c_top c) / 2) \/
          (c_bottom ch = (c_bottom c + c_top c) / 2 /\ c_top ch = c_top c)
     else c_bottom ch = c_bottom c /\ c_top ch = c_top c))
    (children c fl).
Proof.
  apply Forall_forall. intros ch Hch.
  apply elem_of_children in Hch as (i & j & k & Hi & Hj & Hk & ->).
  cbn [c_w c_e c_s c_n c_top c_bottom].
  split; [|split].
  - part_cases Hi; destruct fl.1.1; try discriminate; lra.
  - part_cases Hj; destruct fl.1.2; try discriminate; lra.
  - part_cases Hk; destruct fl.2; try discriminate; lra.
Qed.

(** The children cover the parent and nothing else. *)
Lemma children_cover (c : cell) (fl : bool * bool * bool) (x y z : R) :
  inside x y z c <-> Exists (inside x y z) (children c fl).
Proof.
  rewrite Exists_exists. split.
  - intros (Hx & Hy & Hz).
    destruct (part_cover fl.1.1 _ _ _ Hx) as (i & Hi & Hxi).
    destruct (part_cover fl.1.2 _ _ _ Hy) as (j & Hj & Hyj).
    destruct (part_cover fl.2 _ _ _ Hz) as (k & Hk & Hzk).
    eexists. split.
    + apply elem_of_children. exists i, j, k. repeat split; try eassumption.
    + unfold inside; cbn [c_w c_e c_s c_n c_top c_bottom]. lra.
  - intros (ch & Hch & Hin).
    apply elem_of_children in Hch as (i & j & k & Hi & Hj & Hk & ->).
    unfold inside in *; cbn [c_w c_e c_s c_n c_top c_bottom] in Hin.
    destruct Hin as (Hx & Hy & Hz). split; [|split].
    + clear Hy Hz. revert Hx.
      part_cases Hi; destruct fl.1.1; try discriminate; lra.
    + clear Hx Hz. revert Hy.
      part_cases Hj; destruct fl.1.2; try discriminate; lra.
    + clear Hx Hy. revert Hz.
      part_cases Hk; destruct fl.2; try discriminate; lra.
Qed.

(** Two parts of an interval with a common interior point are the same
    part. *)
Lemma part_overlap (flag : bool) (lo hi x : R) (i i' : nat) :
  (i < Z.to_nat (parts flag))%nat -> (i' < Z.to_nat (parts flag))%nat ->
  lo + INR i * ((hi - lo) / IZR (parts flag)) < x
  < lo + (INR i + 1) * ((hi - lo) / IZR (parts flag)) ->
  lo + INR i' * ((hi - lo) / IZR (parts flag)) < x
  < lo + (INR i' + 1) * ((hi - lo) / IZR (parts flag)) ->
  INR i = INR i'.
Proof.
  intros Hi Hi'.
  apply part_index in Hi as [(-> & _) | (-> & _ & _)];
    apply part_index in Hi' as [(-> & _) | (-> & _ & _)];
    destruct flag; cbn [parts]; lra.
Qed.

(** Children that share an interior point are one and the same child. *)
Lemma children_disjoint (c : cell) (fl : bool * bool * bool) (a b : cell)
    (x y z : R) :
  a ∈ children c fl -> b ∈ children c fl ->
  strictly_inside x y z a -> strictly_inside x y z b -> a = b.
Proof.
  intros Ha Hb.
  apply elem_of_children in Ha as (i & j & k & Hi & Hj & Hk & ->).
  apply elem_of_children in Hb as (i' & j' & k' & Hi' & Hj' & Hk' & ->).
  unfold strictly_inside; cbn [c_w c_e c_s c_n c_top c_bottom].
  intros (Hx & Hy & Hz) (Hx' & Hy' & Hz').
  rewrite (part_overlap _ _ _ _ _ _ Hi Hi' Hx Hx').
  rewrite (part_overlap _ _ _ _ _ _ Hj Hj' Hy Hy').
  assert (Hz1 : c_bottom c + INR k * ((c_top c - c_bottom c) / IZR (parts fl.2))
                < z < c_bottom c + (INR k + 1)
                        * ((c_top c - c_bottom c) / IZR (parts fl.2))) by lra.
  assert (Hz2 : c_bottom c + INR k' * ((c_top c - c_bottom c) / IZR (parts fl.2))
                < z < c_bottom c + (INR k' + 1)
                        * ((c_top c - c_bottom c) / IZR (parts fl.2))) by lra.
  rewrite (part_overlap _ _ _ _ _ _ Hk Hk' Hz1 Hz2).
  reflexivity.
Qed.


(** ** The transitions of a round *)

Lemma live_write_rows (q : list cell) (qs : Z) (rows : list cell) (r : R) :
  (0 <= qs)%Z -> (qs + Z.of_nat (length rows) <= Z.of_nat (length q))%Z ->
  live (Engine (write_rows q (Z.to_nat qs) rows)
               (qs + Z.of_nat (length rows)) r)
  = take (Z.to_nat qs) q ++ rows.
Proof.
  intros H0 Hfit. unfold live, write_rows. cbn [queue queue_size].
  rewrite app_assoc. apply take_app_length'.
  rewrite length_app, length_take. lia.
Qed.

Section Transitions.

Variable Re : R.
Variable kernel : kernel_func.
Variables ratio lon sinlat coslat radius : R.

Let flags := split_flags Re ratio lon sinlat coslat radius.
Let step := refine_step Re kernel ratio lon sinlat coslat radius.
Let guard := guard_passes Re ratio lon sinlat coslat radius.

(** No axis flagged: the popped row is evaluated and dropped. *)
Lemma refine_step_evaluate (st : engine) :
  no_split (flags (top_row st)) ->
  let c := top_row st in
  let out := scale_nodes Re (c_w c) (c_e c) (c_s c) (c_n c) (c_top c)
               (c_bottom c) empty_glq in
  step st = Done (Engine (queue st) (queue_size st - 1)
                    (res st + kernel lon sinlat coslat radius out.2 out.1)).
Proof.
  intros Hno. pose proof (refine_step_unfold Re kernel ratio lon sinlat coslat
                            radius st) as H.
  cbv zeta in H. fold flags step (top_row st) in H.
  destruct (flags (top_row st)) as [[flon flat] fr].
  rewrite H. destruct (decide _) as [_|Hn]; [reflexivity|contradiction].
Qed.

(** Some axis flagged and the guard passes: the round pushes the children. *)
Lemma refine_step_branch (st : engine) :
  ~ no_split (flags (top_row st)) -> guard st ->
  step st = push_all (children (top_row st) (flags (top_row st)))
              (Engine (queue st) (queue_size st - 1) (res st)).
Proof.
  intros Hsplit Hguard. pose proof (refine_step_unfold Re kernel ratio lon
                                      sinlat coslat radius st) as H.
  cbv zeta in H. fold flags step (top_row st) in H.
  unfold guard, guard_passes in Hguard. fold flags in Hguard.
  destruct (flags (top_row st)) as [[flon flat] fr]. cbn [fst snd] in Hguard.
  rewrite H. destruct (decide (no_split _)) as [Hn|_]; [contradiction|].
  destruct (Z.ltb_spec queue_max
              (queue_size st - 1 + parts flon + parts flat + parts fr));
    [lia|reflexivity].
Qed.

(** Some axis flagged and the guard fails: the round raises. *)
Lemma refine_step_raise (st : engine) :
  ~ no_split (flags (top_row st)) -> ~ guard st ->
  step st = Raised (ValueError "Tesseroid queue overflow").
Proof.
  intros Hsplit Hguard. pose proof (refine_step_unfold Re kernel ratio lon
                                      sinlat coslat radius st) as H.
  cbv zeta in H. fold flags step (top_row st) in H.
  unfold guard, guard_passes in Hguard. fold flags in Hguard.
  destruct (flags (top_row st)) as [[flon flat] fr]. cbn [fst snd] in Hguard.
  rewrite H. destruct (decide (no_split _)) as [Hn|_]; [contradiction|].
  destruct (Z.ltb_spec queue_max
              (queue_size st - 1 + parts flon + parts flat + parts fr));
    [reflexivity|lia].
Qed.

(** Some axis flagged, the guard passes and the children fit: they replace
    the popped row. *)
Lemma refine_step_split (st : engine) :
  ~ no_split (flags (top_row st)) -> guard st ->
  (1 <= queue_size st)%Z ->
  (queue_size st - 1 + Z.of_nat (length (children (top_row st)
                                           (flags (top_row st))))
   <= Z.of_nat (length (queue st)))%Z ->
  let rows := children (top_row st) (flags (top_row st)) in
  step st = Done (Engine (write_rows (queue st) (Z.to_nat (queue_size st - 1))
                            rows)
                    (queue_size st - 1 + Z.of_nat (length rows)) (res st)).
Proof.
  intros Hsplit Hguard Hqs Hfit rows.
  rewrite refine_step_branch by assumption.
  apply push_all_fits; [lia|assumption].
Qed.

(** Some axis flagged, the guard passes and the children do not fit: the
    round writes past the last row. *)
Lemma refine_step_past_end (st : engine) :
  ~ no_split (flags (top_row st)) -> guard st ->
  (1 <= queue_size st <= Z.of_nat (length (queue st)))%Z ->
  (Z.of_nat (length (queue st))
   < queue_size st - 1 + Z.of_nat (length (children (top_row st)
                                             (flags (top_row st)))))%Z ->
  step st = OutOfBounds (Z.of_nat (length (queue st))).
Proof.
  intros Hsplit Hguard Hqs Hfit.
  rewrite refine_step_branch by assumption.
  apply push_all_past_end; [lia|assumption].
Qed.

End Transitions.


(** ** Distance and extents seen from the centre of the Earth *)

Lemma atan2_le_PI (y x : R) : atan2 y x <= PI.
Proof.
  pose proof PI_RGT_0 as HPI. unfold atan2.
  destruct (Rlt_dec 0 x) as [Hx|Hx].
  { pose proof (atan_bound (y / x)). lra. }
  destruct (Rlt_dec x 0) as [Hx'|Hx'].
  { destruct (Rle_dec 0 y) as [Hy|Hy].
    - assert (Hq : y / x <= 0).
      { unfold Rdiv. pose proof (Rinv_lt_0_compat x Hx'). nra. }
      destruct Hq as [Hq|Hq].
      + apply atan_increasing in Hq. rewrite atan_0 in Hq. lra.
      + rewrite Hq, atan_0. lra.
    - pose proof (atan_bound (y / x)). lra. }
  destruct (Rlt_dec 0 y); [lra|]. destruct (Rlt_dec y 0); lra.
Qed.

Lemma atan2_pos (y x : R) : 0 < y -> 0 < atan2 y x.
Proof.
  intros Hy. pose proof PI_RGT_0 as HPI. unfold atan2.
  destruct (Rlt_dec 0 x) as [Hx|Hx].
  { rewrite <- atan_0. apply atan_increasing.
    apply Rdiv_lt_0_compat; assumption. }
  destruct (Rlt_dec x 0) as [Hx'|Hx'].
  { destruct (Rle_dec 0 y); [|lra].
    pose proof (atan_bound (y / x)). lra. }
  destruct (Rlt_dec 0 y); lra.
Qed.

Section Centre.

Variable Re : R.
Hypothesis Re_pos : 0 < Re.

Variables lon sinlat coslat : R.

(** Seen from the centre, the distance to a cell is the absolute value of
    the radius of its top. *)
Lemma distance_from_centre (w e s n top bottom : R) :
  (distance_n_size Re w e s n top bottom lon sinlat coslat 0).1.1.1
  = Rabs (top + Re).
Proof.
  unfold distance_n_size. cbn [fst].
  rewrite <- sqrt_Rsqr_abs. f_equal. unfold Rsqr. ring.
Qed.

(** The distance from any point to a cell whose top is at the centre is the
    radius of the point. *)
Lemma distance_to_centre (w e s n bottom radius : R) :
  (distance_n_size Re w e s n (- Re) bottom lon sinlat coslat radius).1.1.1
  = Rabs radius.
Proof.
  unfold distance_n_size. cbn [fst].
  rewrite <- sqrt_Rsqr_abs. f_equal. unfold Rsqr. ring.
Qed.

Lemma dlon_le (w e s n top bottom radius : R) :
  (distance_n_size Re w e s n top bottom lon sinlat coslat radius).1.1.2
  <= Re * PI.
Proof.
  unfold distance_n_size. cbn [fst snd].
  apply Rmult_le_compat_l; [lra|]. apply atan2_le_PI.
Qed.

Lemma dlat_le (w e s n top bottom radius : R) :
  (distance_n_size Re w e s n top bottom lon sinlat coslat radius).1.2
  <= Re * PI.
Proof.
  unfold distance_n_size. cbn [fst snd].
  apply Rmult_le_compat_l; [lra|]. apply atan2_le_PI.
Qed.

Lemma dr_eq (w e s n top bottom radius : R) :
  (distance_n_size Re w e s n top bottom lon sinlat coslat radius).2
  = top - bottom.
Proof. reflexivity. Qed.

Lemma small_angle (x : R) : 0 <= x <= 1 -> 0 <= d2r * x < PI / 2.
Proof.
  intros Hx. pose proof PI_RGT_0. unfold d2r. split; [nra|]. nra.
Qed.

(** Over the square [0, 1] x [0, 1] both lateral extents are positive. *)
Lemma dlon_pos (w e s n top bottom radius : R) :
  0 <= w -> w < e -> e <= 1 -> 0 <= s -> s < n -> n <= 1 ->
  0 < (distance_n_size Re w e s n top bottom lon sinlat coslat radius).1.1.2.
Proof.
  intros Hw Hwe He Hs Hsn Hn. unfold distance_n_size. cbn [fst snd].
  apply Rmult_lt_0_compat; [assumption|]. apply atan2_pos.
  apply sqrt_lt_R0.
  assert (Hc : 0 < cos (d2r * 0.5 * (s + n))).
  { apply cos_gt_0.
    - pose proof (small_angle (0.5 * (s + n)) ltac:(lra)). pose proof PI_RGT_0.
      rewrite Rmult_assoc. lra.
    - pose proof (small_angle (0.5 * (s + n)) ltac:(lra)).
      rewrite Rmult_assoc. lra. }
  assert (Hsin : 0 < sin (d2r * (e - w))).
  { apply sin_gt_0.
    - pose proof d2r_pos. nra.
    - pose proof (small_angle (e - w) ltac:(lra)). pose proof PI_RGT_0. lra. }
  assert (0 < cos (d2r * 0.5 * (s + n)) * sin (d2r * (e - w)))
    by (apply Rmult_lt_0_compat; assumption).
  apply Rplus_lt_le_0_compat; [apply pow_lt; assumption | apply pow2_ge_0].
Qed.

Lemma dlat_pos (w e s n top bottom radius : R) :
  0 <= s -> s < n -> n <= 1 ->
  0 < (distance_n_size Re w e s n top bottom lon sinlat coslat radius).1.2.
Proof.
  intros Hs Hsn Hn. unfold distance_n_size. cbn [fst snd].
  apply Rmult_lt_0_compat; [assumption|]. apply atan2_pos.
  replace (cos (d2r * s) * sin (d2r * n) - sin (d2r * s) * cos (d2r * n))
    with (sin (d2r * n - d2r * s)) by (rewrite sin_minus; ring).
  apply sin_gt_0.
  - pose proof d2r_pos. nra.
  - pose proof (small_angle (n - s) ltac:(lra)). pose proof PI_RGT_0. lra.
Qed.

End Centre.


(** ** Flags of the test cells *)

Lemma split_flags_eq (Re ratio lon sinlat coslat radius : R) (c : cell) :
  let d := distance_n_size Re (c_w c) (c_e c) (c_s c) (c_n c) (c_top c)
             (c_bottom c) lon sinlat coslat radius in
  split_flags Re ratio lon sinlat coslat radius c
  = (bool_decide (d.1.1.1 < ratio * d.1.1.2),
     bool_decide (d.1.1.1 < ratio * d.1.2),
     bool_decide (d.1.1.1 < ratio * d.2)).
Proof.
  unfold split_flags.
  destruct (distance_n_size _ _ _ _ _ _ _ _ _ _ _) as [[[d dlon] dlat] dr].
  reflexivity.
Qed.

Section TestCells.

Variable Re : R.
Hypothesis Re_pos : 0 < Re.

Variables ratio lon sinlat coslat : R.

(** From the centre, every axis of a cell whose top is at the centre is
    flagged. *)
Lemma chain_flags (c : cell) :
  0 < ratio -> chain_cell Re c ->
  split_flags Re ratio lon sinlat coslat 0 c = (true, true, true).
Proof.
  intros Hratio (Hw & Hwe & He & Hs & Hsn & Hn & Htop & Hb).
  rewrite split_flags_eq. cbv zeta.
  rewrite distance_from_centre, Htop.
  replace (- Re + Re) with 0 by lra. rewrite Rabs_R0.
  pose proof (dlon_pos Re Re_pos lon sinlat coslat (c_w c) (c_e c) (c_s c)
                (c_n c) (- Re) (c_bottom c) 0 Hw Hwe He Hs Hsn Hn).
  pose proof (dlat_pos Re Re_pos lon sinlat coslat (c_w c) (c_e c) (c_s c)
                (c_n c) (- Re) (c_bottom c) 0 Hs Hsn Hn).
  rewrite dr_eq.
  rewrite !bool_decide_eq_true_2; [reflexivity| | |]; nra.
Qed.

(** A point whose distance is at least [ratio] times every extent flags no
    axis; the lateral extents never exceed [Re * PI]. *)
Lemma far_flags (radius : R) (c : cell) :
  0 <= ratio ->
  let d := (distance_n_size Re (c_w c) (c_e c) (c_s c) (c_n c) (c_top c)
              (c_bottom c) lon sinlat coslat radius).1.1.1 in
  ratio * (Re * PI) <= d -> ratio * (c_top c - c_bottom c) <= d ->
  no_split (split_flags Re ratio lon sinlat coslat radius c).
Proof.
  intros Hratio d Hlat Hr. unfold no_split.
  rewrite split_flags_eq. cbv zeta. fold d.
  pose proof (dlon_le Re Re_pos lon sinlat coslat (c_w c) (c_e c) (c_s c)
                (c_n c) (c_top c) (c_bottom c) radius).
  pose proof (dlat_le Re Re_pos lon sinlat coslat (c_w c) (c_e c) (c_s c)
                (c_n c) (c_top c) (c_bottom c) radius).
  rewrite dr_eq.
  rewrite !bool_decide_eq_false_2; [reflexivity| | |]; nra.
Qed.

End TestCells.


(** ** Runs that fill the work list *)

Lemma write_rows_lookup (q : list cell) (base i : nat) (rows : list cell) :
  (base <= length q)%nat -> (i < length rows)%nat ->
  write_rows q base rows !!! (base + i)%nat = rows !!! i.
Proof.
  intros Hb Hi. unfold write_rows.
  rewrite lookup_total_app_r by (rewrite length_take; lia).
  rewrite length_take.
  replace (base + i - base `min` length q)%nat with i by lia.
  apply lookup_total_app_l. assumption.
Qed.

Lemma write_rows_below (q : list cell) (base i : nat) (rows : list cell) :
  (i < base)%nat -> (base <= length q)%nat ->
  write_rows q base rows !!! i = q !!! i.
Proof.
  intros Hi Hb. unfold write_rows.
  rewrite lookup_total_app_l by (rewrite length_take; lia).
  rewrite lookup_total_take. destruct (decide _); [reflexivity|lia].
Qed.

Lemma refine_loop_step (Re : R) (kernel : kernel_func)
    (ratio lon sinlat coslat radius : R) (fuel : nat) (st st' : engine) :
  queue_size st <> 0%Z ->
  refine_step Re kernel ratio lon sinlat coslat radius st = Done st' ->
  refine_loop Re kernel ratio lon sinlat coslat radius (S fuel) st
  = refine_loop Re kernel ratio lon sinlat coslat radius fuel st'.
Proof.
  intros Hqs Hstep. cbn [refine_loop].
  destruct (Z.eqb_spec (queue_size st) 0) as [|_]; [contradiction|].
  rewrite Hstep. reflexivity.
Qed.

Section Chain.

Variable Re : R.
Hypothesis Re_pos : 0 < Re.

Variable kernel : kernel_func.
Variables ratio lon sinlat coslat : R.
Hypothesis ratio_pos : 0 < ratio.

Let step := refine_step Re kernel ratio lon sinlat coslat 0.
Let loop := refine_loop Re kernel ratio lon sinlat coslat 0.
Let reach := reachable Re kernel ratio lon sinlat coslat 0.

(** The last of the eight children of a chain cell is a chain cell. *)
Lemma chain_child (c : cell) :
  chain_cell Re c -> chain_cell Re (children c (true, true, true) !!! 7%nat).
Proof.
  intros (Hw & Hwe & He & Hs & Hsn & Hn & Htop & Hb).
  unfold children; simpl.
  unfold chain_cell; cbn [c_w c_e c_s c_n c_top c_bottom].
  repeat split; lra.
Qed.

(** While eight more rows fit, a round on a chain state cuts the top row in
    eight and leaves a chain state seven rows higher. *)
Lemma chain_step (p m : Z) (st : engine) :
  (0 <= p)%Z -> (0 <= m)%Z -> (p + 7 * m + 8 <= queue_max)%Z ->
  chain_state Re p m st ->
  exists st', step st = Done st' /\ chain_state Re p (m + 1) st'.
Proof.
  intros Hp Hm Hfit (Hqs & Hlen & Hc).
  pose proof (chain_flags Re Re_pos ratio lon sinlat coslat _ ratio_pos Hc)
    as Hfl.
  eexists. split.
  - unfold step. apply refine_step_split.
    + rewrite Hfl. discriminate.
    + unfold guard_passes. rewrite Hfl. cbn [fst snd parts]. lia.
    + lia.
    + rewrite children_length, Hfl. cbn [flagged Nat.add Nat.pow Nat.mul].
      lia.
  - rewrite Hfl. split; [|split]; cbn [queue_size queue].
    + rewrite children_length. cbn [flagged Nat.add Nat.pow Nat.mul]. lia.
    + rewrite write_rows_length; [assumption|].
      rewrite children_length. cbn [flagged Nat.add Nat.pow Nat.mul]. lia.
    + unfold top_row at 1. cbn [queue_size queue].
      rewrite children_length. cbn [flagged Nat.add Nat.pow Nat.mul].
      replace (Z.to_nat (queue_size st - 1 + Z.of_nat 8 - 1))
        with (Z.to_nat (queue_size st - 1) + 7)%nat by lia.
      rewrite write_rows_lookup
        by (rewrite ?children_length; cbn [flagged Nat.add Nat.pow Nat.mul];
            lia).
      apply chain_child. assumption.
Qed.

(** [m] such rounds in a row. *)
Lemma chain_run (p : Z) (st0 : engine) (m : nat) :
  (0 <= p)%Z -> (p + 7 * Z.of_nat m + 1 <= queue_max)%Z ->
  chain_state Re p 0 st0 ->
  exists st, chain_state Re p (Z.of_nat m) st /\ reach st0 st /\
    forall fuel, loop (m + fuel)%nat st0 = loop fuel st.
Proof.
  intros Hp. induction m as [|m IH]; intros Hfit H0.
  - exists st0. split; [assumption|]. split; [constructor|]. reflexivity.
  - destruct IH as (st & Hst & Hreach & Hloop); [lia|assumption|].
    destruct (chain_step p (Z.of_nat m) st) as (st' & Hstep & Hst');
      [lia|lia|lia|assumption|].
    assert (Hqs : queue_size st <> 0%Z) by (destruct Hst as (-> & _); lia).
    exists st'. split; [|split].
    + replace (Z.of_nat (S m)) with (Z.of_nat m + 1)%Z by lia. assumption.
    + eapply reach_step; eassumption.
    + intros fuel.
      replace (S m + fuel)%nat with (m + S fuel)%nat by lia.
      rewrite Hloop. apply refine_loop_step; assumption.
Qed.

End Chain.


Section Runs.

Variable Re : R.
Hypothesis Re_pos : 0 < Re.

Variable kernel : kernel_func.
Variables lon sinlat coslat : R.

Lemma chain_start (buffer : list cell) :
  Z.of_nat (length buffer) = queue_max ->
  chain_state Re 0 0 (start (overflow_cell Re) buffer).
Proof.
  intros Hlen. unfold queue_max in Hlen. split; [reflexivity|]. split.
  - cbn [start queue]. rewrite length_insert. assumption.
  - unfold top_row. cbn [start queue queue_size].
    rewrite list_lookup_total_insert_eq by lia.
    unfold chain_cell, overflow_cell; cbn [c_w c_e c_s c_n c_top c_bottom].
    repeat split; lra.
Qed.

(** From the centre, [overflow_cell] is cut in eight 1428 times; the work
    list then holds 9997 rows and the next round, on a row with its three
    axes flagged, raises instead of pushing. *)
Lemma overflow_run (ratio : R) (buffer : list cell) :
  0 < ratio -> Z.of_nat (length buffer) = queue_max ->
  exists st,
    reachable Re kernel ratio lon sinlat coslat 0
      (start (overflow_cell Re) buffer) st /\
    queue_size st = 9997%Z /\
    split_flags Re ratio lon sinlat coslat 0 (top_row st) = (true, true, true) /\
    refine_step Re kernel ratio lon sinlat coslat 0 st
    = Raised (ValueError "Tesseroid queue overflow") /\
    forall fuel,
      refine_loop Re kernel ratio lon sinlat coslat 0 (1429 + fuel)
        (start (overflow_cell Re) buffer)
      = Raised (ValueError "Tesseroid queue overflow").
Proof.
  intros Hratio Hlen.
  destruct (chain_run Re Re_pos kernel ratio lon sinlat coslat Hratio 0
              (start (overflow_cell Re) buffer) 1428)
    as (st & (Hqs & Hl & Hc) & Hreach & Hloop);
    [lia|unfold queue_max; lia|apply chain_start; assumption|].
  pose proof (chain_flags Re Re_pos ratio lon sinlat coslat _ Hratio Hc) as Hfl.
  assert (Hstep : refine_step Re kernel ratio lon sinlat coslat 0 st
                  = Raised (ValueError "Tesseroid queue overflow")).
  { apply refine_step_raise.
    - rewrite Hfl. discriminate.
    - unfold guard_passes. rewrite Hfl. cbn [fst snd parts].
      unfold queue_max. lia. }
  exists st. split; [assumption|]. split; [lia|].
  split; [assumption|]. split; [assumption|].
  intros fuel.
  replace (1429 + fuel)%nat with (1428 + S fuel)%nat by lia.
  rewrite Hloop. cbn [refine_loop].
  destruct (Z.eqb_spec (queue_size st) 0) as [E|_]; [lia|].
  rewrite Hstep. reflexivity.
Qed.

End Runs.


(** ** Rounds that complete *)

Lemma empty_queue_length : Z.of_nat (length empty_queue) = queue_max.
Proof. unfold empty_queue. rewrite length_replicate. reflexivity. Qed.

Lemma Done_inj {A : Type} (a b : A) : Done a = Done b -> b = a.
Proof. intros [= ->]. reflexivity. Qed.

Lemma live_pop (st : engine) :
  (1 <= queue_size st)%Z ->
  take (Z.to_nat (queue_size st - 1)) (live st)
  = take (Z.to_nat (queue_size st - 1)) (queue st).
Proof.
  intros H. unfold live. rewrite take_take. f_equal. lia.
Qed.


Section Completed.

Variable Re : R.
Variable kernel : kernel_func.
Variables ratio lon sinlat coslat radius : R.

Let flags := split_flags Re ratio lon sinlat coslat radius.
Let step := refine_step Re kernel ratio lon sinlat coslat radius.

(** A round that completes either dropped the popped row or replaced it by
    its children; the buffer keeps its length and the rows in use stay
    within it. *)
Lemma refine_step_done (st st' : engine) :
  (1 <= queue_size st <= Z.of_nat (length (queue st)))%Z ->
  step st = Done st' ->
  length (queue st') = length (queue st) /\
  (0 <= queue_size st' <= Z.of_nat (length (queue st')))%Z /\
  ((no_split (flags (top_row st)) /\
    live st' = take (Z.to_nat (queue_size st - 1)) (live st)) \/
   (~ no_split (flags (top_row st)) /\
    live st' = take (Z.to_nat (queue_size st - 1)) (live st)
               ++ children (top_row st) (flags (top_row st)))).
Proof.
  intros Hqs Hstep. unfold flags, step in *.
  destruct (decide (no_split (split_flags Re ratio lon sinlat coslat radius
                                (top_row st)))) as [Hno|Hsplit].
  - unfold step in Hstep. rewrite refine_step_evaluate in Hstep by assumption.
    apply Done_inj in Hstep. subst st'. cbn [queue queue_size]. split; [reflexivity|].
    split; [lia|]. left. split; [assumption|].
    rewrite live_pop by lia. reflexivity.
  - assert (guard_passes Re ratio lon sinlat coslat radius st \/
            ~ guard_passes Re ratio lon sinlat coslat radius st)
      as [Hguard|Hguard] by (unfold guard_passes; lia).
    + destruct (decide (queue_size st - 1
                        + Z.of_nat (length (children (top_row st)
                            (split_flags Re ratio lon sinlat coslat radius
                               (top_row st))))
                        <= Z.of_nat (length (queue st)))%Z) as [Hfit|Hfit].
      * unfold step in Hstep.
        rewrite refine_step_split in Hstep by (assumption || lia).
        apply Done_inj in Hstep. subst st'. cbn [queue queue_size].
        rewrite write_rows_length by lia. split; [reflexivity|].
        split; [lia|]. right. split; [assumption|].
        rewrite live_write_rows by lia. rewrite live_pop by lia. reflexivity.
      * unfold step in Hstep.
        rewrite refine_step_past_end in Hstep by (assumption || lia).
        discriminate.
    + unfold step in Hstep. rewrite refine_step_raise in Hstep by assumption.
      discriminate.
Qed.


End Completed.




(** ** The buffer is scratch memory *)

Lemma take_lookup_total_lt {A : Type} `{Inhabited A} (l : list A) (n i : nat) :
  (i < n)%nat -> take n l !!! i = l !!! i.
Proof.
  intros Hi. rewrite lookup_total_take. destruct (decide _); [reflexivity|lia].
Qed.

Lemma top_row_of_live (st : engine) :
  (1 <= queue_size st)%Z ->
  top_row st = live st !!! Z.to_nat (queue_size st - 1).
Proof.
  intros H. unfold top_row, live. rewrite take_lookup_total_lt by lia.
  reflexivity.
Qed.

Lemma same_live_top (a b : engine) :
  same_live a b -> (1 <= queue_size a)%Z -> top_row a = top_row b.
Proof.
  intros (Hqs & _ & _ & Hlive) Hrange.
  rewrite !top_row_of_live by lia. rewrite Hlive, Hqs. reflexivity.
Qed.

Lemma same_live_pop (a b : engine) :
  same_live a b -> (1 <= queue_size a)%Z ->
  take (Z.to_nat (queue_size a - 1)) (queue a)
  = take (Z.to_nat (queue_size a - 1)) (queue b).
Proof.
  intros (Hqs & _ & _ & Hlive) Hrange.
  rewrite <- (live_pop a) by lia.
  rewrite Hlive, Hqs. apply live_pop. lia.
Qed.

Section Scratch.

Variable Re : R.
Variable kernel : kernel_func.
Variables ratio lon sinlat coslat radius : R.

Let step := refine_step Re kernel ratio lon sinlat coslat radius.
Let loop := refine_loop Re kernel ratio lon sinlat coslat radius.

(** A round reads the rows in use only. *)
Lemma refine_step_same_live (a b : engine) :
  same_live a b -> (1 <= queue_size a <= Z.of_nat (length (queue a)))%Z ->
  same_outcome (step a) (step b).
Proof.
  intros Hab Hrange. pose proof (same_live_top a b Hab ltac:(lia)) as Htop.
  pose proof (same_live_pop a b Hab ltac:(lia)) as Hpop.
  destruct Hab as (Hqs & Hres & Hlen & Hlive). unfold step.
  destruct (decide (no_split (split_flags Re ratio lon sinlat coslat radius
                                (top_row a)))) as [Hno|Hsplit].
  - rewrite (refine_step_evaluate _ _ _ _ _ _ _ a) by assumption.
    rewrite (refine_step_evaluate _ _ _ _ _ _ _ b) by (rewrite <- Htop; assumption).
    cbn [same_outcome]. rewrite <- Htop, <- Hqs, <- Hres.
    repeat split; cbn [queue queue_size res]; try assumption.
  - assert (guard_passes Re ratio lon sinlat coslat radius a \/
            ~ guard_passes Re ratio lon sinlat coslat radius a)
      as [Hguard|Hguard] by (unfold guard_passes; lia).
    + assert (Hguard' : guard_passes Re ratio lon sinlat coslat radius b)
        by (unfold guard_passes in *; rewrite <- Htop, <- Hqs; assumption).
      destruct (decide (queue_size a - 1
                        + Z.of_nat (length (children (top_row a)
                            (split_flags Re ratio lon sinlat coslat radius
                               (top_row a))))
                        <= Z.of_nat (length (queue a)))%Z) as [Hfit|Hfit].
      * rewrite (refine_step_split _ _ _ _ _ _ _ a) by (assumption || lia).
        rewrite (refine_step_split _ _ _ _ _ _ _ b)
          by (rewrite <- ?Htop, <- ?Hqs, <- ?Hlen; assumption || lia).
        cbn [same_outcome]. rewrite <- Htop, <- Hqs, <- Hres.
        repeat split; cbn [queue queue_size res]; try reflexivity.
        -- rewrite !write_rows_length by lia. assumption.
        -- rewrite live_write_rows by lia.
           rewrite live_write_rows by lia.
           rewrite Hpop. reflexivity.
      * rewrite (refine_step_past_end _ _ _ _ _ _ _ a) by (assumption || lia).
        rewrite (refine_step_past_end _ _ _ _ _ _ _ b)
          by (rewrite <- ?Htop, <- ?Hqs, <- ?Hlen; assumption || lia).
        cbn [same_outcome]. rewrite Hlen. reflexivity.
    + assert (Hguard' : ~ guard_passes Re ratio lon sinlat coslat radius b)
        by (unfold guard_passes in *; rewrite <- Htop, <- Hqs; assumption).
      rewrite (refine_step_raise _ _ _ _ _ _ _ a) by assumption.
      rewrite (refine_step_raise _ _ _ _ _ _ _ b)
        by (rewrite <- ?Htop; assumption).
      reflexivity.
Qed.

(** So does the whole loop. *)
Lemma refine_loop_same_live (fuel : nat) (a b : engine) :
  same_live a b -> (0 <= queue_size a <= Z.of_nat (length (queue a)))%Z ->
  same_outcome (loop fuel a) (loop fuel b).
Proof.
  revert a b. induction fuel as [|fuel IH]; intros a b Hab Hrange;
    pose proof Hab as (Hqs & _); unfold loop; cbn [refine_loop];
    rewrite <- Hqs; destruct (Z.eqb_spec (queue_size a) 0) as [E|E];
    try exact Hab; try exact I.
  pose proof (refine_step_same_live a b Hab ltac:(lia)) as Hstep.
  unfold step in Hstep.
  destruct (refine_step Re kernel ratio lon sinlat coslat radius a)
    as [a'| | |] eqn:Ea;
    destruct (refine_step Re kernel ratio lon sinlat coslat radius b)
      as [b'| | |] eqn:Eb; cbn [same_outcome] in Hstep; try contradiction;
    cbn [bind same_outcome]; try assumption.
  apply IH; [assumption|].
  apply (refine_step_done Re kernel ratio lon sinlat coslat radius a a');
    [lia|assumption].
Qed.

End Scratch.


Section PointScratch.

Variable Re : R.
Variable kernel : kernel_func.

Lemma refine_loop_length (ratio lon sinlat coslat radius : R) (fuel : nat)
    (st st' : engine) :
  (0 <= queue_size st <= Z.of_nat (length (queue st)))%Z ->
  refine_loop Re kernel ratio lon sinlat coslat radius fuel st = Done st' ->
  length (queue st') = length (queue st).
Proof.
  revert st. induction fuel as [|fuel IH]; intros st Hrange; cbn [refine_loop];
    destruct (Z.eqb_spec (queue_size st) 0) as [E|E];
    try (intros [= <-]; reflexivity); try discriminate.
  destruct (refine_step Re kernel ratio lon sinlat coslat radius st)
    as [st1| | |] eqn:E1; cbn [bind]; try discriminate.
  intros Hloop.
  destruct (refine_step_done Re kernel ratio lon sinlat coslat radius st st1
              ltac:(lia) E1) as (Hlen & Hrange1 & _).
  rewrite <- Hlen. apply IH; assumption.
Qed.

Lemma start_same_live (bounds : cell) (buffer buffer' : list cell) :
  length buffer = length buffer' -> (0 < length buffer)%nat ->
  same_live (start bounds buffer) (start bounds buffer').
Proof.
  intros Hlen Hpos. unfold same_live, live; cbn [start queue queue_size res].
  rewrite !length_insert. repeat split; try assumption.
  destruct buffer as [|c buffer]; [simpl in Hpos; lia|].
  destruct buffer' as [|c' buffer']; [discriminate|]. reflexivity.
Qed.

(** The refinement of a point does not depend on what the buffer held, and
    hands the buffer back with its length. *)
Lemma refine_point_scratch (fuel : nat) (bounds : cell) (ratio : R)
    (lons sinlats coslats radii : list R) (buffer : list cell) (l : nat) :
  Z.of_nat (length buffer) = queue_max ->
  match refine_point Re kernel fuel bounds ratio lons sinlats coslats radii
          buffer l with
  | Done (q, r) =>
    length q = length buffer /\
    point_result Re kernel fuel bounds ratio lons sinlats coslats radii l
    = Done r
  | Raised e =>
    point_result Re kernel fuel bounds ratio lons sinlats coslats radii l
    = Raised e
  | OutOfBounds row =>
    point_result Re kernel fuel bounds ratio lons sinlats coslats radii l
    = OutOfBounds row
  | OutOfFuel =>
    point_result Re kernel fuel bounds ratio lons sinlats coslats radii l
    = OutOfFuel
  end.
Proof.
  intros Hlen. pose proof empty_queue_length as Hlen0.
  unfold queue_max in Hlen, Hlen0.
  assert (Hsame : same_live (start bounds buffer) (start bounds empty_queue))
    by (apply start_same_live; lia).
  unfold point_result, refine_point.
  fold (start bounds buffer) (start bounds empty_queue).
  pose proof (refine_loop_same_live Re kernel ratio (lons !!! l)
                (sinlats !!! l) (coslats !!! l) (radii !!! l) fuel _ _ Hsame)
    as Hloop.
  pose proof (refine_loop_length ratio (lons !!! l) (sinlats !!! l)
                (coslats !!! l) (radii !!! l) fuel (start bounds buffer))
    as Hlength.
  cbn [start queue queue_size] in Hloop, Hlength.
  rewrite length_insert in Hloop, Hlength.
  specialize (Hloop ltac:(lia)).
  fold (start bounds buffer) (start bounds empty_queue) in Hloop, Hlength.
  destruct (refine_loop _ _ _ _ _ _ _ _ (start bounds buffer))
    as [a| | |];
    destruct (refine_loop _ _ _ _ _ _ _ _ (start bounds empty_queue))
      as [b| | |]; cbn [same_outcome] in Hloop; try contradiction;
    cbn [bind snd]; try (subst; reflexivity).
  destruct Hloop as (_ & -> & _). split; [|reflexivity].
  apply Hlength; [lia|reflexivity].
Qed.

End PointScratch.


(** ** The loop over the observation points *)

Section PointsLoop.

Variable Re : R.
Variable kernel : kernel_func.
Variable fuel : nat.
Variable bounds : cell.
Variables density ratio : R.
Variables lons sinlats coslats radii : list R.

Let pr := point_result Re kernel fuel bounds ratio lons sinlats coslats radii.
Let ploop :=
  points_loop Re kernel fuel bounds density ratio lons sinlats coslats radii.

(** The loop over the points [a .. a + n - 1]: the entries of the other
    points are left alone; the points are committed in order, each with
    [density] times its own result, up to the first point that does not
    complete, which ends the call with nothing committed for it or after
    it. *)
Lemma points_loop_seq (n : nat) :
  forall (a : nat) (buffer : list cell) (result : list R),
  Z.of_nat (length buffer) = queue_max -> (a + n <= length result)%nat ->
  let out := ploop (seq a n) buffer result in
  length out.1 = length result /\
  (forall i, (i < a \/ a + n <= i)%nat -> out.1 !!! i = result !!! i) /\
  ((out.2 = Done 0%Z /\
    forall i, (a <= i < a + n)%nat ->
      exists r, pr i = Done r /\ out.1 !!! i = result !!! i + density * r) \/
   (exists l, (a <= l < a + n)%nat /\
      (forall i, (a <= i < l)%nat ->
         exists r, pr i = Done r /\ out.1 !!! i = result !!! i + density * r) /\
      (forall r, pr l <> Done r) /\
      out.2 = as_status (pr l) /\
      (forall i, (l <= i)%nat -> out.1 !!! i = result !!! i))).
Proof.
  induction n as [|n IH]; intros a buffer result Hbuf Hlen.
  - cbn. split; [reflexivity|]. split; [reflexivity|].
    left. split; [reflexivity|]. intros i Hi. lia.
  - cbn [seq]. unfold ploop. cbn [points_loop]. fold ploop.
    pose proof (refine_point_scratch Re kernel fuel bounds ratio lons sinlats
                  coslats radii buffer a Hbuf) as Hpoint. fold pr in Hpoint.
    destruct (refine_point Re kernel fuel bounds ratio lons sinlats coslats
                radii buffer a) as [[q r]| e | row |].
    + destruct Hpoint as [Hq Hr].
      specialize (IH (S a) q (<[a := result !!! a + density * r]> result)).
      rewrite length_insert in IH.
      destruct IH as (Hl & Hout & Hcases); [lia|lia|].
      cbv zeta. split; [assumption|]. split.
      * intros i Hi. rewrite Hout by lia.
        apply list_lookup_total_insert_ne. lia.
      * assert (Ha : (ploop (seq (S a) n) q
                        (<[a := result !!! a + density * r]> result)).1 !!! a
                     = result !!! a + density * r).
        { rewrite Hout by lia. apply list_lookup_total_insert_eq. lia. }
        destruct Hcases as [[Hdone Hall] | (l & Hl' & Hbefore & Hstop & Hst & Hafter)].
        -- left. split; [assumption|]. intros i Hi.
           destruct (decide (i = a)) as [->|Hne].
           ++ exists r. split; assumption.
           ++ destruct (Hall i ltac:(lia)) as (ri & Hri & Hi').
              exists ri. split; [assumption|]. rewrite Hi'.
              rewrite list_lookup_total_insert_ne by lia. reflexivity.
        -- right. exists l. split; [lia|]. split; [|split; [|split]];
             try assumption.
           ++ intros i Hi. destruct (decide (i = a)) as [->|Hne].
              ** exists r. split; assumption.
              ** destruct (Hbefore i ltac:(lia)) as (ri & Hri & Hi').
                 exists ri. split; [assumption|]. rewrite Hi'.
                 rewrite list_lookup_total_insert_ne by lia. reflexivity.
           ++ intros i Hi. rewrite Hafter by lia.
              apply list_lookup_total_insert_ne. lia.
    + cbn [fst snd]. split; [reflexivity|]. split; [reflexivity|].
      right. exists a. split; [lia|]. split; [intros i Hi; lia|].
      rewrite Hpoint. split; [discriminate|]. split; reflexivity.
    + cbn [fst snd]. split; [reflexivity|]. split; [reflexivity|].
      right. exists a. split; [lia|]. split; [intros i Hi; lia|].
      rewrite Hpoint. split; [discriminate|]. split; reflexivity.
    + cbn [fst snd]. split; [reflexivity|]. split; [reflexivity|].
      right. exists a. split; [lia|]. split; [intros i Hi; lia|].
      rewrite Hpoint. split; [discriminate|]. split; reflexivity.
Qed.

End PointsLoop.


Lemma refine_loop_empty (Re : R) (kernel : kernel_func)
    (ratio lon sinlat coslat radius : R) (fuel : nat) (st : engine) :
  queue_size st = 0%Z ->
  refine_loop Re kernel ratio lon sinlat coslat radius fuel st = Done st.
Proof. intros H. destruct fuel; cbn [refine_loop]; rewrite H; reflexivity. Qed.

Section DirectPoint.

Variable Re : R.
Variable kernel : kernel_func.
Variable fuel : nat.
Variable bounds : cell.
Variable ratio : R.
Variables lons sinlats coslats radii : list R.

Let pr := point_result Re kernel fuel bounds ratio lons sinlats coslats radii.

(** A point with no axis flagged on the whole tesseroid completes in one
    round with the direct evaluation of the kernel. *)
Lemma point_result_direct (l : nat) :
  (1 <= fuel)%nat ->
  no_split (point_flags Re bounds ratio lons sinlats coslats radii l) ->
  pr l = Done (direct_kernel Re kernel bounds lons sinlats coslats radii l).
Proof.
  intros Hfuel Hno. unfold pr, point_result, refine_point.
  fold (start bounds empty_queue).
  pose proof empty_queue_length as Hlen. unfold queue_max in Hlen.
  assert (Htop : top_row (start bounds empty_queue) = bounds).
  { unfold top_row. cbn [start queue queue_size].
    apply list_lookup_total_insert_eq. lia. }
  assert (Hno' : no_split (split_flags Re ratio (lons !!! l) (sinlats !!! l)
                             (coslats !!! l) (radii !!! l)
                             (top_row (start bounds empty_queue))))
    by (rewrite Htop; exact Hno).
  pose proof (refine_step_evaluate Re kernel ratio _ _ _ _ _ Hno') as Hstep.
  cbv zeta in Hstep. rewrite Htop in Hstep.
  assert (Hqs : queue_size (start bounds empty_queue) <> 0%Z)
    by (cbn [start queue_size]; lia).
  destruct fuel as [|f]; [lia|].
  rewrite (refine_loop_step Re kernel ratio _ _ _ _ f _ _ Hqs Hstep).
  rewrite refine_loop_empty by reflexivity.
  cbn [bind res snd]. unfold direct_kernel. rewrite Rplus_0_l. reflexivity.
Qed.

End DirectPoint.

Section Calls.

Variable Re : R.
Variable kernel : kernel_func.
Variable fuel : nat.
Variable bounds : cell.
Variables density ratio : R.
Variables lons sinlats coslats radii : list R.

Let pr := point_result Re kernel fuel bounds ratio lons sinlats coslats radii.

(** The call up to a point [l] that it reaches: the points before [l] have
    their results committed; [l] has its own committed if it completes, and
    otherwise ends the call with its entry, and the entries after it, as
    they were. *)
Lemma with_rediscretization_reached (result : list R) (l : nat) :
  (l < length result)%nat ->
  (forall i, (i < l)%nat -> exists r, pr i = Done r) ->
  (forall i r, (i < l)%nat -> pr i = Done r ->
     (with_rediscretization Re fuel bounds density ratio lons sinlats
     coslats radii result kernel).1 !!! i = result !!! i + density * r) /\
  (forall r, pr l = Done r ->
     (with_rediscretization Re fuel bounds density ratio lons sinlats
     coslats radii result kernel).1 !!! l = result !!! l + density * r) /\
  ((forall r, pr l <> Done r) ->
     (with_rediscretization Re fuel bounds density ratio lons sinlats
     coslats radii result kernel).2 = as_status (pr l) /\
     forall i, (l <= i)%nat -> (with_rediscretization Re fuel bounds density ratio lons sinlats
     coslats radii result kernel).1 !!! i = result !!! i).
Proof.
  intros Hl Hbefore. unfold with_rediscretization.
  pose proof (points_loop_seq Re kernel fuel bounds density ratio lons sinlats
                coslats radii (length result) 0 empty_queue result
                empty_queue_length ltac:(lia)) as H.
  cbv zeta in H. fold pr in H.
  destruct H as (_ & _ & [[Hdone Hall] | (l' & Hl' & Hpre & Hstop & Hst & Hafter)]).
  - split; [|split].
    + intros i r Hi Hr. destruct (Hall i ltac:(lia)) as (r' & Hr' & ->).
      congruence.
    + intros r Hr. destruct (Hall l ltac:(lia)) as (r' & Hr' & ->).
      congruence.
    + intros Hnot. destruct (Hall l ltac:(lia)) as (r' & Hr' & _).
      exfalso. exact (Hnot r' Hr').
  - assert (Hge : (l <= l')%nat).
    { destruct (le_lt_dec l l') as [|Hlt]; [assumption|].
      destruct (Hbefore l' Hlt) as (r & Hr). exfalso. exact (Hstop r Hr). }
    split; [|split].
    + intros i r Hi Hr. destruct (Hpre i ltac:(lia)) as (r' & Hr' & ->).
      congruence.
    + intros r Hr. destruct (decide (l = l')) as [->|Hne].
      * exfalso. exact (Hstop r Hr).
      * destruct (Hpre l ltac:(lia)) as (r' & Hr' & ->). congruence.
    + intros Hnot. destruct (decide (l = l')) as [->|Hne].
      * split; assumption.
      * destruct (Hpre l ltac:(lia)) as (r' & Hr' & _).
        exfalso. exact (Hnot r' Hr').
Qed.

(** When no point flags any axis of the tesseroid, the call returns 0 with
    the direct evaluation of the kernel committed for every point. *)
Lemma with_rediscretization_all_direct (result : list R) :
  (1 <= fuel)%nat ->
  (forall l, (l < length result)%nat ->
     no_split (point_flags Re bounds ratio lons sinlats coslats radii l)) ->
  (with_rediscretization Re fuel bounds density ratio lons sinlats
     coslats radii result kernel).2 = Done 0%Z /\
  forall l, (l < length result)%nat ->
    (with_rediscretization Re fuel bounds density ratio lons sinlats
     coslats radii result kernel).1 !!! l
    = result !!! l
      + density * direct_kernel Re kernel bounds lons sinlats coslats radii l.
Proof.
  intros Hfuel Hno. unfold with_rediscretization.
  pose proof (points_loop_seq Re kernel fuel bounds density ratio lons sinlats
                coslats radii (length result) 0 empty_queue result
                empty_queue_length ltac:(lia)) as H.
  cbv zeta in H. fold pr in H.
  destruct H as (_ & _ & [[Hdone Hall] | (l' & Hl' & _ & Hstop & _)]).
  - split; [assumption|]. intros l Hl.
    destruct (Hall l ltac:(lia)) as (r & Hr & ->).
    unfold pr in Hr.
    rewrite (point_result_direct Re kernel fuel bounds ratio lons sinlats
               coslats radii l Hfuel (Hno l Hl)) in Hr.
    injection Hr as <-. reflexivity.
  - exfalso. apply (Hstop _ (point_result_direct Re kernel fuel bounds ratio lons
                       sinlats coslats radii l' Hfuel (Hno l' ltac:(lia)))).
Qed.

End Calls.


(** ** Calls on the test cells *)

Section TestCalls.

Variable Re : R.
Hypothesis Re_large : 1 <= Re.

(** A point at four Earth radii flags no axis of [overflow_cell]. *)
Lemma overflow_cell_far (ratio lon sinlat coslat : R) :
  0 <= ratio <= 1 ->
  no_split (split_flags Re ratio lon sinlat coslat (4 * Re) (overflow_cell Re)).
Proof.
  intros Hratio. pose proof PI_4. pose proof PI_RGT_0.
  assert (0 <= Re * PI) by nra. assert (Re * PI <= 4 * Re) by nra.
  apply far_flags; [lra|lra| |];
    cbn [overflow_cell c_w c_e c_s c_n c_top c_bottom];
    rewrite distance_to_centre, Rabs_pos_eq by lra; nra.
Qed.

(** The centre of the Earth flags no axis of [bad_cell] (ratio 1). *)
Lemma bad_cell_far (lon sinlat coslat : R) :
  no_split (split_flags Re 1 lon sinlat coslat 0 (bad_cell Re)).
Proof.
  pose proof PI_4. pose proof PI_RGT_0.
  assert (0 <= Re * PI) by nra. assert (Re * PI <= 4 * Re) by nra.
  apply far_flags; [lra|lra| |];
    cbn [bad_cell c_w c_e c_s c_n c_top c_bottom];
    rewrite distance_from_centre;
    replace (3 * Re + Re) with (4 * Re) by lra;
    rewrite Rabs_pos_eq by lra; nra.
Qed.

(** Observed from the centre, [overflow_cell] overflows the work list. *)
Lemma overflow_cell_raises (kernel : kernel_func) (fuel : nat)
    (lons sinlats coslats radii : list R) (l : nat) :
  radii !!! l = 0 ->
  point_result Re kernel (1429 + fuel) (overflow_cell Re) 1 lons sinlats
    coslats radii l
  = Raised (ValueError "Tesseroid queue overflow").
Proof.
  intros Hr. unfold point_result, refine_point. rewrite Hr.
  fold (start (overflow_cell Re) empty_queue).
  destruct (overflow_run Re ltac:(lra) kernel (lons !!! l) (sinlats !!! l)
              (coslats !!! l) 1 empty_queue Rlt_0_1 empty_queue_length)
    as (_ & _ & _ & _ & _ & Hloop).
  rewrite Hloop. reflexivity.
Qed.

End TestCalls.

Lemma earth_radius_large : 1 <= earth_radius.
Proof. unfold earth_radius. lra. Qed.

(** ** A point that overflows the work list *)

(** C5.  When the adaptive evaluation of point [l] is the one that fails with
    the work-list overflow error (the points before it completed), the call
    ends with that error, the entry of [l] in the result array is as it was
    before the call (no partial sum is committed), the entries of the points
    before [l] hold their contributions, and the entries after [l] are
    untouched. *)
Theorem overflow_leaves_entry (Re : R) (fuel : nat) (t : cell)
    (density ratio : R) (lons sinlats coslats radii result : list R)
    (l : nat) :
  (l < length result)%nat ->
  (forall i, (i < l)%nat ->
     exists r, point_result Re kernelzz fuel t ratio lons sinlats coslats
                 radii i = Done r) ->
  point_result Re kernelzz fuel t ratio lons sinlats coslats radii l
  = Raised (ValueError "Tesseroid queue overflow") ->
  (gzz Re fuel t density ratio lons sinlats coslats radii result).2
  = Raised (ValueError "Tesseroid queue overflow") /\
  (gzz Re fuel t density ratio lons sinlats coslats radii result).1 !!! l
  = result !!! l /\
  (forall i r, (i < l)%nat ->
     point_result Re kernelzz fuel t ratio lons sinlats coslats radii i
     = Done r ->
     (gzz Re fuel t density ratio lons sinlats coslats radii result).1 !!! i
     = result !!! i + density * r) /\
  (forall i, (l < i)%nat ->
     (gzz Re fuel t density ratio lons sinlats coslats radii result).1 !!! i
     = result !!! i).
Proof.
  intros Hl Hbefore Hraise.
  destruct (with_rediscretization_reached Re kernelzz fuel t density ratio
              lons sinlats coslats radii result l Hl Hbefore)
    as (Hpre & _ & Hstop).
  destruct Hstop as [Hstatus Hafter].
  { intros r Hr. rewrite Hraise in Hr. discriminate. }
  unfold gzz. rewrite Hraise in Hstatus.
  split; [exact Hstatus|]. split; [apply Hafter; lia|].
  split; [exact Hpre|]. intros i Hi. apply Hafter. lia.
Qed.

(** Two points on [overflow_cell]: the first, four Earth radii away,
    completes; the second, at the centre, overflows the work list.  The call
    raises and the second entry keeps its value 7. *)
Lemma overflow_leaves_entry_witness :
  (1 < length [5; 7])%nat /\
  (forall i, (i < 1)%nat ->
     exists r, point_result earth_radius kernelzz 1429
                 (overflow_cell earth_radius) 1 [0; 0] [0; 0] [1; 1]
                 [4 * earth_radius; 0] i = Done r) /\
  point_result earth_radius kernelzz 1429 (overflow_cell earth_radius) 1
    [0; 0] [0; 0] [1; 1] [4 * earth_radius; 0] 1
  = Raised (ValueError "Tesseroid queue overflow") /\
  (gzz earth_radius 1429 (overflow_cell earth_radius) 2 1 [0; 0] [0; 0]
     [1; 1] [4 * earth_radius; 0] [5; 7]).2
  = Raised (ValueError "Tesseroid queue overflow") /\
  (gzz earth_radius 1429 (overflow_cell earth_radius) 2 1 [0; 0] [0; 0]
     [1; 1] [4 * earth_radius; 0] [5; 7]).1 !!! 1%nat
  = 7.
Proof.
  assert (H1 : (1 < length [5; 7])%nat) by (simpl; lia).
  assert (H2 : forall i, (i < 1)%nat ->
             exists r, point_result earth_radius kernelzz 1429
                         (overflow_cell earth_radius) 1 [0; 0] [0; 0] [1; 1]
                         [4 * earth_radius; 0] i = Done r).
  { intros i Hi. assert (i = 0)%nat as -> by lia. eexists.
    apply point_result_direct; [lia|].
    apply (overflow_cell_far earth_radius earth_radius_large). lra. }
  assert (H3 : point_result earth_radius kernelzz 1429
                 (overflow_cell earth_radius) 1 [0; 0] [0; 0] [1; 1]
                 [4 * earth_radius; 0] 1
               = Raised (ValueError "Tesseroid queue overflow"))
    by (apply (overflow_cell_raises earth_radius earth_radius_large kernelzz 0);
        reflexivity).
  split; [exact H1|]. split; [exact H2|]. split; [exact H3|].
  pose proof (overflow_leaves_entry earth_radius 1429
                (overflow_cell earth_radius) 2 1 [0; 0] [0; 0] [1; 1]
                [4 * earth_radius; 0] [5; 7] 1 H1 H2 H3) as (Hs & He & _).
  split; [exact Hs | exact He].
Defined.

(** ** Bounds out of order *)

(** A call on a tesseroid with every pair of bounds out of order returns 0:
    nothing checks the bounds. *)
Lemma bad_cell_accepted :
  ~ valid_bounds (bad_cell earth_radius) /\
  (gzz earth_radius 1 (bad_cell earth_radius) 1 1 [0] [0] [1] [0] [0]).2
  = Done 0%Z.
Proof.
  split.
  - unfold valid_bounds, bad_cell; cbn [c_w c_e]. lra.
  - apply with_rediscretization_all_direct; [lia|].
    intros l Hl. assert (l = 0)%nat as -> by (simpl in Hl; lia).
    apply (bad_cell_far earth_radius earth_radius_large).
Qed.

(** C9, as the code has it.  The core does not validate the bounds: on a
    tesseroid that violates the ordering invariant [gzz] raises no error of
    its own for that; when no axis is flagged at any observation point it
    returns 0, having added to each entry [density] times [kernelzz] on the
    nodes [scale_nodes] derives from the bounds as they are. *)
Theorem invalid_bounds_not_checked (Re : R) (fuel : nat) (t : cell)
    (density ratio : R) (lons sinlats coslats radii result : list R) :
  ~ valid_bounds t -> (1 <= fuel)%nat ->
  (forall l, (l < length result)%nat ->
     no_split (point_flags Re t ratio lons sinlats coslats radii l)) ->
  (gzz Re fuel t density ratio lons sinlats coslats radii result).2
  = Done 0%Z /\
  forall l, (l < length result)%nat ->
    (gzz Re fuel t density ratio lons sinlats coslats radii result).1 !!! l
    = result !!! l
      + density * direct_kernel Re kernelzz t lons sinlats coslats radii l.
Proof.
  intros _ Hfuel Hno. apply with_rediscretization_all_direct; assumption.
Qed.

(** [bad_cell] observed from the centre. *)
Lemma invalid_bounds_not_checked_witness :
  ~ valid_bounds (bad_cell earth_radius) /\ (1 <= 1)%nat /\
  (forall l, (l < length [0])%nat ->
     no_split (point_flags earth_radius (bad_cell earth_radius) 1
                 [0] [0] [1] [0] l)) /\
  (gzz earth_radius 1 (bad_cell earth_radius) 1 1 [0] [0] [1] [0] [0]).2
  = Done 0%Z /\
  forall l, (l < length [0])%nat ->
    (gzz earth_radius 1 (bad_cell earth_radius) 1 1 [0] [0] [1] [0] [0]).1
      !!! l
    = [0] !!! l
      + 1 * direct_kernel earth_radius kernelzz (bad_cell earth_radius)
              [0] [0] [1] [0] l.
Proof.
  assert (H1 : ~ valid_bounds (bad_cell earth_radius))
    by (unfold valid_bounds, bad_cell; cbn [c_w c_e]; lra).
  assert (H2 : (1 <= 1)%nat) by lia.
  assert (H3 : forall l, (l < length [0])%nat ->
             no_split (point_flags earth_radius (bad_cell earth_radius) 1
                         [0] [0] [1] [0] l)).
  { intros l Hl. assert (l = 0)%nat as -> by (simpl in Hl; lia).
    apply (bad_cell_far earth_radius earth_radius_large). }
  split; [exact H1|]. split; [exact H2|]. split; [exact H3|].
  exact (invalid_bounds_not_checked earth_radius 1 (bad_cell earth_radius)
           1 1 [0] [0] [1] [0] [0] H1 H2 H3).
Defined.


(** * Properties of the binary64 reading *)

(** The lemmas on the work list and on a round are those of the exact
    reading, with the comparisons of doubles; the runs are computed on
    closed inputs. *)
Module B64Facts.

Import B64.
Local Open Scope float_scope.

(** ** The work list *)

Lemma push_all_app64 (a b : list cell) (st : engine) :
  push_all (a ++ b) st = (st' <- push_all a st ;; push_all b st').
Proof.
  revert st. induction a as [|c a IH]; intros st; simpl; [reflexivity|].
  rewrite bind_assoc. apply bind_ext. intros st'. apply IH.
Qed.

Lemma for_each_push_all64 (l : list nat) (f : nat -> list cell)
    (body : nat -> engine -> outcome engine) (st : engine) :
  (forall i st, body i st = push_all (f i) st) ->
  for_each l body st = push_all (l ≫= f) st.
Proof.
  intros Hbody. revert st. induction l as [|i l IH]; intros st; simpl;
    [reflexivity|].
  rewrite push_all_app64, Hbody. apply bind_ext. intros st'. apply IH.
Qed.

Lemma nested_loops_push64 (a b c : Z) (F : nat -> nat -> nat -> cell)
    (st : engine) :
  for_xrange a (fun i => for_xrange b (fun j => for_xrange c (fun k =>
    push (F i j k)))) st
  = push_all (i ← seq 0 (Z.to_nat a); j ← seq 0 (Z.to_nat b);
              k ← seq 0 (Z.to_nat c); [F i j k]) st.
Proof.
  unfold for_xrange. apply for_each_push_all64. intros i st1.
  apply for_each_push_all64. intros j st2.
  apply for_each_push_all64. intros k st3.
  simpl. symmetry. apply bind_done.
Qed.

Lemma write_rows_length64 (q : list cell) (base : nat) (rows : list cell) :
  (base + length rows <= length q)%nat ->
  length (write_rows q base rows) = length q.
Proof.
  intros H. unfold write_rows.
  rewrite !length_app, length_take, length_drop. lia.
Qed.

Lemma write_rows_cons64 (q : list cell) (base : nat) (c : cell)
    (rows : list cell) :
  (base < length q)%nat ->
  write_rows (<[base := c]> q) (S base) rows = write_rows q base (c :: rows).
Proof.
  intros H. unfold write_rows.
  rewrite (take_S_r _ _ c) by (apply list_lookup_insert_eq; assumption).
  rewrite take_insert_ge by lia.
  rewrite drop_insert_lt by lia.
  rewrite <- app_assoc. cbn [app length].
  replace (S base + length rows)%nat with (base + S (length rows))%nat by lia.
  reflexivity.
Qed.

Lemma write_rows_nil64 (q : list cell) (base : nat) :
  write_rows q base [] = q.
Proof.
  unfold write_rows. cbn [app length]. rewrite Nat.add_0_r. apply take_drop.
Qed.

(** Rows that fit are written one after the other. *)
Lemma push_all_fits64 (cs : list cell) (q : list cell) (qs : Z) (r : float) :
  (0 <= qs)%Z -> (qs + Z.of_nat (length cs) <= Z.of_nat (length q))%Z ->
  push_all cs (Engine q qs r)
  = Done (Engine (write_rows q (Z.to_nat qs) cs)
                 (qs + Z.of_nat (length cs)) r).
Proof.
  revert q qs. induction cs as [|c cs IH]; intros q qs H0 Hfit.
  - simpl. rewrite write_rows_nil64, Z.add_0_r. reflexivity.
  - cbn [length] in Hfit. cbn [push_all]. unfold push at 1.
    cbn [queue_size queue res].
    destruct (decide _) as [_|Hn]; [|lia].
    cbn [bind]. rewrite IH by (rewrite ?length_insert; lia).
    replace (Z.to_nat (qs + 1)) with (S (Z.to_nat qs)) by lia.
    rewrite write_rows_cons64 by lia.
    cbn [length]. do 2 f_equal. lia.
Qed.

(** Rows that do not fit: the first write past the last row of the buffer
    stops the run. *)
Lemma push_all_past_end64 (cs : list cell) (q : list cell) (qs : Z)
    (r : float) :
  (0 <= qs <= Z.of_nat (length q))%Z ->
  (Z.of_nat (length q) < qs + Z.of_nat (length cs))%Z ->
  push_all cs (Engine q qs r) = OutOfBounds (Z.of_nat (length q)).
Proof.
  revert q qs. induction cs as [|c cs IH]; intros q qs H0 Hfit.
  - simpl in Hfit. lia.
  - cbn [length] in Hfit. cbn [push_all]. unfold push at 1.
    cbn [queue_size queue res].
    destruct (decide _) as [Hin|Hn].
    + cbn [bind]. rewrite IH by (rewrite ?length_insert; lia).
      rewrite length_insert. reflexivity.
    + cbn [bind]. f_equal. lia.
Qed.

Lemma children_length64 (c : cell) (fl : bool * bool * bool) :
  length (children c fl) = (2 ^ flagged fl)%nat.
Proof. destruct fl as [[[] []] []]; reflexivity. Qed.

Lemma live_write_rows64 (q : list cell) (qs : Z) (rows : list cell)
    (r : float) :
  (0 <= qs)%Z -> (qs + Z.of_nat (length rows) <= Z.of_nat (length q))%Z ->
  live (Engine (write_rows q (Z.to_nat qs) rows)
               (qs + Z.of_nat (length rows)) r)
  = take (Z.to_nat qs) q ++ rows.
Proof.
  intros H0 Hfit. unfold live, write_rows. cbn [queue queue_size].
  rewrite app_assoc. apply take_app_length'.
  rewrite length_app, length_take. lia.
Qed.

(** ** One round of the loop *)

Section Step.

Variable m : libm.
Variable Re : float.
Variable kernel : kernel_func.
Variables ratio lon sinlat coslat radius : float.

Let flags := split_flags m Re ratio lon sinlat coslat radius.
Let step := refine_step m Re kernel ratio lon sinlat coslat radius.

(** The round in terms of the flags of the popped row: evaluate, raise, or
    push the children. *)
Lemma refine_step_unfold64 (st : engine) :
  let qs := (queue_size st - 1)%Z in
  let c := queue st !!! Z.to_nat qs in
  let '(flon, flat, fr) := flags c in
  step st =
    if decide (no_split (flags c)) then
      let out := scale_nodes m Re (c_w c) (c_e c) (c_s c) (c_n c) (c_top c)
                   (c_bottom c) empty_glq in
      Done (Engine (queue st) qs
              (res st + kernel lon sinlat coslat radius out.2 out.1))
    else if (queue_max <? qs + parts flon + parts flat + parts fr)%Z then
      Raised (ValueError "Tesseroid queue overflow")
    else push_all (children c (flags c)) (Engine (queue st) qs (res st)).
Proof.
  intros qs c. unfold step, refine_step, flags, split_flags. fold qs. fold c.
  destruct c as [w e s n top bottom]. cbn [c_w c_e c_s c_n c_top c_bottom].
  destruct (distance_n_size m Re w e s n top bottom lon sinlat coslat radius)
    as [[[distance dlon] dlat] dr].
  unfold no_split.
  destruct (distance <? ratio * dlon);
    destruct (distance <? ratio * dlat);
    destruct (distance <? ratio * dr);
    cbn [Z.eqb Pos.eqb andb parts];
    (destruct (decide _) as [Heq|Hne]; [try discriminate Heq|]);
    try reflexivity;
    try (destruct (queue_max <? _)%Z; [reflexivity|];
         rewrite nested_loops_push64; reflexivity);
    exfalso; apply Hne; reflexivity.
Qed.

End Step.

Section Transitions.

Variable m : libm.
Variable Re : float.
Variable kernel : kernel_func.
Variables ratio lon sinlat coslat radius : float.

Let flags := split_flags m Re ratio lon sinlat coslat radius.
Let step := refine_step m Re kernel ratio lon sinlat coslat radius.
Let guard := guard_passes m Re ratio lon sinlat coslat radius.

(** No axis flagged: the popped row is evaluated and dropped. *)
Lemma refine_step_evaluate64 (st : engine) :
  no_split (flags (top_row st)) ->
  let c := top_row st in
  let out := scale_nodes m Re (c_w c) (c_e c) (c_s c) (c_n c) (c_top c)
               (c_bottom c) empty_glq in
  step st = Done (Engine (queue st) (queue_size st - 1)
                    (res st + kernel lon sinlat coslat radius out.2 out.1)).
Proof.
  intros Hno. pose proof (refine_step_unfold64 m Re kernel ratio lon sinlat
                            coslat radius st) as H.
  cbv zeta in H. fold flags step (top_row st) in H.
  destruct (flags (top_row st)) as [[flon flat] fr].
  rewrite H. destruct (decide _) as [_|Hn]; [reflexivity|contradiction].
Qed.

(** Some axis flagged and the guard passes: the round pushes the children. *)
Lemma refine_step_branch64 (st : engine) :
  ~ no_split (flags (top_row st)) -> guard st ->
  step st = push_all (children (top_row st) (flags (top_row st)))
              (Engine (queue st) (queue_size st - 1) (res st)).
Proof.
  intros Hsplit Hguard. pose proof (refine_step_unfold64 m Re kernel ratio lon
                                      sinlat coslat radius st) as H.
  cbv zeta in H. fold flags step (top_row st) in H.
  unfold guard, guard_passes in Hguard. fold flags in Hguard.
  destruct (flags (top_row st)) as [[flon flat] fr]. cbn [fst snd] in Hguard.
  rewrite H. destruct (decide (no_split _)) as [Hn|_]; [contradiction|].
  destruct (Z.ltb_spec queue_max
              (queue_size st - 1 + parts flon + parts flat + parts fr));
    [lia|reflexivity].
Qed.

(** Some axis flagged and the guard fails: the round raises. *)
Lemma refine_step_raise64 (st : engine) :
  ~ no_split (flags (top_row st)) -> ~ guard st ->
  step st = Raised (ValueError "Tesseroid queue overflow").
Proof.
  intros Hsplit Hguard. pose proof (refine_step_unfold64 m Re kernel ratio lon
                                      sinlat coslat radius st) as H.
  cbv zeta in H. fold flags step (top_row st) in H.
  unfold guard, guard_passes in Hguard. fold flags in Hguard.
  destruct (flags (top_row st)) as [[flon flat] fr]. cbn [fst snd] in Hguard.
  rewrite H. destruct (decide (no_split _)) as [Hn|_]; [contradiction|].
  destruct (Z.ltb_spec queue_max
              (queue_size st - 1 + parts flon + parts flat + parts fr));
    [reflexivity|lia].
Qed.

(** Some axis flagged, the guard passes and the children fit: they replace
    the popped row. *)
Lemma refine_step_split64 (st : engine) :
  ~ no_split (flags (top_row st)) -> guard st ->
  (1 <= queue_size st)%Z ->
  (queue_size st - 1 + Z.of_nat (length (children (top_row st)
                                           (flags (top_row st))))
   <= Z.of_nat (length (queue st)))%Z ->
  let rows := children (top_row st) (flags (top_row st)) in
  step st = Done (Engine (write_rows (queue st) (Z.to_nat (queue_size st - 1))
                            rows)
                    (queue_size st - 1 + Z.of_nat (length rows)) (res st)).
Proof.
  intros Hsplit Hguard Hqs Hfit rows.
  rewrite refine_step_branch64 by assumption.
  apply push_all_fits64; [lia|assumption].
Qed.

(** Some axis flagged, the guard passes and the children do not fit: the
    round writes past the last row. *)
Lemma refine_step_past_end64 (st : engine) :
  ~ no_split (flags (top_row st)) -> guard st ->
  (1 <= queue_size st <= Z.of_nat (length (queue st)))%Z ->
  (Z.of_nat (length (queue st))
   < queue_size st - 1 + Z.of_nat (length (children (top_row st)
                                             (flags (top_row st)))))%Z ->
  step st = OutOfBounds (Z.of_nat (length (queue st))).
Proof.
  intros Hsplit Hguard Hqs Hfit.
  rewrite refine_step_branch64 by assumption.
  apply push_all_past_end64; [lia|assumption].
Qed.

Lemma refine_loop_step64 (fuel : nat) (st st' : engine) :
  queue_size st <> 0%Z -> step st = Done st' ->
  refine_loop m Re kernel ratio lon sinlat coslat radius (S fuel) st
  = refine_loop m Re kernel ratio lon sinlat coslat radius fuel st'.
Proof.
  intros Hqs Hstep. cbn [refine_loop].
  destruct (Z.eqb_spec (queue_size st) 0) as [|_]; [contradiction|].
  unfold step in Hstep. rewrite Hstep. reflexivity.
Qed.

End Transitions.

Lemma write_rows_lookup64 (q : list cell) (base i : nat) (rows : list cell) :
  (base <= length q)%nat -> (i < length rows)%nat ->
  write_rows q base rows !!! (base + i)%nat = rows !!! i.
Proof.
  intros Hb Hi. unfold write_rows.
  rewrite lookup_total_app_r by (rewrite length_take; lia).
  rewrite length_take.
  replace (base + i - base `min` length q)%nat with i by lia.
  apply lookup_total_app_l. assumption.
Qed.

Lemma write_rows_below64 (q : list cell) (base i : nat) (rows : list cell) :
  (i < base)%nat -> (base <= length q)%nat ->
  write_rows q base rows !!! i = q !!! i.
Proof.
  intros Hi Hb. unfold write_rows.
  rewrite lookup_total_app_l by (rewrite length_take; lia).
  rewrite lookup_total_take. destruct (decide _); [reflexivity|lia].
Qed.

Lemma empty_queue_length64 : Z.of_nat (length empty_queue) = queue_max.
Proof. unfold empty_queue. rewrite length_replicate. reflexivity. Qed.

(** ** The values of libm for small arguments *)

Lemma first_order_correct_near_zero : correct_near_zero first_order.
Proof. repeat split. Qed.

(** Replaces the calls of libm on closed small arguments by their values. *)
Ltac libm_values Hm :=
  let Hsc := fresh "Hsc" in
  let Hat := fresh "Hat" in
  let Hpow := fresh "Hpow" in
  pose proof Hm as (Hsc & Hat & Hpow);
  repeat match goal with
  | |- context [pow _ ?x 2] => rewrite (Hpow x)
  | |- context [sin _ ?x] =>
    rewrite (proj1 (Hsc x ltac:(vm_compute; reflexivity)))
  | |- context [cos _ ?x] =>
    rewrite (proj2 (Hsc x ltac:(vm_compute; reflexivity)))
  | |- context [atan2 ?m ?y ?x] =>
    let y' := eval vm_compute in y in
    let x' := eval vm_compute in x in
    replace (atan2 m y x) with (atan2 m y' x')
      by (f_equal; vm_compute; reflexivity);
    rewrite (Hat y' ltac:(vm_compute; reflexivity)
               ltac:(vm_compute; reflexivity))
  end;
  clear Hsc Hat Hpow.

Ltac flags_by Hm :=
  unfold split_flags, distance_n_size;
  cbn [c_w c_e c_s c_n c_top c_bottom tower_cell deep_cell replica_cell
       skew_cell];
  libm_values Hm; vm_compute; reflexivity.

Section Flags.

Variable m : libm.
Hypothesis Hm : correct_near_zero m.

Let flags := split_flags m earth_radius 1 thin_lon 0 1 0x1p-30.

Lemma tower_flags1 :
  flags (tower_cell (-0x1.854a64000001ep+22)) = (false, false, true).
Proof. unfold flags. flags_by Hm. Qed.

Lemma tower_flags2 :
  flags (tower_cell (-0x1.854a64000000ep+22)) = (false, false, true).
Proof. unfold flags. flags_by Hm. Qed.

Lemma tower_flags3 :
  flags (tower_cell (-0x1.854a640000006p+22)) = (false, false, true).
Proof. unfold flags. flags_by Hm. Qed.

Lemma tower_flags4 :
  flags (tower_cell (-0x1.854a640000002p+22)) = (false, false, true).
Proof. unfold flags. flags_by Hm. Qed.

Lemma tower_flags5 :
  flags (tower_cell (-6378137)) = (false, false, true).
Proof. unfold flags. flags_by Hm. Qed.

(** The upper half of the fifth cut is far enough to be evaluated. *)
Lemma tower_flags6 :
  flags (tower_cell (-0x1.854a63fffffffp+22)) = (false, false, false).
Proof. unfold flags. flags_by Hm. Qed.

(** The lower half of the fifth cut has its top at the radius of the point:
    the distance is 0 and the three extents, though tiny, are positive. *)
Lemma replica_flags : flags replica_cell = (true, true, true).
Proof. unfold flags. flags_by Hm. Qed.

Variable kernel : kernel_func.

Let step := refine_step m earth_radius kernel 1 thin_lon 0 1 0x1p-30.
Let loop := refine_loop m earth_radius kernel 1 thin_lon 0 1 0x1p-30.

(** A round on a row flagged along the radius alone: its lower half takes
    its place and its upper half the next row. *)
Lemma tower_step64 (st : engine) (b lower upper : cell) :
  (1 <= queue_size st)%Z -> (queue_size st + 3 <= queue_max)%Z ->
  Z.of_nat (length (queue st)) = queue_max ->
  top_row st = b -> flags b = (false, false, true) ->
  children b (false, false, true) = [lower; upper] ->
  exists st', step st = Done st' /\
    queue_size st' = (queue_size st + 1)%Z /\
    Z.of_nat (length (queue st')) = queue_max /\
    top_row st' = upper /\
    queue st' !!! Z.to_nat (queue_size st - 1) = lower.
Proof.
  intros Hqs Hmax Hlen Htop Hfl Hch. unfold flags in Hfl.
  eexists. split.
  - unfold step. apply refine_step_split64.
    + rewrite Htop, Hfl. discriminate.
    + unfold guard_passes. rewrite Htop, Hfl. cbn [fst snd parts]. lia.
    + lia.
    + rewrite Htop, Hfl, Hch. cbn [length]. lia.
  - rewrite Htop, Hfl, Hch. cbn [queue_size queue length].
    split; [lia|]. split; [|split].
    + rewrite write_rows_length64 by (cbn [length]; lia). assumption.
    + unfold top_row. cbn [queue_size queue].
      replace (Z.to_nat (queue_size st - 1 + Z.of_nat 2 - 1))
        with (Z.to_nat (queue_size st - 1) + 1)%nat by lia.
      rewrite write_rows_lookup64 by (cbn [length]; lia). reflexivity.
    + pose proof (write_rows_lookup64 (queue st)
                    (Z.to_nat (queue_size st - 1)) 0 [lower; upper]
                    ltac:(lia) ltac:(cbn [length]; lia)) as H0.
      rewrite Nat.add_0_r in H0. exact H0.
Qed.

(** While eight more rows fit, a round on a chain state cuts the top row in
    eight, and the last child, on top, is the same cell again. *)
Lemma chain_step64 (p k : Z) (st : engine) :
  (0 <= p)%Z -> (0 <= k)%Z -> (p + 7 * k + 8 <= queue_max)%Z ->
  chain_state p k st ->
  exists st', step st = Done st' /\ chain_state p (k + 1) st'.
Proof.
  intros Hp Hk Hfit (Hqs & Hlen & Hc).
  pose proof replica_flags as Hfl. unfold flags in Hfl.
  eexists. split.
  - unfold step. apply refine_step_split64.
    + rewrite Hc, Hfl. discriminate.
    + unfold guard_passes. rewrite Hc, Hfl. cbn [fst snd parts]. lia.
    + lia.
    + rewrite children_length64, Hc, Hfl.
      cbn [flagged Nat.add Nat.pow Nat.mul]. lia.
  - rewrite Hc, Hfl. split; [|split]; cbn [queue_size queue].
    + rewrite children_length64. cbn [flagged Nat.add Nat.pow Nat.mul]. lia.
    + rewrite write_rows_length64; [assumption|].
      rewrite children_length64. cbn [flagged Nat.add Nat.pow Nat.mul]. lia.
    + unfold top_row at 1. cbn [queue_size queue].
      rewrite children_length64. cbn [flagged Nat.add Nat.pow Nat.mul].
      replace (Z.to_nat (queue_size st - 1 + Z.of_nat 8 - 1))
        with (Z.to_nat (queue_size st - 1) + 7)%nat by lia.
      rewrite write_rows_lookup64
        by (rewrite ?children_length64; cbn [flagged Nat.add Nat.pow Nat.mul];
            lia).
      vm_compute. reflexivity.
Qed.

(** [k] such rounds in a row. *)
Lemma chain_run64 (p : Z) (st0 : engine) (k : nat) :
  (0 <= p)%Z -> (p + 7 * Z.of_nat k + 1 <= queue_max)%Z ->
  chain_state p 0 st0 ->
  exists st, chain_state p (Z.of_nat k) st /\
    forall fuel, loop (k + fuel)%nat st0 = loop fuel st.
Proof.
  intros Hp. induction k as [|k IH]; intros Hfit H0.
  - exists st0. split; [assumption|]. reflexivity.
  - destruct IH as (st & Hst & Hloop); [lia|assumption|].
    destruct (chain_step64 p (Z.of_nat k) st) as (st' & Hstep & Hst');
      [lia|lia|lia|assumption|].
    assert (Hqs : queue_size st <> 0%Z) by (destruct Hst as (-> & _); lia).
    exists st'. split.
    + replace (Z.of_nat (S k)) with (Z.of_nat k + 1)%Z by lia. assumption.
    + intros fuel.
      replace (S k + fuel)%nat with (k + S fuel)%nat by lia.
      rewrite Hloop. apply refine_loop_step64; assumption.
Qed.

(** With ratio 1 and the point at radius [2^-30], [deep_cell] is cut five
    times along the radius; the upper half of the fifth cut is evaluated,
    and the work list is left with the four lower halves of the first cuts
    pending under [replica_cell]. *)
Lemma tower_run64 (buffer : list cell) :
  Z.of_nat (length buffer) = queue_max ->
  exists st, chain_state 4 0 st /\
    forall fuel, loop (6 + fuel)%nat (start deep_cell buffer) = loop fuel st.
Proof.
  intros Hlen. unfold queue_max in Hlen.
  set (st0 := start deep_cell buffer).
  assert (Hlen0 : Z.of_nat (length (queue st0)) = queue_max)
    by (cbn [st0 start queue]; rewrite length_insert; assumption).
  assert (Htop0 : top_row st0 = tower_cell (-0x1.854a64000001ep+22)).
  { unfold top_row. cbn [st0 start queue queue_size].
    apply list_lookup_total_insert_eq. lia. }
  unfold queue_max in *.
  destruct (tower_step64 st0 _ _ _ ltac:(cbn; lia)
              ltac:(cbn; unfold queue_max; lia) Hlen0 Htop0 tower_flags1
              ltac:(vm_compute; reflexivity))
    as (st1 & S1 & Q1 & L1 & T1 & _).
  cbn [st0 start queue_size] in Q1.
  destruct (tower_step64 st1 _ _ _ ltac:(lia) ltac:(unfold queue_max; lia)
              L1 T1 tower_flags2 ltac:(vm_compute; reflexivity))
    as (st2 & S2 & Q2 & L2 & T2 & _).
  destruct (tower_step64 st2 _ _ _ ltac:(lia) ltac:(unfold queue_max; lia)
              L2 T2 tower_flags3 ltac:(vm_compute; reflexivity))
    as (st3 & S3 & Q3 & L3 & T3 & _).
  destruct (tower_step64 st3 _ _ _ ltac:(lia) ltac:(unfold queue_max; lia)
              L3 T3 tower_flags4 ltac:(vm_compute; reflexivity))
    as (st4 & S4 & Q4 & L4 & T4 & _).
  destruct (tower_step64 st4 _ _ _ ltac:(lia) ltac:(unfold queue_max; lia)
              L4 T4 tower_flags5 ltac:(vm_compute; reflexivity))
    as (st5 & S5 & Q5 & L5 & T5 & B5).
  assert (Hfl : no_split (split_flags m earth_radius 1 thin_lon 0 1 0x1p-30
                            (top_row st5))).
  { rewrite T5. exact tower_flags6. }
  pose proof (refine_step_evaluate64 m earth_radius kernel 1 thin_lon 0 1
                0x1p-30 st5 Hfl) as S6. cbv zeta in S6.
  match type of S6 with _ = Done ?s => exists s end. split.
  - split; [|split]; cbn [queue_size queue].
    + lia.
    + assumption.
    + unfold top_row. cbn [queue_size queue].
      replace (queue_size st5 - 1 - 1)%Z with (queue_size st4 - 1)%Z by lia.
      exact B5.
  - intros fuel. unfold loop.
    rewrite (refine_loop_step64 _ _ _ _ _ _ _ _ (5 + fuel) st0 st1)
      by (try assumption; cbn [st0 start queue_size]; lia).
    rewrite (refine_loop_step64 _ _ _ _ _ _ _ _ (4 + fuel) st1 st2)
      by (try assumption; lia).
    rewrite (refine_loop_step64 _ _ _ _ _ _ _ _ (3 + fuel) st2 st3)
      by (try assumption; lia).
    rewrite (refine_loop_step64 _ _ _ _ _ _ _ _ (2 + fuel) st3 st4)
      by (try assumption; lia).
    rewrite (refine_loop_step64 _ _ _ _ _ _ _ _ (1 + fuel) st4 st5)
      by (try assumption; lia).
    apply refine_loop_step64; [lia|exact S6].
Qed.

(** Then [replica_cell] is cut in eight 1427 times; the work list holds 9994
    rows, the guard lets the next round through, and its eighth child is
    written at row 10000, past the last row of the buffer. *)
Lemma deep_run64 (buffer : list cell) (fuel : nat) :
  Z.of_nat (length buffer) = queue_max ->
  loop (1434 + fuel)%nat (start deep_cell buffer) = OutOfBounds 10000.
Proof.
  intros Hlen.
  destruct (tower_run64 buffer Hlen) as (st6 & Hchain & Htower).
  destruct (chain_run64 4 st6 1427)
    as (st & (Hqs & Hl & Hc) & Hloop);
    [lia|unfold queue_max; lia|assumption|].
  pose proof replica_flags as Hfl. unfold flags in Hfl.
  assert (Hstep : step st = OutOfBounds 10000).
  { replace 10000%Z with (Z.of_nat (length (queue st))) by exact Hl.
    apply refine_step_past_end64.
    - rewrite Hc, Hfl. discriminate.
    - unfold guard_passes. rewrite Hc, Hfl. cbn [fst snd parts].
      unfold queue_max. lia.
    - unfold queue_max in Hl. lia.
    - rewrite children_length64, Hc, Hfl.
      cbn [flagged Nat.add Nat.pow Nat.mul].
      unfold queue_max in Hl. lia. }
  replace (1434 + fuel)%nat with (6 + (1427 + S fuel))%nat by lia.
  rewrite Htower, Hloop. unfold loop. cbn [refine_loop].
  destruct (Z.eqb_spec (queue_size st) 0) as [E|_]; [lia|].
  unfold step in Hstep. rewrite Hstep. reflexivity.
Qed.

End Flags.

(** ** The partition made by [too_close] *)

Section TooCloseSpec.

Variable m : libm.
Variables lon sinlat coslat radius : list float.
Variables rt rt_sqr sinlatt coslatt lont value : float.

Let d :=
  too_close_distance m lon sinlat coslat radius rt rt_sqr sinlatt coslatt lont.
Let loop :=
  too_close_loop m lon sinlat coslat radius rt rt_sqr sinlatt coslatt lont
    value.

(** The loop on the array [pre ++ mid ++ suf] with [i] at the start of [mid]
    and [j] at its end: it raises when the value computed for a point of
    [mid] compares below the epsilon, and otherwise rearranges [mid] into the
    points that compare above the threshold followed by the others. *)
Lemma too_close_loop_spec64 (n : nat) :
  forall (mid pre suf : list nat), length mid = n ->
  match loop n (pre ++ mid ++ suf) (Z.of_nat (length pre))
             (Z.of_nat (length pre) + Z.of_nat (length mid) - 1) with
  | inl e =>
    e = ValueError "Can't calculate directly on the tesseroid" /\
    Exists (fun p => (d p <? 1e-20) = true) mid
  | inr (b, points') =>
    exists far close,
      points' = pre ++ far ++ close ++ suf /\
      Permutation (far ++ close) mid /\
      b = (Z.of_nat (length pre) + Z.of_nat (length far))%Z /\
      Forall (fun p => (value <? d p) = true) far /\
      Forall (fun p => (value <? d p) = false) close /\
      Forall (fun p => (d p <? 1e-20) = false) mid
  end.
Proof.
  induction n as [|n IH]; intros mid pre suf Hn.
  - destruct mid; [|discriminate]. unfold loop; cbn [too_close_loop length].
    destruct (decide (_ <= _)%Z) as [Hle|_]; [lia|].
    exists [], []. simpl. repeat split; auto. lia.
  - destruct mid as [|p mid]; [discriminate|]. injection Hn as Hn.
    unfold loop. cbn [too_close_loop].
    destruct (decide (_ <= _)%Z) as [_|Hgt]; [|simpl in Hgt; lia].
    rewrite Nat2Z.id. cbn [app]. rewrite lookup_total_middle.
    fold d. destruct (d p <? 1e-20) eqn:Heps.
    { split; [reflexivity|]. left. assumption. }
    destruct (value <? d p) eqn:Hfar.
    + specialize (IH mid (pre ++ [p]) suf Hn).
      rewrite <- !app_assoc in IH. cbn [app] in IH.
      rewrite length_app in IH. cbn [length] in IH.
      replace (Z.of_nat (length pre + 1)) with (Z.of_nat (length pre) + 1)%Z
        in IH by lia.
      replace (Z.of_nat (length pre) + Z.of_nat (length (p :: mid)) - 1)%Z
        with (Z.of_nat (length pre) + 1 + Z.of_nat (length mid) - 1)%Z
        by (cbn [length]; lia).
      fold loop. destruct (loop n _ _ _) as [e|[b pts]].
      * destruct IH as [Hex IH]. split; [assumption|]. right. assumption.
      * destruct IH as (far & close & -> & Hperm & -> & Hf & Hc & He).
        exists (p :: far), close. repeat split; auto.
        -- rewrite <- app_assoc. reflexivity.
        -- simpl. constructor. assumption.
        -- simpl. lia.
    + destruct (exists_last_or_nil mid) as [->|(l' & q & ->)].
      * cbn [app length].
        replace (Z.to_nat (Z.of_nat (length pre) + Z.of_nat 1 - 1))
          with (length pre) by lia.
        rewrite lookup_total_middle, !insert_middle.
        specialize (IH [] pre (p :: suf) Hn). cbn [app length] in IH.
        replace (Z.of_nat (length pre) + Z.of_nat 1 - 1 - 1)%Z
          with (Z.of_nat (length pre) + Z.of_nat 0 - 1)%Z by lia.
        fold loop. destruct (loop n _ _ _) as [e|[b pts]].
        { destruct IH as [_ IH]. inversion IH. }
        destruct IH as (far & close & -> & Hperm & -> & Hf & Hc & He).
        apply Permutation_nil_r in Hperm. apply app_eq_nil in Hperm as [-> ->].
        exists [], [p]. repeat split; auto.
      * rewrite length_app in Hn. cbn [length] in Hn.
        assert (Hj : Z.to_nat (Z.of_nat (length pre)
                       + Z.of_nat (length (p :: l' ++ [q])) - 1)
                     = length (pre ++ p :: l')).
        { cbn [length]. rewrite !length_app. cbn [length]. lia. }
        rewrite Hj.
        replace (pre ++ p :: (l' ++ [q]) ++ suf)
          with ((pre ++ p :: l') ++ q :: suf)
          by (rewrite <- !app_assoc; reflexivity).
        rewrite lookup_total_middle.
        replace ((pre ++ p :: l') ++ q :: suf)
          with (pre ++ p :: l' ++ q :: suf)
          by (rewrite <- !app_assoc; reflexivity).
        rewrite insert_middle.
        replace (pre ++ q :: l' ++ q :: suf)
          with ((pre ++ q :: l') ++ q :: suf)
          by (rewrite <- !app_assoc; reflexivity).
        replace (length (pre ++ p :: l')) with (length (pre ++ q :: l'))
          by (rewrite !length_app; reflexivity).
        rewrite insert_middle.
        specialize (IH (q :: l') pre (p :: suf)).
        cbn [length] in IH. specialize (IH ltac:(lia)).
        replace ((pre ++ q :: l') ++ p :: suf)
          with (pre ++ (q :: l') ++ p :: suf)
          by (rewrite <- !app_assoc; reflexivity).
        replace (Z.of_nat (length pre)
                 + Z.of_nat (length (p :: l' ++ [q])) - 1 - 1)%Z
          with (Z.of_nat (length pre) + Z.of_nat (S (length l')) - 1)%Z
          by (cbn [length]; rewrite length_app; cbn [length]; lia).
        fold loop. destruct (loop n _ _ _) as [e|[b pts]].
        { destruct IH as [Hex IH]. split; [assumption|].
          right. apply Exists_app. apply Exists_cons in IH as [Hq|Hm];
            [right; left; assumption | left; assumption]. }
        destruct IH as (far & close & -> & Hperm & -> & Hf & Hc & He).
        exists far, (close ++ [p]). repeat split; auto.
        -- rewrite <- !app_assoc. reflexivity.
        -- rewrite app_assoc, Hperm, Permutation_app_comm. cbn [app].
           constructor. apply Permutation_cons_append.
        -- apply Forall_app. split; [assumption|]. constructor; auto.
        -- constructor; [assumption|]. apply Forall_app.
           apply Forall_cons in He as [Hq Hm]. split; [assumption|].
           constructor; auto.
Qed.

End TooCloseSpec.

(** The call, read off the loop started on the whole array. *)
Lemma too_close_spec64 (m : libm) (Re : float) (t : cell)
    (lon sinlat coslat radius : list float) (ratio : float)
    (points : list nat) :
  let d := too_close_dist2 m Re t lon sinlat coslat radius in
  let value := too_close_value m Re t ratio in
  match too_close m Re t lon sinlat coslat radius ratio points with
  | inl e =>
    e = ValueError "Can't calculate directly on the tesseroid" /\
    Exists (fun p => (d p <? 1e-20) = true) points
  | inr (i, points') =>
    Permutation points' points /\
    (0 <= i <= Z.of_nat (length points))%Z /\
    Forall (fun p => (value <? d p) = true) (take (Z.to_nat i) points') /\
    Forall (fun p => (value <? d p) = false) (drop (Z.to_nat i) points') /\
    Forall (fun p => (d p <? 1e-20) = false) points
  end.
Proof.
  intros d value. destruct t as [w e s n top bottom].
  unfold too_close.
  pose proof (too_close_loop_spec64 m lon sinlat coslat radius (top + Re)
    (pow m (top + Re) 2) (sin m (d2r * 0.5 * (s + n)))
    (cos m (d2r * 0.5 * (s + n)))
    (d2r * 0.5 * (w + e)) value (length points) points [] [] eq_refl) as H.
  cbn [app length] in H. rewrite app_nil_r in H.
  change (Z.of_nat 0) with 0%Z in H. rewrite Z.add_0_l in H.
  fold (too_close_value m Re (Cell w e s n top bottom) ratio). fold value.
  destruct (too_close_loop _ _ _ _ _ _ _ _ _ _ _ _ _ _ _) as [ex|[i pts]].
  - exact H.
  - destruct H as (far & close & -> & Hperm & -> & Hf & Hc & He).
    rewrite app_nil_r. rewrite Z.add_0_l, Nat2Z.id.
    rewrite take_app_length, drop_app_length.
    repeat split; auto; try lia.
    apply Permutation_length in Hperm. rewrite length_app in Hperm. lia.
Qed.

(** ** Rounds that complete *)

Lemma live_pop64 (st : engine) :
  (1 <= queue_size st)%Z ->
  take (Z.to_nat (queue_size st - 1)) (live st)
  = take (Z.to_nat (queue_size st - 1)) (queue st).
Proof.
  intros H. unfold live. rewrite take_take. f_equal. lia.
Qed.

(** A child is the box of one index triple. *)
Lemma elem_of_children64 (c : cell) (fl : bool * bool * bool) (ch : cell) :
  ch ∈ children c fl <->
  exists i j k : nat,
    (i < Z.to_nat (parts fl.1.1))%nat /\ (j < Z.to_nat (parts fl.1.2))%nat /\
    (k < Z.to_nat (parts fl.2))%nat /\
    let dlon := (c_e c - c_w c) / of_int (parts fl.1.1) in
    let dlat := (c_n c - c_s c) / of_int (parts fl.1.2) in
    let dr := (c_top c - c_bottom c) / of_int (parts fl.2) in
    ch = Cell (c_w c + of_int (Z.of_nat i) * dlon)
              (c_w c + of_int (Z.of_nat i + 1) * dlon)
              (c_s c + of_int (Z.of_nat j) * dlat)
              (c_s c + of_int (Z.of_nat j + 1) * dlat)
              (c_bottom c + of_int (Z.of_nat k + 1) * dr)
              (c_bottom c + of_int (Z.of_nat k) * dr).
Proof.
  destruct fl as [[flon flat] fr]. unfold children. cbn [fst snd]. split.
  - intros H.
    apply list_elem_of_bind in H as (i & H & Hi).
    apply list_elem_of_bind in H as (j & H & Hj).
    apply list_elem_of_bind in H as (k & H & Hk).
    apply list_elem_of_singleton in H.
    apply elem_of_seq in Hi, Hj, Hk.
    exists i, j, k. repeat split; try lia. exact H.
  - intros (i & j & k & Hi & Hj & Hk & ->).
    apply list_elem_of_bind. exists i. split; [|apply elem_of_seq; lia].
    apply list_elem_of_bind. exists j. split; [|apply elem_of_seq; lia].
    apply list_elem_of_bind. exists k. split; [|apply elem_of_seq; lia].
    apply list_elem_of_singleton. reflexivity.
Qed.

Section Completed.

Variable m : libm.
Variable Re : float.
Variable kernel : kernel_func.
Variables ratio lon sinlat coslat radius : float.

Let flags := split_flags m Re ratio lon sinlat coslat radius.
Let step := refine_step m Re kernel ratio lon sinlat coslat radius.

(** A round that completes on a flagged row has replaced it by its
    children; the buffer keeps its length. *)
Lemma refine_step_done64 (st st' : engine) :
  (1 <= queue_size st <= Z.of_nat (length (queue st)))%Z ->
  ~ no_split (flags (top_row st)) ->
  step st = Done st' ->
  length (queue st') = length (queue st) /\
  (0 <= queue_size st' <= Z.of_nat (length (queue st')))%Z /\
  res st' = res st /\
  live st' = take (Z.to_nat (queue_size st - 1)) (live st)
             ++ children (top_row st) (flags (top_row st)).
Proof.
  intros Hqs Hsplit Hstep. unfold flags, step in *.
  assert (guard_passes m Re ratio lon sinlat coslat radius st \/
          ~ guard_passes m Re ratio lon sinlat coslat radius st)
    as [Hguard|Hguard] by (unfold guard_passes; lia).
  - destruct (decide (queue_size st - 1
                      + Z.of_nat (length (children (top_row st)
                          (split_flags m Re ratio lon sinlat coslat radius
                             (top_row st))))
                      <= Z.of_nat (length (queue st)))%Z) as [Hfit|Hfit].
    + rewrite refine_step_split64 in Hstep by (assumption || lia).
      apply Done_inj in Hstep. subst st'. cbn [queue queue_size res].
      rewrite write_rows_length64 by lia. split; [reflexivity|].
      split; [lia|]. split; [reflexivity|].
      rewrite live_write_rows64 by lia. rewrite live_pop64 by lia.
      reflexivity.
    + rewrite refine_step_past_end64 in Hstep by (assumption || lia).
      discriminate.
  - rewrite refine_step_raise64 in Hstep by assumption. discriminate.
Qed.

End Completed.

(** ** Runs on [replica_cell] *)

Section Replica.

Variable m : libm.
Hypothesis Hm : correct_near_zero m.
Variable kernel : kernel_func.

Lemma chain_start64 (buffer : list cell) :
  Z.of_nat (length buffer) = queue_max ->
  chain_state 0 0 (start replica_cell buffer).
Proof.
  intros Hlen. unfold queue_max in Hlen. split; [reflexivity|]. split.
  - cbn [start queue]. rewrite length_insert. assumption.
  - unfold top_row. cbn [start queue queue_size].
    apply list_lookup_total_insert_eq. lia.
Qed.

(** With ratio 1 and the point at radius [2^-30], [replica_cell] is cut in
    eight 1428 times; the work list then holds 9997 rows and the next round
    raises. *)
Lemma overflow_run64 (buffer : list cell) (fuel : nat) :
  Z.of_nat (length buffer) = queue_max ->
  refine_loop m earth_radius kernel 1 thin_lon 0 1 0x1p-30 (1429 + fuel)
    (start replica_cell buffer)
  = Raised (ValueError "Tesseroid queue overflow").
Proof.
  intros Hlen.
  destruct (chain_run64 m Hm kernel 0 (start replica_cell buffer) 1428)
    as (st & (Hqs & Hl & Hc) & Hloop);
    [lia|unfold queue_max; lia|apply chain_start64; assumption|].
  pose proof (replica_flags m Hm) as Hfl.
  replace (1429 + fuel)%nat with (1428 + S fuel)%nat by lia.
  rewrite Hloop. cbn [refine_loop].
  destruct (Z.eqb_spec (queue_size st) 0) as [E|_]; [lia|].
  rewrite refine_step_raise64; [reflexivity| |].
  - rewrite Hc, Hfl. discriminate.
  - unfold guard_passes. rewrite Hc, Hfl. cbn [fst snd parts].
    unfold queue_max. lia.
Qed.

(** The first round on [replica_cell]: its eight children replace it. *)
Lemma replica_first_round (buffer : list cell) :
  Z.of_nat (length buffer) = queue_max ->
  exists st',
    refine_step m earth_radius kernel 1 thin_lon 0 1 0x1p-30
      (start replica_cell buffer) = Done st' /\
    live st' = children replica_cell (true, true, true).
Proof.
  intros Hlen.
  pose proof (chain_start64 buffer Hlen) as (Hqs & Hl & Htop).
  pose proof (replica_flags m Hm) as Hfl.
  unfold queue_max in *. eexists. split.
  - apply refine_step_split64.
    + rewrite Htop, Hfl. discriminate.
    + unfold guard_passes. rewrite Htop, Hfl. cbn [fst snd parts].
      unfold queue_max. lia.
    + lia.
    + rewrite children_length64, Htop, Hfl.
      cbn [flagged Nat.add Nat.pow Nat.mul]. lia.
  - rewrite Htop, Hfl.
    rewrite live_write_rows64
      by (rewrite ?children_length64; cbn [flagged Nat.add Nat.pow Nat.mul];
          lia).
    rewrite Hqs. reflexivity.
Qed.

(** The first round on [skew_cell], seen from the point of its top face on
    its middle meridian: the three axes are flagged and the eight children
    replace the cell. *)
Lemma skew_flags :
  split_flags m earth_radius 1 skew_lon 0 1 6378137 skew_cell
  = (true, true, true).
Proof. flags_by Hm. Qed.

Lemma skew_first_round (buffer : list cell) :
  Z.of_nat (length buffer) = queue_max ->
  exists st',
    refine_step m earth_radius kernel 1 skew_lon 0 1 6378137
      (start skew_cell buffer) = Done st' /\
    live st' = children skew_cell (true, true, true).
Proof.
  intros Hlen. unfold queue_max in Hlen.
  assert (Htop : top_row (start skew_cell buffer) = skew_cell).
  { unfold top_row. cbn [start queue queue_size].
    apply list_lookup_total_insert_eq. lia. }
  assert (Hl : Z.of_nat (length (queue (start skew_cell buffer))) = 10000%Z)
    by (cbn [start queue]; rewrite length_insert; assumption).
  assert (Hqs : queue_size (start skew_cell buffer) = 1%Z) by reflexivity.
  pose proof skew_flags as Hfl. eexists. split.
  - apply refine_step_split64.
    + rewrite Htop, Hfl. discriminate.
    + unfold guard_passes. rewrite Htop, Hfl. cbn [fst snd parts].
      unfold queue_max. lia.
    + lia.
    + rewrite children_length64, Htop, Hfl.
      cbn [flagged Nat.add Nat.pow Nat.mul]. lia.
  - rewrite Htop, Hfl.
    rewrite live_write_rows64
      by (rewrite ?children_length64; cbn [flagged Nat.add Nat.pow Nat.mul];
          lia).
    rewrite Hqs. reflexivity.
Qed.

End Replica.

(** [gzz] on [replica_cell] with a first point that overflows: the call ends
    there and the result array is as it was. *)
Lemma gzz_stops_at_overflow (m : libm) (fuel : nat)
    (density lon1 sinlat1 coslat1 radius1 r0 r1 : float) :
  correct_near_zero m ->
  gzz m earth_radius (1429 + fuel) replica_cell density 1
    [thin_lon; lon1] [0; sinlat1] [1; coslat1] [0x1p-30; radius1] [r0; r1]
  = ([r0; r1], Raised (ValueError "Tesseroid queue overflow")).
Proof.
  intros Hm. unfold gzz, with_rediscretization.
  cbn [length seq points_loop]. unfold refine_point.
  cbn [lookup_total list_lookup_total].
  fold (start replica_cell empty_queue).
  rewrite (overflow_run64 m Hm (kernelzz m) empty_queue fuel
             empty_queue_length64).
  reflexivity.
Qed.

(** ** The loop of a call *)

Section Range.

Variable m : libm.
Variable Re : float.
Variable kernel : kernel_func.
Variables ratio lon sinlat coslat radius : float.

Let flags := split_flags m Re ratio lon sinlat coslat radius.
Let step := refine_step m Re kernel ratio lon sinlat coslat radius.

(** A round that completes either dropped the popped row or replaced it by
    its children; the buffer keeps its length and the rows in use stay
    within it. *)
Lemma refine_step_range64 (st st' : engine) :
  (1 <= queue_size st <= Z.of_nat (length (queue st)))%Z ->
  step st = Done st' ->
  length (queue st') = length (queue st) /\
  (0 <= queue_size st' <= Z.of_nat (length (queue st')))%Z /\
  ((no_split (flags (top_row st)) /\
    live st' = take (Z.to_nat (queue_size st - 1)) (live st)) \/
   (~ no_split (flags (top_row st)) /\
    live st' = take (Z.to_nat (queue_size st - 1)) (live st)
               ++ children (top_row st) (flags (top_row st)))).
Proof.
  intros Hqs Hstep. unfold flags, step in *.
  destruct (decide (no_split (split_flags m Re ratio lon sinlat coslat radius
                                (top_row st)))) as [Hno|Hsplit].
  - unfold step in Hstep. rewrite refine_step_evaluate64 in Hstep by assumption.
    apply Done_inj in Hstep. subst st'. cbn [queue queue_size]. split; [reflexivity|].
    split; [lia|]. left. split; [assumption|].
    rewrite live_pop64 by lia. reflexivity.
  - assert (guard_passes m Re ratio lon sinlat coslat radius st \/
            ~ guard_passes m Re ratio lon sinlat coslat radius st)
      as [Hguard|Hguard] by (unfold guard_passes; lia).
    + destruct (decide (queue_size st - 1
                        + Z.of_nat (length (children (top_row st)
                            (split_flags m Re ratio lon sinlat coslat radius
                               (top_row st))))
                        <= Z.of_nat (length (queue st)))%Z) as [Hfit|Hfit].
      * unfold step in Hstep.
        rewrite refine_step_split64 in Hstep by (assumption || lia).
        apply Done_inj in Hstep. subst st'. cbn [queue queue_size].
        rewrite write_rows_length64 by lia. split; [reflexivity|].
        split; [lia|]. right. split; [assumption|].
        rewrite live_write_rows64 by lia. rewrite live_pop64 by lia. reflexivity.
      * unfold step in Hstep.
        rewrite refine_step_past_end64 in Hstep by (assumption || lia).
        discriminate.
    + unfold step in Hstep. rewrite refine_step_raise64 in Hstep by assumption.
      discriminate.
Qed.

End Range.


Lemma top_row_of_live64 (st : engine) :
  (1 <= queue_size st)%Z ->
  top_row st = live st !!! Z.to_nat (queue_size st - 1).
Proof.
  intros H. unfold top_row, live. rewrite take_lookup_total_lt by lia.
  reflexivity.
Qed.

Lemma same_live_top64 (a b : engine) :
  same_live a b -> (1 <= queue_size a)%Z -> top_row a = top_row b.
Proof.
  intros (Hqs & _ & _ & Hlive) Hrange.
  rewrite !top_row_of_live64 by lia. rewrite Hlive, Hqs. reflexivity.
Qed.

Lemma same_live_pop64 (a b : engine) :
  same_live a b -> (1 <= queue_size a)%Z ->
  take (Z.to_nat (queue_size a - 1)) (queue a)
  = take (Z.to_nat (queue_size a - 1)) (queue b).
Proof.
  intros (Hqs & _ & _ & Hlive) Hrange.
  rewrite <- (live_pop64 a) by lia.
  rewrite Hlive, Hqs. apply live_pop64. lia.
Qed.

Section Scratch64.

Variable m : libm.
Variable Re : float.
Variable kernel : kernel_func.
Variables ratio lon sinlat coslat radius : float.

Let step := refine_step m Re kernel ratio lon sinlat coslat radius.
Let loop := refine_loop m Re kernel ratio lon sinlat coslat radius.

(** A round reads the rows in use only. *)
Lemma refine_step_same_live64 (a b : engine) :
  same_live a b -> (1 <= queue_size a <= Z.of_nat (length (queue a)))%Z ->
  same_outcome (step a) (step b).
Proof.
  intros Hab Hrange. pose proof (same_live_top64 a b Hab ltac:(lia)) as Htop.
  pose proof (same_live_pop64 a b Hab ltac:(lia)) as Hpop.
  destruct Hab as (Hqs & Hres & Hlen & Hlive). unfold step.
  destruct (decide (no_split (split_flags m Re ratio lon sinlat coslat radius
                                (top_row a)))) as [Hno|Hsplit].
  - rewrite (refine_step_evaluate64 _ _ _ _ _ _ _ _ a) by assumption.
    rewrite (refine_step_evaluate64 _ _ _ _ _ _ _ _ b) by (rewrite <- Htop; assumption).
    cbn [same_outcome]. rewrite <- Htop, <- Hqs, <- Hres.
    repeat split; cbn [queue queue_size res]; try assumption.
  - assert (guard_passes m Re ratio lon sinlat coslat radius a \/
            ~ guard_passes m Re ratio lon sinlat coslat radius a)
      as [Hguard|Hguard] by (unfold guard_passes; lia).
    + assert (Hguard' : guard_passes m Re ratio lon sinlat coslat radius b)
        by (unfold guard_passes in *; rewrite <- Htop, <- Hqs; assumption).
      destruct (decide (queue_size a - 1
                        + Z.of_nat (length (children (top_row a)
                            (split_flags m Re ratio lon sinlat coslat radius
                               (top_row a))))
                        <= Z.of_nat (length (queue a)))%Z) as [Hfit|Hfit].
      * rewrite (refine_step_split64 _ _ _ _ _ _ _ _ a) by (assumption || lia).
        rewrite (refine_step_split64 _ _ _ _ _ _ _ _ b)
          by (rewrite <- ?Htop, <- ?Hqs, <- ?Hlen; assumption || lia).
        cbn [same_outcome]. rewrite <- Htop, <- Hqs, <- Hres.
        repeat split; cbn [queue queue_size res]; try reflexivity.
        -- rewrite !write_rows_length64 by lia. assumption.
        -- rewrite live_write_rows64 by lia.
           rewrite live_write_rows64 by lia.
           rewrite Hpop. reflexivity.
      * rewrite (refine_step_past_end64 _ _ _ _ _ _ _ _ a) by (assumption || lia).
        rewrite (refine_step_past_end64 _ _ _ _ _ _ _ _ b)
          by (rewrite <- ?Htop, <- ?Hqs, <- ?Hlen; assumption || lia).
        cbn [same_outcome]. rewrite Hlen. reflexivity.
    + assert (Hguard' : ~ guard_passes m Re ratio lon sinlat coslat radius b)
        by (unfold guard_passes in *; rewrite <- Htop, <- Hqs; assumption).
      rewrite (refine_step_raise64 _ _ _ _ _ _ _ _ a) by assumption.
      rewrite (refine_step_raise64 _ _ _ _ _ _ _ _ b)
        by (rewrite <- ?Htop; assumption).
      reflexivity.
Qed.

(** So does the whole loop. *)
Lemma refine_loop_same_live64 (fuel : nat) (a b : engine) :
  same_live a b -> (0 <= queue_size a <= Z.of_nat (length (queue a)))%Z ->
  same_outcome (loop fuel a) (loop fuel b).
Proof.
  revert a b. induction fuel as [|fuel IH]; intros a b Hab Hrange;
    pose proof Hab as (Hqs & _); unfold loop; cbn [refine_loop];
    rewrite <- Hqs; destruct (Z.eqb_spec (queue_size a) 0) as [E|E];
    try exact Hab; try exact I.
  pose proof (refine_step_same_live64 a b Hab ltac:(lia)) as Hstep.
  unfold step in Hstep.
  destruct (refine_step m Re kernel ratio lon sinlat coslat radius a)
    as [a'| | |] eqn:Ea;
    destruct (refine_step m Re kernel ratio lon sinlat coslat radius b)
      as [b'| | |] eqn:Eb; cbn [same_outcome] in Hstep; try contradiction;
    cbn [bind same_outcome]; try assumption.
  apply IH; [assumption|].
  apply (refine_step_range64 m Re kernel ratio lon sinlat coslat radius a a');
    [lia|assumption].
Qed.

End Scratch64.


Section PointScratch.

Variable m : libm.
Variable Re : float.
Variable kernel : kernel_func.

Lemma refine_loop_length64 (ratio lon sinlat coslat radius : float) (fuel : nat)
    (st st' : engine) :
  (0 <= queue_size st <= Z.of_nat (length (queue st)))%Z ->
  refine_loop m Re kernel ratio lon sinlat coslat radius fuel st = Done st' ->
  length (queue st') = length (queue st).
Proof.
  revert st. induction fuel as [|fuel IH]; intros st Hrange; cbn [refine_loop];
    destruct (Z.eqb_spec (queue_size st) 0) as [E|E];
    try (intros [= <-]; reflexivity); try discriminate.
  destruct (refine_step m Re kernel ratio lon sinlat coslat radius st)
    as [st1| | |] eqn:E1; cbn [bind]; try discriminate.
  intros Hloop.
  destruct (refine_step_range64 m Re kernel ratio lon sinlat coslat radius st st1
              ltac:(lia) E1) as (Hlen & Hrange1 & _).
  rewrite <- Hlen. apply IH; assumption.
Qed.

Lemma start_same_live64 (bounds : cell) (buffer buffer' : list cell) :
  length buffer = length buffer' -> (0 < length buffer)%nat ->
  same_live (start bounds buffer) (start bounds buffer').
Proof.
  intros Hlen Hpos. unfold same_live, live; cbn [start queue queue_size res].
  rewrite !length_insert. repeat split; try assumption.
  destruct buffer as [|c buffer]; [simpl in Hpos; lia|].
  destruct buffer' as [|c' buffer']; [discriminate|]. reflexivity.
Qed.

(** The refinement of a point does not depend on what the buffer held, and
    hands the buffer back with its length. *)
Lemma refine_point_scratch64 (fuel : nat) (bounds : cell) (ratio : float)
    (lons sinlats coslats radii : list float) (buffer : list cell) (l : nat) :
  Z.of_nat (length buffer) = queue_max ->
  match refine_point m Re kernel fuel bounds ratio lons sinlats coslats radii
          buffer l with
  | Done (q, r) =>
    length q = length buffer /\
    point_result m Re kernel fuel bounds ratio lons sinlats coslats radii l
    = Done r
  | Raised e =>
    point_result m Re kernel fuel bounds ratio lons sinlats coslats radii l
    = Raised e
  | OutOfBounds row =>
    point_result m Re kernel fuel bounds ratio lons sinlats coslats radii l
    = OutOfBounds row
  | OutOfFuel =>
    point_result m Re kernel fuel bounds ratio lons sinlats coslats radii l
    = OutOfFuel
  end.
Proof.
  intros Hlen. pose proof empty_queue_length64 as Hlen0.
  unfold queue_max in Hlen, Hlen0.
  assert (Hsame : same_live (start bounds buffer) (start bounds empty_queue))
    by (apply start_same_live64; lia).
  unfold point_result, refine_point.
  fold (start bounds buffer) (start bounds empty_queue).
  pose proof (refine_loop_same_live64 m Re kernel ratio (lons !!! l)
                (sinlats !!! l) (coslats !!! l) (radii !!! l) fuel _ _ Hsame)
    as Hloop.
  pose proof (refine_loop_length64 ratio (lons !!! l) (sinlats !!! l)
                (coslats !!! l) (radii !!! l) fuel (start bounds buffer))
    as Hlength.
  cbn [start queue queue_size] in Hloop, Hlength.
  rewrite length_insert in Hloop, Hlength.
  specialize (Hloop ltac:(lia)).
  fold (start bounds buffer) (start bounds empty_queue) in Hloop, Hlength.
  destruct (refine_loop _ _ _ _ _ _ _ _ _ (start bounds buffer))
    as [a| | |];
    destruct (refine_loop _ _ _ _ _ _ _ _ _ (start bounds empty_queue))
      as [b| | |]; cbn [same_outcome] in Hloop; try contradiction;
    cbn [bind snd]; try (subst; reflexivity).
  destruct Hloop as (_ & -> & _). split; [|reflexivity].
  apply Hlength; [lia|reflexivity].
Qed.

End PointScratch.


(** ** The loop over the observation points *)

Section PointsLoop.

Variable m : libm.
Variable Re : float.
Variable kernel : kernel_func.
Variable fuel : nat.
Variable bounds : cell.
Variables density ratio : float.
Variables lons sinlats coslats radii : list float.

Let pr := point_result m Re kernel fuel bounds ratio lons sinlats coslats radii.
Let ploop :=
  points_loop m Re kernel fuel bounds density ratio lons sinlats coslats radii.

(** The loop over the points [a .. a + n - 1]: the entries of the other
    points are left alone; the points are committed in order, each with
    [density] times its own result, up to the first point that does not
    complete, which ends the call with nothing committed for it or after
    it. *)
Lemma points_loop_seq64 (n : nat) :
  forall (a : nat) (buffer : list cell) (result : list float),
  Z.of_nat (length buffer) = queue_max -> (a + n <= length result)%nat ->
  let out := ploop (seq a n) buffer result in
  length out.1 = length result /\
  (forall i, (i < a \/ a + n <= i)%nat -> out.1 !!! i = result !!! i) /\
  ((out.2 = Done 0%Z /\
    forall i, (a <= i < a + n)%nat ->
      exists r, pr i = Done r /\ out.1 !!! i = result !!! i + density * r) \/
   (exists l, (a <= l < a + n)%nat /\
      (forall i, (a <= i < l)%nat ->
         exists r, pr i = Done r /\ out.1 !!! i = result !!! i + density * r) /\
      (forall r, pr l <> Done r) /\
      out.2 = as_status (pr l) /\
      (forall i, (l <= i)%nat -> out.1 !!! i = result !!! i))).
Proof.
  induction n as [|n IH]; intros a buffer result Hbuf Hlen.
  - cbn. split; [reflexivity|]. split; [reflexivity|].
    left. split; [reflexivity|]. intros i Hi. lia.
  - cbn [seq]. unfold ploop. cbn [points_loop]. fold ploop.
    pose proof (refine_point_scratch64 m Re kernel fuel bounds ratio lons sinlats
                  coslats radii buffer a Hbuf) as Hpoint. fold pr in Hpoint.
    destruct (refine_point m Re kernel fuel bounds ratio lons sinlats coslats
                radii buffer a) as [[q r]| e | row |].
    + destruct Hpoint as [Hq Hr].
      specialize (IH (S a) q (<[a := result !!! a + density * r]> result)).
      rewrite length_insert in IH.
      destruct IH as (Hl & Hout & Hcases); [lia|lia|].
      cbv zeta. split; [assumption|]. split.
      * intros i Hi. rewrite Hout by lia.
        apply list_lookup_total_insert_ne. lia.
      * assert (Ha : (ploop (seq (S a) n) q
                        (<[a := result !!! a + density * r]> result)).1 !!! a
                     = result !!! a + density * r).
        { rewrite Hout by lia. apply list_lookup_total_insert_eq. lia. }
        destruct Hcases as [[Hdone Hall] | (l & Hl' & Hbefore & Hstop & Hst & Hafter)].
        -- left. split; [assumption|]. intros i Hi.
           destruct (decide (i = a)) as [->|Hne].
           ++ exists r. split; assumption.
           ++ destruct (Hall i ltac:(lia)) as (ri & Hri & Hi').
              exists ri. split; [assumption|]. rewrite Hi'.
              rewrite list_lookup_total_insert_ne by lia. reflexivity.
        -- right. exists l. split; [lia|]. split; [|split; [|split]];
             try assumption.
           ++ intros i Hi. destruct (decide (i = a)) as [->|Hne].
              ** exists r. split; assumption.
              ** destruct (Hbefore i ltac:(lia)) as (ri & Hri & Hi').
                 exists ri. split; [assumption|]. rewrite Hi'.
                 rewrite list_lookup_total_insert_ne by lia. reflexivity.
           ++ intros i Hi. rewrite Hafter by lia.
              apply list_lookup_total_insert_ne. lia.
    + cbn [fst snd]. split; [reflexivity|]. split; [reflexivity|].
      right. exists a. split; [lia|]. split; [intros i Hi; lia|].
      rewrite Hpoint. split; [discriminate|]. split; reflexivity.
    + cbn [fst snd]. split; [reflexivity|]. split; [reflexivity|].
      right. exists a. split; [lia|]. split; [intros i Hi; lia|].
      rewrite Hpoint. split; [discriminate|]. split; reflexivity.
    + cbn [fst snd]. split; [reflexivity|]. split; [reflexivity|].
      right. exists a. split; [lia|]. split; [intros i Hi; lia|].
      rewrite Hpoint. split; [discriminate|]. split; reflexivity.
Qed.

End PointsLoop.


Lemma refine_loop_empty64 (m : libm) (Re : float) (kernel : kernel_func)
    (ratio lon sinlat coslat radius : float) (fuel : nat) (st : engine) :
  queue_size st = 0%Z ->
  refine_loop m Re kernel ratio lon sinlat coslat radius fuel st = Done st.
Proof. intros H. destruct fuel; cbn [refine_loop]; rewrite H; reflexivity. Qed.

Section DirectPoint.

Variable m : libm.
Variable Re : float.
Variable kernel : kernel_func.
Variable fuel : nat.
Variable bounds : cell.
Variable ratio : float.
Variables lons sinlats coslats radii : list float.

Let pr := point_result m Re kernel fuel bounds ratio lons sinlats coslats radii.

(** A point with no axis flagged on the whole tesseroid completes in one
    round: the accumulator, started at 0, has the direct evaluation of the
    kernel added. *)
Lemma point_result_direct64 (l : nat) :
  (1 <= fuel)%nat ->
  no_split (point_flags m Re bounds ratio lons sinlats coslats radii l) ->
  pr l
  = Done (0 + direct_kernel m Re kernel bounds lons sinlats coslats radii l).
Proof.
  intros Hfuel Hno. unfold pr, point_result, refine_point.
  fold (start bounds empty_queue).
  pose proof empty_queue_length64 as Hlen. unfold queue_max in Hlen.
  assert (Htop : top_row (start bounds empty_queue) = bounds).
  { unfold top_row. cbn [start queue queue_size].
    apply list_lookup_total_insert_eq. lia. }
  assert (Hno' : no_split (split_flags m Re ratio (lons !!! l) (sinlats !!! l)
                             (coslats !!! l) (radii !!! l)
                             (top_row (start bounds empty_queue))))
    by (rewrite Htop; exact Hno).
  pose proof (refine_step_evaluate64 m Re kernel ratio _ _ _ _ _ Hno') as Hstep.
  cbv zeta in Hstep. rewrite Htop in Hstep.
  assert (Hqs : queue_size (start bounds empty_queue) <> 0%Z)
    by (cbn [start queue_size]; lia).
  destruct fuel as [|f]; [lia|].
  rewrite (refine_loop_step64 m Re kernel ratio _ _ _ _ f _ _ Hqs Hstep).
  rewrite refine_loop_empty64 by reflexivity.
  cbn [bind res snd]. unfold direct_kernel. reflexivity.
Qed.

End DirectPoint.

Section Calls.

Variable m : libm.
Variable Re : float.
Variable kernel : kernel_func.
Variable fuel : nat.
Variable bounds : cell.
Variables density ratio : float.
Variables lons sinlats coslats radii : list float.

Let pr := point_result m Re kernel fuel bounds ratio lons sinlats coslats radii.

(** The call up to a point [l] that it reaches: the points before [l] have
    their results committed; [l] has its own committed if it completes, and
    otherwise ends the call with its entry, and the entries after it, as
    they were. *)
Lemma with_rediscretization_reached64 (result : list float) (l : nat) :
  (l < length result)%nat ->
  (forall i, (i < l)%nat -> exists r, pr i = Done r) ->
  (forall i r, (i < l)%nat -> pr i = Done r ->
     (with_rediscretization m Re fuel bounds density ratio lons sinlats
     coslats radii result kernel).1 !!! i = result !!! i + density * r) /\
  (forall r, pr l = Done r ->
     (with_rediscretization m Re fuel bounds density ratio lons sinlats
     coslats radii result kernel).1 !!! l = result !!! l + density * r) /\
  ((forall r, pr l <> Done r) ->
     (with_rediscretization m Re fuel bounds density ratio lons sinlats
     coslats radii result kernel).2 = as_status (pr l) /\
     forall i, (l <= i)%nat -> (with_rediscretization m Re fuel bounds density ratio lons sinlats
     coslats radii result kernel).1 !!! i = result !!! i).
Proof.
  intros Hl Hbefore. unfold with_rediscretization.
  pose proof (points_loop_seq64 m Re kernel fuel bounds density ratio lons sinlats
                coslats radii (length result) 0 empty_queue result
                empty_queue_length64 ltac:(lia)) as H.
  cbv zeta in H. fold pr in H.
  destruct H as (_ & _ & [[Hdone Hall] | (l' & Hl' & Hpre & Hstop & Hst & Hafter)]).
  - split; [|split].
    + intros i r Hi Hr. destruct (Hall i ltac:(lia)) as (r' & Hr' & ->).
      congruence.
    + intros r Hr. destruct (Hall l ltac:(lia)) as (r' & Hr' & ->).
      congruence.
    + intros Hnot. destruct (Hall l ltac:(lia)) as (r' & Hr' & _).
      exfalso. exact (Hnot r' Hr').
  - assert (Hge : (l <= l')%nat).
    { destruct (le_lt_dec l l') as [|Hlt]; [assumption|].
      destruct (Hbefore l' Hlt) as (r & Hr). exfalso. exact (Hstop r Hr). }
    split; [|split].
    + intros i r Hi Hr. destruct (Hpre i ltac:(lia)) as (r' & Hr' & ->).
      congruence.
    + intros r Hr. destruct (decide (l = l')) as [->|Hne].
      * exfalso. exact (Hstop r Hr).
      * destruct (Hpre l ltac:(lia)) as (r' & Hr' & ->). congruence.
    + intros Hnot. destruct (decide (l = l')) as [->|Hne].
      * split; assumption.
      * destruct (Hpre l ltac:(lia)) as (r' & Hr' & _).
        exfalso. exact (Hnot r' Hr').
Qed.

End Calls.

(** Adding to an accumulator that holds 0 gives the value added, the
    negative zero apart (0 + -0 is 0). *)
Lemma zero_plus (x : float) : x <> -0 -> 0 + x = x.
Proof.
  intros Hx. apply Prim2SF_inj. rewrite add_spec.
  change (Prim2SF 0) with (S754_zero false).
  destruct (Prim2SF x) as [s|s| |s mx ex] eqn:E; cbn.
  - destruct s; [|reflexivity].
    exfalso. apply Hx. apply Prim2SF_inj. rewrite E. reflexivity.
  - reflexivity.
  - reflexivity.
  - reflexivity.
Qed.

End B64Facts.

(** * Statements in binary64 *)

Section Binary64.

Local Open Scope float_scope.

(** ** A run that writes past the capacity *)

(** C1, at a failing input.  [gzz] on the tesseroid [B64.deep_cell] (west
    and south [2^-40] degrees, east and north the next double, top
    [-6378137 + 2^-29], bottom [-6378137 - 30 * 2^-30]) with ratio 1 and one
    observation point on the meridian and the parallel through the middle
    of the cell, at radius [2^-30]: five cuts along the radius leave four
    rows pending, the cell on top is then cut in eight 1427 times, each time
    with itself as its last child, and the work list reaches 9994 rows with
    the top row flagged on its three axes; the guard compares
    9993 + 2 + 2 + 2 with the capacity and passes, and the eighth child is
    written at row 10000, outside the buffer of rows 0..9999.  No
    [ValueError] is raised.  This holds in binary64, for every libm that
    returns the correctly rounded values for small arguments. *)
Theorem gzz_writes_past_capacity (m : B64.libm) (fuel : nat)
    (density r0 : float) :
  B64.correct_near_zero m ->
  B64.gzz m B64.earth_radius (1434 + fuel) B64.deep_cell density 1
    [B64.thin_lon] [0] [1] [0x1p-30] [r0]
  = ([r0], OutOfBounds 10000).
Proof.
  intros Hm. unfold B64.gzz, B64.with_rediscretization.
  cbn [length seq B64.points_loop]. unfold B64.refine_point.
  cbn [lookup_total list_lookup_total].
  fold (B64.start B64.deep_cell B64.empty_queue).
  rewrite (B64Facts.deep_run64 m Hm (B64.kernelzz m) B64.empty_queue fuel
             B64Facts.empty_queue_length64).
  reflexivity.
Qed.

(** The run for the first-order libm, density 1 and the entry 7. *)
Lemma gzz_writes_past_capacity_witness :
  B64.correct_near_zero B64.first_order /\
  B64.gzz B64.first_order B64.earth_radius (1434 + 0) B64.deep_cell 1 1
    [B64.thin_lon] [0] [1] [0x1p-30] [7]
  = ([7], OutOfBounds 10000).
Proof.
  split; [exact B64Facts.first_order_correct_near_zero|].
  exact (gzz_writes_past_capacity B64.first_order 0 1 7
           B64Facts.first_order_correct_near_zero).
Defined.

(** ** The transitions of a round *)

(** C3, as amended.  In a round of the engine the popped row has each axis
    flagged exactly when the comparison [distance < ratio * extent] of
    doubles holds.  With no axis flagged the row is evaluated by the kernel
    on the nodes of [scale_nodes] and consumed.  With some axis flagged, a
    round on a work list with eight free rows completes, and a round that
    completes has replaced the row by its [2 ^ flagged] children (2, 4 or
    8), a flagged axis being cut in two parts and the others kept in one,
    and a part having the bounds [lo + i * d] and [lo + (i + 1) * d] for
    [d = (hi - lo) / parts], all in binary64.  In exact arithmetic these
    parts are equal halves, or the whole axis, and the children tile the
    parent.  What a round does on a work list with fewer free rows is the
    matter of C1 and is not stated here. *)
Theorem refine_step_transition (m : B64.libm) (Re : float)
    (kernel : B64.kernel_func) (ratio lon sinlat coslat radius : float)
    (st : B64.engine) :
  (1 <= B64.queue_size st <= Z.of_nat (length (B64.queue st)))%Z ->
  let c := B64.top_row st in
  let d := B64.distance_n_size m Re (B64.c_w c) (B64.c_e c) (B64.c_s c)
             (B64.c_n c) (B64.c_top c) (B64.c_bottom c) lon sinlat coslat
             radius in
  let fl := B64.split_flags m Re ratio lon sinlat coslat radius c in
  fl = (d.1.1.1 <? ratio * d.1.1.2, d.1.1.1 <? ratio * d.1.2,
        d.1.1.1 <? ratio * d.2) /\
  (no_split fl ->
   exists st',
     B64.refine_step m Re kernel ratio lon sinlat coslat radius st = Done st' /\
     B64.live st' = take (Z.to_nat (B64.queue_size st - 1)) (B64.live st) /\
     B64.res st'
     = B64.res st
       + kernel lon sinlat coslat radius
           (B64.scale_nodes m Re (B64.c_w c) (B64.c_e c) (B64.c_s c)
              (B64.c_n c) (B64.c_top c) (B64.c_bottom c) B64.empty_glq).2
           (B64.scale_nodes m Re (B64.c_w c) (B64.c_e c) (B64.c_s c)
              (B64.c_n c) (B64.c_top c) (B64.c_bottom c) B64.empty_glq).1) /\
  (~ no_split fl ->
   (B64.queue_size st + 7 <= queue_max)%Z ->
   (queue_max <= Z.of_nat (length (B64.queue st)))%Z ->
   exists st',
     B64.refine_step m Re kernel ratio lon sinlat coslat radius st
     = Done st') /\
  (~ no_split fl ->
   forall st',
     B64.refine_step m Re kernel ratio lon sinlat coslat radius st = Done st' ->
     B64.live st' = take (Z.to_nat (B64.queue_size st - 1)) (B64.live st)
                    ++ B64.children c fl /\
     B64.res st' = B64.res st) /\
  length (B64.children c fl) = (2 ^ flagged fl)%nat /\
  (forall ch, ch ∈ B64.children c fl <->
     exists i j k : nat,
       (i < Z.to_nat (parts fl.1.1))%nat /\
       (j < Z.to_nat (parts fl.1.2))%nat /\
       (k < Z.to_nat (parts fl.2))%nat /\
       let dlon := (B64.c_e c - B64.c_w c) / B64.of_int (parts fl.1.1) in
       let dlat := (B64.c_n c - B64.c_s c) / B64.of_int (parts fl.1.2) in
       let dr := (B64.c_top c - B64.c_bottom c) / B64.of_int (parts fl.2) in
       ch = B64.Cell (B64.c_w c + B64.of_int (Z.of_nat i) * dlon)
                     (B64.c_w c + B64.of_int (Z.of_nat i + 1) * dlon)
                     (B64.c_s c + B64.of_int (Z.of_nat j) * dlat)
                     (B64.c_s c + B64.of_int (Z.of_nat j + 1) * dlat)
                     (B64.c_bottom c + B64.of_int (Z.of_nat k + 1) * dr)
                     (B64.c_bottom c + B64.of_int (Z.of_nat k) * dr)) /\
  (forall (x : cell) (fx : bool * bool * bool),
     Forall (fun ch =>
       (if fx.1.1
        then (c_w ch = c_w x /\ c_e ch = (c_w x + c_e x) / 2) \/
             (c_w ch = (c_w x + c_e x) / 2 /\ c_e ch = c_e x)
        else c_w ch = c_w x /\ c_e ch = c_e x) /\
       (if fx.1.2
        then (c_s ch = c_s x /\ c_n ch = (c_s x + c_n x) / 2) \/
             (c_s ch = (c_s x + c_n x) / 2 /\ c_n ch = c_n x)
        else c_s ch = c_s x /\ c_n ch = c_n x) /\
       (if fx.2
        then (c_bottom ch = c_bottom x
              /\ c_top ch = (c_bottom x + c_top x) / 2) \/
             (c_bottom ch = (c_bottom x + c_top x) / 2
              /\ c_top ch = c_top x)
        else c_bottom ch = c_bottom x /\ c_top ch = c_top x))%R
       (children x fx) /\
     (forall p q r, inside p q r x <-> Exists (inside p q r) (children x fx)) /\
     (forall a b p q r, a ∈ children x fx -> b ∈ children x fx ->
        strictly_inside p q r a -> strictly_inside p q r b -> a = b)).
Proof.
  intros Hqs c d fl. split; [|split; [|split; [|split; [|split; [|split]]]]].
  - unfold fl, d, B64.split_flags.
    destruct (B64.distance_n_size _ _ _ _ _ _ _ _ _ _ _ _)
      as [[[distance dlon] dlat] dr]. reflexivity.
  - intros Hno. eexists. split; [|split].
    + apply B64Facts.refine_step_evaluate64. exact Hno.
    + cbn [B64.queue B64.queue_size].
      rewrite B64Facts.live_pop64 by lia. reflexivity.
    + reflexivity.
  - intros Hsplit Hroom Hcap. eexists.
    apply B64Facts.refine_step_split64; [exact Hsplit| |lia|].
    + unfold B64.guard_passes. cbv zeta. fold c. fold fl.
      clearbody fl. destruct fl as [[[] []] []]; cbn [fst snd parts]; lia.
    + fold c. fold fl. rewrite B64Facts.children_length64.
      clearbody fl.
      destruct fl as [[[] []] []]; cbn [flagged Nat.add Nat.pow Nat.mul];
        lia.
  - intros Hsplit st' Hstep.
    destruct (B64Facts.refine_step_done64 m Re kernel ratio lon sinlat coslat
                radius st st' Hqs Hsplit Hstep) as (_ & _ & Hres & Hlive).
    split; assumption.
  - apply B64Facts.children_length64.
  - intros ch. apply B64Facts.elem_of_children64.
  - intros x fx. split; [apply children_axes|]. split.
    + intros p q r. apply children_cover.
    + intros a b p q r. apply children_disjoint.
Qed.

(** In binary64 the children need not tile the parent.  The first round on
    [B64.skew_cell] (longitudes from [-2^-40] to [2^-100] degrees), seen
    from the point of the top face on its middle meridian, cuts the three
    axes; the extent [2^-100 + 2^-40] rounds to [2^-40], the eastern
    children end at 0, and the meridian [2^-100] of the parent lies in no
    child. *)
Lemma children_miss_east_bound :
  exists st',
    B64.refine_step B64.first_order B64.earth_radius
      (B64.kernelzz B64.first_order) 1 B64.skew_lon 0 1 6378137
      (B64.start B64.skew_cell B64.empty_queue) = Done st' /\
    B64.valid_bounds B64.skew_cell /\
    B64.inside 0x1p-100 0x1p-40 0 B64.skew_cell /\
    ~ Exists (B64.inside 0x1p-100 0x1p-40 0) (B64.live st').
Proof.
  destruct (B64Facts.skew_first_round B64.first_order
              B64Facts.first_order_correct_near_zero
              (B64.kernelzz B64.first_order) B64.empty_queue
              B64Facts.empty_queue_length64)
    as (st' & Hstep & Hlive).
  exists st'. split; [exact Hstep|]. split; [|split].
  - vm_compute. auto.
  - vm_compute. repeat split.
  - rewrite Hlive, Exists_exists. intros (ch & Hch & Hin).
    assert (Hall : Forall (fun ch => (0x1p-100 <=? B64.c_e ch) = false)
                     (B64.children B64.skew_cell (true, true, true)))
      by (vm_compute; repeat constructor).
    rewrite Forall_forall in Hall. specialize (Hall ch Hch).
    destruct Hin as (_ & He & _). congruence.
Qed.

(** The first round on [B64.replica_cell]: the eight children replace the
    cell. *)
Lemma refine_step_transition_witness :
  (1 <= B64.queue_size (B64.start B64.replica_cell B64.empty_queue)
   <= Z.of_nat (length (B64.queue (B64.start B64.replica_cell
                                     B64.empty_queue))))%Z /\
  exists st',
    B64.refine_step B64.first_order B64.earth_radius
      (B64.kernelzz B64.first_order) 1 B64.thin_lon 0 1 0x1p-30
      (B64.start B64.replica_cell B64.empty_queue) = Done st' /\
    B64.live st' = [] ++ B64.children B64.replica_cell (true, true, true) /\
    B64.res st' = 0.
Proof.
  set (st0 := B64.start B64.replica_cell B64.empty_queue).
  assert (Hlen : Z.of_nat (length (B64.queue st0)) = 10000%Z).
  { cbn [st0 B64.start B64.queue].
    rewrite length_insert. exact B64Facts.empty_queue_length64. }
  assert (Hq : (1 <= B64.queue_size st0
                <= Z.of_nat (length (B64.queue st0)))%Z)
    by (cbn [st0 B64.start B64.queue_size]; lia).
  split; [exact Hq|].
  pose proof (B64Facts.chain_start64 B64.empty_queue
                B64Facts.empty_queue_length64) as (_ & _ & Htop).
  fold st0 in Htop.
  pose proof (B64Facts.replica_flags B64.first_order
                B64Facts.first_order_correct_near_zero) as Hfl.
  destruct (B64Facts.replica_first_round B64.first_order
              B64Facts.first_order_correct_near_zero (B64.kernelzz B64.first_order)
              B64.empty_queue B64Facts.empty_queue_length64)
    as (st' & Hstep & _).
  fold st0 in Hstep. exists st'. split; [exact Hstep|].
  pose proof (refine_step_transition B64.first_order B64.earth_radius
                (B64.kernelzz B64.first_order) 1 B64.thin_lon 0 1 0x1p-30
                st0 Hq) as T.
  cbv zeta in T. destruct T as (_ & _ & _ & Tsplit & _).
  rewrite Htop, Hfl in Tsplit.
  exact (Tsplit ltac:(discriminate) st' Hstep).
Defined.

(** ** The error of [too_close] *)

(** C6, as amended.  [too_close] raises its [ValueError] exactly when, for
    one of the points it is given, the value
    [radius**2 + rt_sqr - 2*radius*rt*cospsi] it computes in binary64 (the
    squared distance to the centre of the top face of the tesseroid, as
    rounded) compares below 1e-20; every point of the array is examined
    unless an earlier one already stopped the call, a call that raises
    returns no boundary index, and a call that returns one has met no such
    point. *)
Theorem too_close_raises_iff (m : B64.libm) (Re : float) (t : B64.cell)
    (lon sinlat coslat radius : list float) (ratio : float)
    (points : list nat) :
  (B64.too_close m Re t lon sinlat coslat radius ratio points
   = inl (ValueError "Can't calculate directly on the tesseroid")
   <-> Exists (fun p =>
         (B64.too_close_dist2 m Re t lon sinlat coslat radius p <? 1e-20)
         = true) points) /\
  (forall e, B64.too_close m Re t lon sinlat coslat radius ratio points = inl e
     -> e = ValueError "Can't calculate directly on the tesseroid").
Proof.
  pose proof (B64Facts.too_close_spec64 m Re t lon sinlat coslat radius ratio
                points) as H.
  cbv zeta in H.
  destruct (B64.too_close m Re t lon sinlat coslat radius ratio points)
    as [e|[i pts]].
  - destruct H as [-> Hex]. split; [tauto|]. intros e [= <-]. reflexivity.
  - destruct H as (_ & _ & _ & _ & Hall). split.
    + split; [discriminate|]. intros Hex.
      apply Exists_exists in Hex as (p & Hp & Hlt).
      rewrite Forall_forall in Hall. specialize (Hall p Hp). congruence.
    + discriminate.
Qed.

(** The value the code computes is not the squared distance, and it is not
    taken to the centre of the tesseroid.  For the point [2^-30] m above the
    centre of the top face of [unit_cell] (radius 6378137 + 2^-30), the
    squares and the product differ by less than their rounding, the computed
    value is 0 and [too_close] raises; the squared distance to the centre of
    the top face is [2^-60], about 8.7e-19, and the squared distance to the
    centre of the tesseroid, 500 m further down, is above 250000: neither is
    below 1e-20. *)
Lemma too_close_raises_by_cancellation :
  B64.too_close B64.first_order B64.earth_radius B64.unit_cell [0] [0] [1]
    [0x1.854a640000001p+22] 1 [0%nat]
  = inl (ValueError "Can't calculate directly on the tesseroid") /\
  (too_close_dist2 earth_radius unit_cell [0] [0] [1]
     [earth_radius + / 2 ^ 30] 0 = (/ 2 ^ 30) ^ 2 /\
   1e-20 <= (/ 2 ^ 30) ^ 2 /\
   centre_dist2 earth_radius unit_cell [0] [0] [1]
     [earth_radius + / 2 ^ 30] 0 = (500 + / 2 ^ 30) ^ 2 /\
   1e-20 <= (500 + / 2 ^ 30) ^ 2)%R.
Proof.
  split; [vm_compute; reflexivity|]. split; [|split; [|split]].
  - unfold too_close_dist2, too_close_distance, unit_cell; cbn -[pow].
    replace (d2r * 0.5 * (-1 + 1))%R with 0%R by lra.
    rewrite Rminus_0_r, cos_0, sin_0. unfold earth_radius. field.
  - lra.
  - unfold centre_dist2, too_close_distance, unit_cell; cbn -[pow].
    replace (d2r * 0.5 * (-1 + 1))%R with 0%R by lra.
    rewrite Rminus_0_r, cos_0, sin_0. unfold earth_radius. field.
  - assert (0 < / 2 ^ 30)%R by (apply Rinv_0_lt_compat; lra). nra.
Qed.

(** ** Nodes and work items of thin cells *)



(** ** The adaptive path and the direct path *)

(** C4, as amended.  For a tesseroid, density, ratio and observation point
    [l] at which no splitting triggers on the original tesseroid (none of
    the three comparisons [distance < ratio * extent] holds), the adaptive
    evaluation of the point makes one round and yields [0 + K], where [K]
    is the direct [kernelzz] evaluation on the scaled nodes of the unsplit
    tesseroid and 0 the value the accumulator starts from; and, provided
    the evaluation of every point before [l] in the call completes, [gzz]
    adds exactly [density] times that value to the point's entry of
    [result].  [0 + K] is [K] itself unless [K] is the negative zero.  All
    in binary64, for every libm. *)
Theorem gzz_direct_when_no_split (m : B64.libm) (Re : float) (fuel : nat)
    (t : B64.cell) (density ratio : float)
    (lons sinlats coslats radii result : list float) (l : nat) :
  (1 <= fuel)%nat -> (l < length result)%nat ->
  no_split (B64.point_flags m Re t ratio lons sinlats coslats radii l) ->
  (forall i, (i < l)%nat ->
     exists r, B64.point_result m Re (B64.kernelzz m) fuel t ratio lons
                 sinlats coslats radii i = Done r) ->
  let K := B64.direct_kernel m Re (B64.kernelzz m) t lons sinlats coslats
             radii l in
  B64.point_result m Re (B64.kernelzz m) fuel t ratio lons sinlats coslats
    radii l = Done (0 + K) /\
  (B64.gzz m Re fuel t density ratio lons sinlats coslats radii result).1
    !!! l
  = result !!! l + density * (0 + K) /\
  (K <> -0 ->
   (B64.gzz m Re fuel t density ratio lons sinlats coslats radii result).1
     !!! l
   = result !!! l + density * K).
Proof.
  intros Hfuel Hl Hno Hbefore K.
  pose proof (B64Facts.point_result_direct64 m Re (B64.kernelzz m) fuel t
                ratio lons sinlats coslats radii l Hfuel Hno) as Hpoint.
  fold K in Hpoint.
  destruct (B64Facts.with_rediscretization_reached64 m Re (B64.kernelzz m)
              fuel t density ratio lons sinlats coslats radii result l Hl
              Hbefore) as (_ & Hdone & _).
  specialize (Hdone _ Hpoint).
  split; [exact Hpoint|]. split; [exact Hdone|].
  intros HK. unfold B64.gzz. rewrite Hdone.
  rewrite (B64Facts.zero_plus K HK). reflexivity.
Qed.

(** Two points on the middle meridian and parallel of [B64.replica_cell], at
    radius 6378137: no axis is flagged for either, the first completes, and
    the entry 7 of the second gets twice its direct kernel. *)
Lemma gzz_direct_when_no_split_witness :
  (1 <= 1)%nat /\ (1 < length [5; 7])%nat /\
  no_split (B64.point_flags B64.first_order B64.earth_radius
              B64.replica_cell 1 [B64.thin_lon; B64.thin_lon] [0; 0] [1; 1]
              [6378137; 6378137] 1) /\
  (forall i, (i < 1)%nat ->
     exists r, B64.point_result B64.first_order B64.earth_radius
                 (B64.kernelzz B64.first_order) 1 B64.replica_cell 1
                 [B64.thin_lon; B64.thin_lon] [0; 0] [1; 1]
                 [6378137; 6378137] i = Done r) /\
  (B64.gzz B64.first_order B64.earth_radius 1 B64.replica_cell 2 1
     [B64.thin_lon; B64.thin_lon] [0; 0] [1; 1] [6378137; 6378137]
     [5; 7]).1 !!! 1%nat
  = [5; 7] !!! 1%nat
    + 2 * (0 + B64.direct_kernel B64.first_order B64.earth_radius
                 (B64.kernelzz B64.first_order) B64.replica_cell
                 [B64.thin_lon; B64.thin_lon] [0; 0] [1; 1]
                 [6378137; 6378137] 1).
Proof.
  assert (H1 : (1 <= 1)%nat) by lia.
  assert (H2 : (1 < length [5; 7])%nat) by (simpl; lia).
  assert (Hfar : forall i, (i < 2)%nat ->
             no_split (B64.point_flags B64.first_order B64.earth_radius
                         B64.replica_cell 1 [B64.thin_lon; B64.thin_lon]
                         [0; 0] [1; 1] [6378137; 6378137] i)).
  { intros i Hi. destruct i as [|[|i]]; [| |lia]; vm_compute; reflexivity. }
  assert (H4 : forall i, (i < 1)%nat ->
             exists r, B64.point_result B64.first_order B64.earth_radius
                         (B64.kernelzz B64.first_order) 1 B64.replica_cell 1
                         [B64.thin_lon; B64.thin_lon] [0; 0] [1; 1]
                         [6378137; 6378137] i = Done r).
  { intros i Hi. eexists.
    apply B64Facts.point_result_direct64; [lia|]. apply Hfar. lia. }
  split; [exact H1|]. split; [exact H2|].
  split; [exact (Hfar 1%nat ltac:(lia))|]. split; [exact H4|].
  destruct (gzz_direct_when_no_split B64.first_order B64.earth_radius 1
              B64.replica_cell 2 1 [B64.thin_lon; B64.thin_lon] [0; 0]
              [1; 1] [6378137; 6378137] [5; 7] 1 H1 H2
              (Hfar 1%nat ltac:(lia)) H4) as (_ & Hentry & _).
  exact Hentry.
Defined.

(** [gzz] does not get to a point that comes after one whose refinement
    raises.  On [B64.replica_cell] with ratio 1 and two points on the middle
    meridian and parallel, the first at radius [2^-30] and the second at
    radius 6378137: no axis is flagged for the second point and its direct
    kernel is not 0, but the refinement of the first point raises the
    overflow error after 1428 cuts and the call ends with the entry of the
    second point as it was. *)
Lemma later_point_not_reached :
  no_split (B64.split_flags B64.first_order B64.earth_radius 1 B64.thin_lon
              0 1 6378137 B64.replica_cell) /\
  B64.gzz B64.first_order B64.earth_radius (1429 + 0) B64.replica_cell 1 1
    [B64.thin_lon; B64.thin_lon] [0; 0] [1; 1] [0x1p-30; 6378137] [0; 0]
  = ([0; 0], Raised (ValueError "Tesseroid queue overflow")) /\
  0 + 1 * B64.direct_kernel B64.first_order B64.earth_radius
            (B64.kernelzz B64.first_order) B64.replica_cell
            [B64.thin_lon; B64.thin_lon] [0; 0] [1; 1] [0x1p-30; 6378137] 1
  <> 0.
Proof.
  split; [vm_compute; reflexivity|]. split.
  - exact (B64Facts.gzz_stops_at_overflow B64.first_order 0 1 B64.thin_lon 0
             1 6378137 0 0 B64Facts.first_order_correct_near_zero).
  - intros H.
    apply (f_equal (fun x => PrimFloat.eqb x 0)) in H.
    vm_compute in H. discriminate.
Qed.

(** ** The partition and the capacity test, in general *)

(** X1.  When [too_close] returns a boundary index [i], the index array it
    leaves is a permutation of the one it was given, [i] lies between 0 and
    the number of points, every point before [i] has a computed value that
    compares above the threshold [(size*ratio)**2], no point from [i] on
    has, and no point has a computed value below 1e-20; the comparisons are
    those of binary64. *)
Theorem too_close_partition (m : B64.libm) (Re : float) (t : B64.cell)
    (lon sinlat coslat radius : list float) (ratio : float)
    (points points' : list nat) (i : Z) :
  B64.too_close m Re t lon sinlat coslat radius ratio points
  = inr (i, points') ->
  Permutation points' points /\
  (0 <= i <= Z.of_nat (length points))%Z /\
  Forall (fun p =>
    (B64.too_close_value m Re t ratio
     <? B64.too_close_dist2 m Re t lon sinlat coslat radius p) = true)
    (take (Z.to_nat i) points') /\
  Forall (fun p =>
    (B64.too_close_value m Re t ratio
     <? B64.too_close_dist2 m Re t lon sinlat coslat radius p) = false)
    (drop (Z.to_nat i) points') /\
  Forall (fun p =>
    (B64.too_close_dist2 m Re t lon sinlat coslat radius p <? 1e-20) = false)
    points.
Proof.
  intros Hcall.
  pose proof (B64Facts.too_close_spec64 m Re t lon sinlat coslat radius ratio
                points) as H.
  cbv zeta in H. rewrite Hcall in H. exact H.
Qed.

(** Three points above the top-face centre of [B64.unit_cell], whose size is
    about 222 km, with ratio 1: the points 1000 km and 500 km up are kept
    and the point 1 km up, listed between them, is moved to the end. *)
Lemma too_close_partition_witness :
  B64.too_close B64.first_order B64.earth_radius B64.unit_cell [0; 0; 0]
    [0; 0; 0] [1; 1; 1] [7378137; 6379137; 6878137] 1 [0; 1; 2]%nat
  = inr (2%Z, [0; 2; 1]%nat) /\
  Permutation [0; 2; 1]%nat [0; 1; 2]%nat /\
  (0 <= 2 <= Z.of_nat (length [0; 1; 2]%nat))%Z /\
  Forall (fun p =>
    (B64.too_close_value B64.first_order B64.earth_radius B64.unit_cell 1
     <? B64.too_close_dist2 B64.first_order B64.earth_radius B64.unit_cell
          [0; 0; 0] [0; 0; 0] [1; 1; 1] [7378137; 6379137; 6878137] p)
    = true) (take (Z.to_nat 2) [0; 2; 1]%nat) /\
  Forall (fun p =>
    (B64.too_close_value B64.first_order B64.earth_radius B64.unit_cell 1
     <? B64.too_close_dist2 B64.first_order B64.earth_radius B64.unit_cell
          [0; 0; 0] [0; 0; 0] [1; 1; 1] [7378137; 6379137; 6878137] p)
    = false) (drop (Z.to_nat 2) [0; 2; 1]%nat) /\
  Forall (fun p =>
    (B64.too_close_dist2 B64.first_order B64.earth_radius B64.unit_cell
       [0; 0; 0] [0; 0; 0] [1; 1; 1] [7378137; 6379137; 6878137] p
     <? 1e-20) = false) [0; 1; 2]%nat.
Proof.
  assert (H : B64.too_close B64.first_order B64.earth_radius B64.unit_cell
                [0; 0; 0] [0; 0; 0] [1; 1; 1] [7378137; 6379137; 6878137] 1
                [0; 1; 2]%nat = inr (2%Z, [0; 2; 1]%nat))
    by (vm_compute; reflexivity).
  split; [exact H|].
  exact (too_close_partition B64.first_order B64.earth_radius B64.unit_cell
           [0; 0; 0] [0; 0; 0] [1; 1; 1] [7378137; 6379137; 6878137] 1
           [0; 1; 2]%nat [0; 2; 1]%nat 2 H).
Defined.

(** X2.  A round on a row with at most two axes flagged never writes
    outside a buffer of [queue_max] rows: it completes or raises the
    overflow error.  For one or two flagged axes the sum of the split counts
    that the capacity test adds (4 or 5) is at least the number of children
    pushed (2 or 4). *)
Theorem round_in_bounds_up_to_two_axes (m : B64.libm) (Re : float)
    (kernel : B64.kernel_func) (ratio lon sinlat coslat radius : float)
    (st : B64.engine) :
  (1 <= B64.queue_size st)%Z ->
  Z.of_nat (length (B64.queue st)) = queue_max ->
  (flagged (B64.split_flags m Re ratio lon sinlat coslat radius
              (B64.top_row st)) <= 2)%nat ->
  (exists st',
     B64.refine_step m Re kernel ratio lon sinlat coslat radius st = Done st')
  \/ B64.refine_step m Re kernel ratio lon sinlat coslat radius st
     = Raised (ValueError "Tesseroid queue overflow").
Proof.
  intros Hqs Hlen Hfl.
  destruct (decide (no_split (B64.split_flags m Re ratio lon sinlat coslat
                                radius (B64.top_row st)))) as [Hno|Hsplit].
  { left. eexists. apply B64Facts.refine_step_evaluate64. exact Hno. }
  assert (B64.guard_passes m Re ratio lon sinlat coslat radius st \/
          ~ B64.guard_passes m Re ratio lon sinlat coslat radius st)
    as [Hguard|Hguard] by (unfold B64.guard_passes; lia).
  - left. eexists.
    apply B64Facts.refine_step_split64; [exact Hsplit|exact Hguard|lia|].
    rewrite B64Facts.children_length64.
    unfold B64.guard_passes in Hguard. cbv zeta in Hguard.
    destruct (B64.split_flags m Re ratio lon sinlat coslat radius
                (B64.top_row st)) as [[[] []] []];
      cbn [flagged fst snd parts Nat.add Nat.pow Nat.mul] in *; lia.
  - right. apply B64Facts.refine_step_raise64; assumption.
Qed.

(** The first round on [B64.deep_cell], flagged along the radius only. *)
Lemma round_in_bounds_up_to_two_axes_witness :
  (1 <= B64.queue_size (B64.start B64.deep_cell B64.empty_queue))%Z /\
  Z.of_nat (length (B64.queue (B64.start B64.deep_cell B64.empty_queue)))
  = queue_max /\
  (flagged (B64.split_flags B64.first_order B64.earth_radius 1 B64.thin_lon
              0 1 0x1p-30
              (B64.top_row (B64.start B64.deep_cell B64.empty_queue)))
   <= 2)%nat /\
  ((exists st',
      B64.refine_step B64.first_order B64.earth_radius
        (B64.kernelzz B64.first_order) 1 B64.thin_lon 0 1 0x1p-30
        (B64.start B64.deep_cell B64.empty_queue) = Done st')
   \/ B64.refine_step B64.first_order B64.earth_radius
        (B64.kernelzz B64.first_order) 1 B64.thin_lon 0 1 0x1p-30
        (B64.start B64.deep_cell B64.empty_queue)
      = Raised (ValueError "Tesseroid queue overflow")).
Proof.
  assert (H1 : (1 <= B64.queue_size
                      (B64.start B64.deep_cell B64.empty_queue))%Z)
    by (cbn [B64.start B64.queue_size]; lia).
  assert (H2 : Z.of_nat (length (B64.queue (B64.start B64.deep_cell
                                              B64.empty_queue)))
               = queue_max).
  { cbn [B64.start B64.queue]. rewrite length_insert.
    exact B64Facts.empty_queue_length64. }
  assert (Htop : B64.top_row (B64.start B64.deep_cell B64.empty_queue)
                 = B64.deep_cell).
  { unfold B64.top_row. cbn [B64.start B64.queue B64.queue_size].
    apply list_lookup_total_insert_eq.
    pose proof B64Facts.empty_queue_length64. unfold queue_max in *. lia. }
  assert (H3 : (flagged (B64.split_flags B64.first_order B64.earth_radius 1
                           B64.thin_lon 0 1 0x1p-30
                           (B64.top_row (B64.start B64.deep_cell
                                           B64.empty_queue))) <= 2)%nat).
  { rewrite Htop. unfold B64.deep_cell.
    rewrite (B64Facts.tower_flags1 B64.first_order
               B64Facts.first_order_correct_near_zero).
    cbn [flagged Nat.add]. lia. }
  split; [exact H1|]. split; [exact H2|]. split; [exact H3|].
  exact (round_in_bounds_up_to_two_axes B64.first_order B64.earth_radius
           (B64.kernelzz B64.first_order) 1 B64.thin_lon 0 1 0x1p-30
           (B64.start B64.deep_cell B64.empty_queue) H1 H2 H3).
Defined.

(** X3.  A round on a row with its three axes flagged, in a buffer of
    [queue_max] rows: it writes past the last row exactly when 9994 or 9995
    rows are in use; with fewer it completes, with more it raises the
    overflow error. *)
Theorem three_axes_round (m : B64.libm) (Re : float)
    (kernel : B64.kernel_func) (ratio lon sinlat coslat radius : float)
    (st : B64.engine) :
  (1 <= B64.queue_size st <= Z.of_nat (length (B64.queue st)))%Z ->
  Z.of_nat (length (B64.queue st)) = queue_max ->
  B64.split_flags m Re ratio lon sinlat coslat radius (B64.top_row st)
  = (true, true, true) ->
  ((B64.queue_size st <= 9993)%Z ->
   exists st',
     B64.refine_step m Re kernel ratio lon sinlat coslat radius st
     = Done st') /\
  ((9994 <= B64.queue_size st <= 9995)%Z ->
   B64.refine_step m Re kernel ratio lon sinlat coslat radius st
   = OutOfBounds 10000) /\
  ((9996 <= B64.queue_size st)%Z ->
   B64.refine_step m Re kernel ratio lon sinlat coslat radius st
   = Raised (ValueError "Tesseroid queue overflow")).
Proof.
  intros Hqs Hlen Hfl. unfold queue_max in Hlen.
  assert (Hsplit : ~ no_split (B64.split_flags m Re ratio lon sinlat coslat
                                 radius (B64.top_row st)))
    by (rewrite Hfl; discriminate).
  split; [|split].
  - intros Hlow. eexists. apply B64Facts.refine_step_split64.
    + exact Hsplit.
    + unfold B64.guard_passes. rewrite Hfl. cbn [fst snd parts].
      unfold queue_max. lia.
    + lia.
    + rewrite B64Facts.children_length64, Hfl.
      cbn [flagged Nat.add Nat.pow Nat.mul]. lia.
  - intros Hmid.
    replace 10000%Z with (Z.of_nat (length (B64.queue st))) by exact Hlen.
    apply B64Facts.refine_step_past_end64.
    + exact Hsplit.
    + unfold B64.guard_passes. rewrite Hfl. cbn [fst snd parts].
      unfold queue_max. lia.
    + lia.
    + rewrite B64Facts.children_length64, Hfl.
      cbn [flagged Nat.add Nat.pow Nat.mul]. lia.
  - intros Hhigh. apply B64Facts.refine_step_raise64.
    + exact Hsplit.
    + unfold B64.guard_passes. rewrite Hfl. cbn [fst snd parts].
      unfold queue_max. lia.
Qed.

(** A work list of 9994 rows with [B64.replica_cell] on top. *)
Lemma three_axes_round_witness :
  let st := B64.Engine (<[Z.to_nat 9993 := B64.replica_cell]> B64.empty_queue)
              9994 0 in
  (1 <= B64.queue_size st <= Z.of_nat (length (B64.queue st)))%Z /\
  Z.of_nat (length (B64.queue st)) = queue_max /\
  B64.split_flags B64.first_order B64.earth_radius 1 B64.thin_lon 0 1
    0x1p-30 (B64.top_row st) = (true, true, true) /\
  B64.refine_step B64.first_order B64.earth_radius
    (B64.kernelzz B64.first_order) 1 B64.thin_lon 0 1 0x1p-30 st
  = OutOfBounds 10000.
Proof.
  intros st.
  assert (H2 : Z.of_nat (length (B64.queue st)) = queue_max).
  { cbn [st B64.queue]. rewrite length_insert.
    exact B64Facts.empty_queue_length64. }
  assert (H1 : (1 <= B64.queue_size st
                <= Z.of_nat (length (B64.queue st)))%Z)
    by (rewrite H2; cbn [st B64.queue_size]; unfold queue_max; lia).
  assert (Htop : B64.top_row st = B64.replica_cell).
  { unfold B64.top_row. cbn [st B64.queue B64.queue_size].
    change (9994 - 1)%Z with 9993%Z.
    apply list_lookup_total_insert_eq.
    pose proof B64Facts.empty_queue_length64. unfold queue_max in *. lia. }
  assert (H3 : B64.split_flags B64.first_order B64.earth_radius 1
                 B64.thin_lon 0 1 0x1p-30 (B64.top_row st)
               = (true, true, true)).
  { rewrite Htop.
    exact (B64Facts.replica_flags B64.first_order
             B64Facts.first_order_correct_near_zero). }
  split; [exact H1|]. split; [exact H2|]. split; [exact H3|].
  destruct (three_axes_round B64.first_order B64.earth_radius
              (B64.kernelzz B64.first_order) 1 B64.thin_lon 0 1 0x1p-30 st
              H1 H2 H3) as (_ & Hmid & _).
  apply Hmid. cbn [st B64.queue_size]. lia.
Defined.

End Binary64.
